(** * Pruner: generational retention of backup files

    A shallow embedding of [pruner.py] (entry parsing, series bucketing,
    retention-window classification and survivor selection) together with
    the properties of the specification that were checked against it.

    Conventions of the embedding:
    - a Python [str] is a list of characters ([str]); literals are written
      with [s "..."];
    - a Python [int] is a [Z];
    - [File] objects live in a store ([heap]) and are passed around by
      reference, because [File.get_bucket] assigns to attributes of [self];
    - a function that can raise returns a [result];
    - dictionaries whose iteration order is observable are association
      lists in insertion order. *)

From Stdlib Require Import ZArith List Bool Ascii String Lia DecimalString.
From Stdlib Require Import Permutation Sorted.
Import ListNotations.
Local Open Scope Z_scope.

(** ** Strings *)

Definition str := list ascii.

Definition s (x : string) : str := list_ascii_of_string x.

Definition ch_eqb (a b : ascii) : bool := Ascii.eqb a b.

Fixpoint str_eqb (a b : str) : bool :=
  match a, b with
  | [], [] => true
  | x :: a', y :: b' => ch_eqb x y && str_eqb a' b'
  | _, _ => false
  end.

(** [p] is a prefix of [t]. *)
Fixpoint starts_with (p t : str) : bool :=
  match p, t with
  | [], _ => true
  | x :: p', y :: t' => ch_eqb x y && starts_with p' t'
  | _ :: _, [] => false
  end.

(** Python's [sub in t] on strings. *)
Fixpoint contains (sub t : str) : bool :=
  starts_with sub t ||
  match t with
  | [] => false
  | _ :: t' => contains sub t'
  end.

Definition len (t : str) : Z := Z.of_nat (List.length t).

(** [t[i]]: a negative index counts from the end; [None] stands for
    [IndexError]. *)
Definition py_index (t : str) (i : Z) : option ascii :=
  let j := if i <? 0 then len t + i else i in
  if (j <? 0) || (len t <=? j) then None else nth_error t (Z.to_nat j).

(** The slice bound [i] clipped to the string, as Python does. *)
Definition py_bound (t : str) (i : Z) : nat :=
  let j := if i <? 0 then len t + i else i in
  Z.to_nat (Z.max 0 (Z.min j (len t))).

(** [t[:i]] and [t[i:]]. *)
Definition py_slice_to (t : str) (i : Z) : str := firstn (py_bound t i) t.
Definition py_slice_from (t : str) (i : Z) : str := skipn (py_bound t i) t.

(** [str.replace(a, b)] for single characters. *)
Definition replace_char (a b : ascii) (t : str) : str :=
  map (fun c => if ch_eqb c a then b else c) t.

(** [t.split(sep)[0]]: everything before the first [sep]. *)
Fixpoint before_first (sep : ascii) (t : str) : str :=
  match t with
  | [] => []
  | c :: t' => if ch_eqb c sep then [] else c :: before_first sep t'
  end.

(** [posixpath.basename]: everything after the last ["/"]. *)
Fixpoint basename (t : str) : str :=
  match t with
  | [] => []
  | c :: t' =>
      if existsb (ch_eqb "/"%char) t' then basename t'
      else if ch_eqb c "/"%char then t' else t
  end.

(** [str(n)] and [format(n, '02')] for integers. *)
Definition str_of_int (n : Z) : str :=
  list_ascii_of_string (NilZero.string_of_int (Z.to_int n)).

Definition pad02 (n : Z) : str :=
  let t := str_of_int n in
  if (List.length t <? 2)%nat then "0"%char :: t else t.

(** ** The date-stamp regular expression

    [r_date_stamp] is matched with backtracking.  A pattern is a function
    from the remaining input to the list of ways it can match, in the
    order in which the backtracking matcher tries them; each way gives the
    captured text and the input left over.  [re.search] takes the first
    way at the leftmost position that has one. *)

Module Re.

Definition pat (A : Type) : Type := str -> list (A * str).

Definition ret {A} (a : A) : pat A := fun t => [(a, t)].

Definition bind {A B} (p : pat A) (k : A -> pat B) : pat B :=
  fun t => flat_map (fun '(a, rest) => k a rest) (p t).

Definition alt {A} (p q : pat A) : pat A := fun t => p t ++ q t.

Definition fail {A} : pat A := fun _ => [].

(** One character of a class. *)
Definition cls (f : ascii -> bool) : pat str :=
  fun t => match t with
           | c :: rest => if f c then [([c], rest)] else []
           | [] => []
           end.

Definition cat (p q : pat str) : pat str :=
  bind p (fun a => bind q (fun b => ret (a ++ b))).

(** [p?], greedy: first with, then without. *)
Definition opt (p : pat str) : pat str := alt p (ret []).

(** [p{lo,hi}], greedy: the longer repetitions are tried first. *)
Fixpoint rep (lo hi : nat) (p : pat str) : pat str :=
  match hi with
  | O => match lo with O => ret [] | S _ => fail end
  | S hi' =>
      alt (cat p (rep (Nat.pred lo) hi' p))
          (match lo with O => ret [] | S _ => fail end)
  end.

Definition chr (c : ascii) : pat str := cls (ch_eqb c).

Definition range (a b : ascii) (c : ascii) : bool :=
  (nat_of_ascii a <=? nat_of_ascii c)%nat && (nat_of_ascii c <=? nat_of_ascii b)%nat.

Definition digit : ascii -> bool := range "0" "9".

Definition one_of (t : str) (c : ascii) : bool := existsb (ch_eqb c) t.

End Re.

(** [[-_]] *)
Definition is_sep (c : ascii) : bool := Re.one_of (s "-_") c.

(** [[0-9:_-]] *)
Definition is_time_char (c : ascii) : bool := Re.digit c || Re.one_of (s ":_-") c.

(** [(?P<year>(?:19|20)[0-9][0-9])] *)
Definition re_year : Re.pat str :=
  Re.cat (Re.alt (Re.cat (Re.chr "1") (Re.chr "9")) (Re.cat (Re.chr "2") (Re.chr "0")))
         (Re.cat (Re.cls Re.digit) (Re.cls Re.digit)).

(** [(?P<sep1>[-_]?)] and [(?P<sep2>[-_]?)] *)
Definition re_sep : Re.pat str := Re.opt (Re.cls is_sep).

(** [(?P<month>0[1-9]|1[0-2])] *)
Definition re_month : Re.pat str :=
  Re.alt (Re.cat (Re.chr "0") (Re.cls (Re.range "1" "9")))
         (Re.cat (Re.chr "1") (Re.cls (Re.range "0" "2"))).

(** [(?P<day>0[1-9]|1[0-9]|2[0-9]|3[01])] *)
Definition re_day : Re.pat str :=
  Re.alt (Re.cat (Re.chr "0") (Re.cls (Re.range "1" "9")))
  (Re.alt (Re.cat (Re.chr "1") (Re.cls Re.digit))
  (Re.alt (Re.cat (Re.chr "2") (Re.cls Re.digit))
          (Re.cat (Re.chr "3") (Re.cls (Re.range "0" "1"))))).

(** [[0-9:_-]{6,10}] *)
Definition re_time : Re.pat str := Re.rep 6 10 (Re.cls is_time_char).

(** The five named groups of a match, and the text of the whole match. *)
Record groups := mkGroups {
  g_year : str; g_sep1 : str; g_month : str; g_sep2 : str; g_day : str;
  g_all : str }.

Definition r_date_stamp : Re.pat groups :=
  Re.bind re_year (fun y =>
  Re.bind re_sep (fun s1 =>
  Re.bind re_month (fun m =>
  Re.bind re_sep (fun s2 =>
  Re.bind re_day (fun d =>
  Re.bind re_time (fun t =>
  Re.ret (mkGroups y s1 m s2 d (y ++ s1 ++ m ++ s2 ++ d ++ t)))))))).

(** A match object: the groups and the position where the match starts. *)
Record re_match := mkMatch { m_start : nat; m_groups : groups }.

Definition m_end (m : re_match) : nat :=
  (m_start m + List.length (g_all (m_groups m)))%nat.

(** [r_date_stamp.search(t)], scanning from offset [i]. *)
Fixpoint search_from (i : nat) (t : str) : option re_match :=
  match r_date_stamp t with
  | (g, _) :: _ => Some (mkMatch i g)
  | [] => match t with
          | [] => None
          | _ :: t' => search_from (S i) t'
          end
  end.

Definition search (t : str) : option re_match := search_from 0 t.

(** ** Entries *)

Record File := mkFile {
  original_filename : str;
  base_filename : str;
  filename : str;
  internal_filename : str;
  min_size : Z;
  ds_start : Z;
  ds_end : Z;
  date_stamp : str }.

(** [File.__init__].  The size check behind [min_size] reads the file
    system and only logs a warning; it has no part in the entry. *)
Definition File_init (fn : str) (msize : Z) : File :=
  let base := basename fn in
  let stem := before_first "." base in
  let internal := replace_char "_" "-" stem in
  match search base with
  | Some m =>
      let g := m_groups m in
      mkFile fn base stem internal msize
             (Z.of_nat (m_start m)) (Z.of_nat (m_end m))
             (g_year g ++ "-"%char :: g_month g ++ "-"%char :: g_day g)
  | None => mkFile fn base stem internal msize (-1) (-1) []
  end.

(** [File.__eq__]: identity by source path. *)
Definition File_eqb (a b : File) : bool :=
  str_eqb (original_filename a) (original_filename b).


(** ** Calendar dates

    [datetime] counts days in the proleptic Gregorian calendar: day 1 is
    0001-01-01.  Subtracting a [timedelta] of whole days moves the ordinal
    and keeps the time of day, so a reference instant is represented by
    the ordinal of its date.  [_ymd2ord] and [_ord2ymd] are the two
    conversions of the [datetime] module. *)

Definition _DI400Y : Z := 146097.
Definition _DI100Y : Z := 36524.
Definition _DI4Y : Z := 1461.

Definition _DAYS_IN_MONTH (m : Z) : Z :=
  match m with
  | 1 => 31 | 2 => 28 | 3 => 31 | 4 => 30 | 5 => 31 | 6 => 30
  | 7 => 31 | 8 => 31 | 9 => 30 | 10 => 31 | 11 => 30 | 12 => 31
  | _ => -1
  end.

Definition _DAYS_BEFORE_MONTH (m : Z) : Z :=
  match m with
  | 1 => 0 | 2 => 31 | 3 => 59 | 4 => 90 | 5 => 120 | 6 => 151
  | 7 => 181 | 8 => 212 | 9 => 243 | 10 => 273 | 11 => 304 | 12 => 334
  | _ => -1
  end.

Definition _is_leap (year : Z) : bool :=
  (year mod 4 =? 0) && (negb (year mod 100 =? 0) || (year mod 400 =? 0)).

Definition _days_before_year (year : Z) : Z :=
  let y := year - 1 in y * 365 + y / 4 - y / 100 + y / 400.

Definition _ymd2ord (year month day : Z) : Z :=
  _days_before_year year
  + (_DAYS_BEFORE_MONTH month + (if (2 <? month) && _is_leap year then 1 else 0))
  + day.

Definition _ord2ymd (n : Z) : Z * Z * Z :=
  let n := n - 1 in
  let n400 := n / _DI400Y in
  let n := n mod _DI400Y in
  let year := n400 * 400 + 1 in
  let n100 := n / _DI100Y in
  let n := n mod _DI100Y in
  let n4 := n / _DI4Y in
  let n := n mod _DI4Y in
  let n1 := n / 365 in
  let n := n mod 365 in
  let year := year + n100 * 100 + n4 * 4 + n1 in
  if (n1 =? 4) || (n100 =? 4) then (year - 1, 12, 31)
  else
    let leapyear := (n1 =? 3) && (negb (n4 =? 24) || (n100 =? 3)) in
    let month := Z.shiftr (n + 50) 5 in
    let preceding :=
      _DAYS_BEFORE_MONTH month + (if (2 <? month) && leapyear then 1 else 0) in
    if n <? preceding then
      let month := month - 1 in
      let preceding :=
        preceding - (_DAYS_IN_MONTH month + (if (month =? 2) && leapyear then 1 else 0)) in
      (year, month, n - preceding + 1)
    else (year, month, n - preceding + 1).

(** [f'{d.year}-{d.month:02}-{d.day:02}'] for the date of ordinal [n]. *)
Definition stamp_of_ordinal (n : Z) : str :=
  let '(y, m, d) := _ord2ymd n in
  str_of_int y ++ "-"%char :: pad02 m ++ "-"%char :: pad02 d.

(** ** Results and the store of entries *)

Inductive exn := AssertionError | IndexError | OverflowError | ValueError.

(** [OutOfFuel] is the verdict of a loop model whose step budget ran out;
    no Python run ends that way. *)
Inductive result (A : Type) : Type :=
| Ok (a : A)
| Raise (e : exn)
| OutOfFuel.

Arguments Ok {A} a.
Arguments Raise {A} e.
Arguments OutOfFuel {A}.

Definition ref := nat.
Definition heap := ref -> File.

Definition upd (r : ref) (f : File) (h : heap) : heap :=
  fun r' => if Nat.eqb r' r then f else h r'.

(** Computations that read and write the store and may raise. *)
Definition M (A : Type) : Type := heap -> result (A * heap).

Definition mret {A} (a : A) : M A := fun h => Ok (a, h).

Definition mbind {A B} (c : M A) (k : A -> M B) : M B :=
  fun h => match c h with
           | Ok (a, h') => k a h'
           | Raise e => Raise e
           | OutOfFuel => OutOfFuel
           end.

Definition raise {A} (e : exn) : M A := fun _ => Raise e.

Definition lift {A} (r : result A) : M A :=
  fun h => match r with
           | Ok a => Ok (a, h)
           | Raise e => Raise e
           | OutOfFuel => OutOfFuel
           end.

Declare Scope m_scope.
Delimit Scope m_scope with M.
Notation "x <- c ;; k" := (mbind c (fun x => k))
  (at level 61, c at next level, right associativity) : m_scope.

Definition set_ds_start (v : Z) (f : File) : File :=
  mkFile (original_filename f) (base_filename f) (filename f) (internal_filename f)
         (min_size f) v (ds_end f) (date_stamp f).

Definition set_ds_end (v : Z) (f : File) : File :=
  mkFile (original_filename f) (base_filename f) (filename f) (internal_filename f)
         (min_size f) (ds_start f) v (date_stamp f).

(** ** Series buckets *)

(** [File.get_bucket].  The two assignments [self.ds_start -= 1] and
    [self.ds_end += 1] write to the entry in the store. *)
Definition get_bucket (self : ref) : M str := fun h =>
  let f := h self in
  let name := internal_filename f in
  if (ds_start f =? ds_end f) && (ds_end f =? -1) then Ok (name, h)
  else if len name - ds_end f <? ds_start f then
    if 1 <? ds_start f then
      match py_index name (ds_start f - 1) with
      | None => Raise IndexError
      | Some c =>
          if ch_eqb c "-" then
            let f' := set_ds_start (ds_start f - 1) f in
            Ok (py_slice_to name (ds_start f'), upd self f' h)
          else Ok (py_slice_to name (ds_start f), h)
      end
    else Ok (py_slice_to name (ds_start f), h)
  else
    let finish (f' : File) (h' : heap) :=
      match py_slice_from name (ds_end f') with
      | [] => Ok (s "default", h')
      | rest => Ok (rest, h')
      end in
    if ds_end f <? len name then
      match py_index name (ds_end f) with
      | None => Raise IndexError
      | Some c =>
          if ch_eqb c "-" then
            let f' := set_ds_end (ds_end f + 1) f in
            finish f' (upd self f' h)
          else finish f h
      end
    else finish f h.

(** A [dict] from series key to the entries of the series, in insertion
    order. *)
Definition series := list (str * list ref).

Fixpoint dict_mem (k : str) (d : series) : bool :=
  match d with
  | [] => false
  | (k', _) :: d' => str_eqb k k' || dict_mem k d'
  end.

(** [d[k].append(f)] for a key that is present. *)
Fixpoint dict_append (k : str) (f : ref) (d : series) : series :=
  match d with
  | [] => []
  | (k', l) :: d' =>
      if str_eqb k k' then (k', l ++ [f]) :: d' else (k', l) :: dict_append k f d'
  end.

(** [d[k] = v]: an existing key keeps its place and loses its old value. *)
Fixpoint dict_set (k : str) (v : list ref) (d : series) : series :=
  match d with
  | [] => [(k, v)]
  | (k', l) :: d' =>
      if str_eqb k k' then (k', v) :: d' else (k', l) :: dict_set k v d'
  end.

(** [split_into_buckets].  The key is computed once in the [try] and a
    second time in the [except KeyError] handler. *)
Fixpoint split_loop (file_list : list ref) (buckets : series) : M series :=
  match file_list with
  | [] => mret buckets
  | f :: rest =>
      (k <- get_bucket f ;;
       if dict_mem k buckets then split_loop rest (dict_append k f buckets)
       else (k' <- get_bucket f ;;
             split_loop rest (dict_set k' [f] buckets)))%M
  end.

Definition split_into_buckets (file_list : list ref) : M series :=
  split_loop file_list [].

(** ** Retention windows *)

Record RetentionPolicy := mkPolicy {
  daily : Z; weekly : Z; monthly : Z; yearly : Z }.

Inductive generation := Daily | Weekly | Monthly | Yearly | Obsolete.

Definition generation_eqb (a b : generation) : bool :=
  match a, b with
  | Daily, Daily | Weekly, Weekly | Monthly, Monthly
  | Yearly, Yearly | Obsolete, Obsolete => true
  | _, _ => false
  end.

(** A [defaultdict(list)] from sub-period index to entries, in insertion
    order. *)
Definition slots := list (Z * list ref).

(** [d[k].append(f)] on a [defaultdict(list)]. *)
Fixpoint slot_append (k : Z) (f : ref) (d : slots) : slots :=
  match d with
  | [] => [(k, [f])]
  | (k', l) :: d' =>
      if k =? k' then (k', l ++ [f]) :: d' else (k', l) :: slot_append k f d'
  end.

(** The five generations of one series. *)
Record TimeBuckets := mkBuckets {
  b_daily : slots; b_weekly : slots; b_monthly : slots;
  b_yearly : slots; b_obsolete : slots }.

Definition empty_buckets : TimeBuckets := mkBuckets [] [] [] [] [].

Definition gen_slots (g : generation) (b : TimeBuckets) : slots :=
  match g with
  | Daily => b_daily b
  | Weekly => b_weekly b
  | Monthly => b_monthly b
  | Yearly => b_yearly b
  | Obsolete => b_obsolete b
  end.

(** [buckets[g][k].append(f)] *)
Definition bucket_append (g : generation) (k : Z) (f : ref) (b : TimeBuckets)
  : TimeBuckets :=
  match g with
  | Daily => mkBuckets (slot_append k f (b_daily b)) (b_weekly b) (b_monthly b) (b_yearly b) (b_obsolete b)
  | Weekly => mkBuckets (b_daily b) (slot_append k f (b_weekly b)) (b_monthly b) (b_yearly b) (b_obsolete b)
  | Monthly => mkBuckets (b_daily b) (b_weekly b) (slot_append k f (b_monthly b)) (b_yearly b) (b_obsolete b)
  | Yearly => mkBuckets (b_daily b) (b_weekly b) (b_monthly b) (slot_append k f (b_yearly b)) (b_obsolete b)
  | Obsolete => mkBuckets (b_daily b) (b_weekly b) (b_monthly b) (b_yearly b) (slot_append k f (b_obsolete b))
  end.

(** [buckets.items()], in the order the literal lists the keys. *)
Definition bucket_items (b : TimeBuckets) : list (generation * slots) :=
  [(Daily, b_daily b); (Weekly, b_weekly b); (Monthly, b_monthly b);
   (Yearly, b_yearly b); (Obsolete, b_obsolete b)].

Definition max_days : Z := 365 * 40.

(** The body of [if date_stamp in f.internal_filename:].  The last branch
    does not append to [processed_files]. *)
Definition sort_file (rp : RetentionPolicy) (days_ago : Z) (f : ref)
  (st : TimeBuckets * list ref) : TimeBuckets * list ref :=
  let '(buckets, processed_files) := st in
  if days_ago <=? daily rp then
    (bucket_append Daily days_ago f buckets, processed_files ++ [f])
  else if days_ago <=? weekly rp * 7 + 1 then
    (bucket_append Weekly (days_ago / 7) f buckets, processed_files ++ [f])
  else if days_ago <=? monthly rp * 30 + 3 then
    (bucket_append Monthly (days_ago / 28) f buckets, processed_files ++ [f])
  else if days_ago <=? yearly rp * 365 + 2 then
    (bucket_append Yearly (days_ago / 365) f buckets, processed_files ++ [f])
  else
    (bucket_append Obsolete 0 f buckets, processed_files).

(** [for f in files: if date_stamp in f.internal_filename: ...] *)
Definition scan_day (h : heap) (rp : RetentionPolicy) (stamp : str) (days_ago : Z)
  (files : list ref) (buckets : TimeBuckets) : TimeBuckets * list ref :=
  fold_left
    (fun st f =>
       if contains stamp (internal_filename (h f)) then sort_file rp days_ago f st
       else st)
    files (buckets, []).

(** [files.remove(f)]: drops the first element equal to [f]; [None]
    stands for [ValueError]. *)
Fixpoint list_remove (h : heap) (f : ref) (files : list ref) : option (list ref) :=
  match files with
  | [] => None
  | x :: rest =>
      if File_eqb (h x) (h f) then Some rest
      else option_map (cons x) (list_remove h f rest)
  end.

(** [for f in processed_files: files.remove(f)] *)
Fixpoint remove_each (h : heap) (processed_files files : list ref)
  : option (list ref) :=
  match processed_files with
  | [] => Some files
  | f :: rest =>
      match list_remove h f files with
      | None => None
      | Some files' => remove_each h rest files'
      end
  end.

(** What a call leaves behind: the buckets it returns, the content of the
    list it was given, and whether the scan-ceiling warning was logged. *)
Record sorted := mkSorted {
  buckets_of : TimeBuckets; files_left : list ref; ceiling_hit : bool }.

(** The [while files:] loop, [days_ago] being its value at the top of the
    iteration. *)
Fixpoint time_loop (h : heap) (rp : RetentionPolicy) (now : Z) (fuel : nat)
  (days_ago : Z) (files : list ref) (buckets : TimeBuckets) : result sorted :=
  match fuel with
  | O => OutOfFuel
  | S fuel' =>
      match files with
      | [] => Ok (mkSorted buckets [] false)
      | _ :: _ =>
          if now - days_ago <? 1 then Raise OverflowError
          else
            let stamp := stamp_of_ordinal (now - days_ago) in
            let days_ago := days_ago + 1 in
            if max_days <=? days_ago then Ok (mkSorted buckets files true)
            else
              let '(buckets', processed_files) :=
                scan_day h rp stamp days_ago files buckets in
              match remove_each h processed_files files with
              | None => Raise ValueError
              | Some files' => time_loop h rp now fuel' days_ago files' buckets'
              end
      end
  end.

(** [create_time_buckets]; [now] is the ordinal of the reference date. *)
Definition create_time_buckets (files : list ref) (rp : RetentionPolicy) (now : Z)
  (h : heap) : result sorted :=
  time_loop h rp now (Z.to_nat max_days) 0 files empty_buckets.

(** ** Survivor selection *)

(** [for filenames in time_buckets.values(): files_to_delete += filenames[1:]];
    the log line reads [filenames[0]]. *)
Fixpoint select_slots (d : slots) (files_to_delete : list ref) : result (list ref) :=
  match d with
  | [] => Ok files_to_delete
  | (_, filenames) :: d' =>
      match filenames with
      | [] => Raise IndexError
      | _ :: others => select_slots d' (files_to_delete ++ others)
      end
  end.

Fixpoint select_generations (items : list (generation * slots))
  (files_to_delete : list ref) : result (list ref) :=
  match items with
  | [] => Ok files_to_delete
  | (_, time_buckets) :: items' =>
      match select_slots time_buckets files_to_delete with
      | Ok acc => select_generations items' acc
      | Raise e => Raise e
      | OutOfFuel => OutOfFuel
      end
  end.

(** [for bucket_name, files in buckets.items(): ...] *)
Fixpoint prune_series (h : heap) (rp : RetentionPolicy) (now : Z)
  (buckets : series) (files_to_delete : list ref) : result (list ref) :=
  match buckets with
  | [] => Ok files_to_delete
  | (_, files) :: buckets' =>
      match create_time_buckets files rp now h with
      | Ok r =>
          match select_generations (bucket_items (buckets_of r)) files_to_delete with
          | Ok acc => prune_series h rp now buckets' acc
          | Raise e => Raise e
          | OutOfFuel => OutOfFuel
          end
      | Raise e => Raise e
      | OutOfFuel => OutOfFuel
      end
  end.

(** [list_files_to_prune]; [now] is the reference date that
    [create_time_buckets] takes as its default. *)
Definition list_files_to_prune (file_list : list ref) (rp : RetentionPolicy)
  (now : Z) : M (list ref) :=
  match file_list with
  | [] => raise AssertionError
  | _ :: _ =>
      (buckets <- split_into_buckets file_list ;;
       fun h => lift (prune_series h rp now buckets []) h)%M
  end.

(** ** Building entries from file names *)

Definition blank : File := File_init [] 0.

(** A store holding the entries built from [names], entry [i] at
    reference [i]. *)
Definition heap_of (names : list string) : heap :=
  let files := map (fun n => File_init (s n) 0) names in
  fun r => nth r files blank.

Definition refs_of (names : list string) : list ref := seq 0 (List.length names).

(** The value a computation returns, without the store. *)
Definition value {A} (r : result (A * heap)) : result A :=
  match r with
  | Ok (a, _) => Ok a
  | Raise e => Raise e
  | OutOfFuel => OutOfFuel
  end.

Definition TD_TIMESTAMP : Z := _ymd2ord 2023 1 4.
Definition TD_RETENTION : RetentionPolicy := mkPolicy 7 12 6 1.

(** ** Entry lists from file names *)

(** What [create_file_list_from_filenames] reads of the file system:
    [os.path.isdir], and [os.listdir], where [None] stands for a listing
    that raises [OSError]. *)
Record FileSystem := mkFS {
  isdir : str -> bool;
  listdir : str -> option (list str) }.

(** [t.endswith(suffix)]: the suffix read backwards starts [t] read
    backwards. *)
Definition ends_with (suffix t : str) : bool := starts_with (rev suffix) (rev t).

(** [posixpath.join(a, b)]. *)
Definition path_join (a b : str) : str :=
  if starts_with ["/"%char] b then b
  else if (match a with [] => true | _ :: _ => false end) || ends_with ["/"%char] a
       then a ++ b
       else a ++ "/"%char :: b.

(** [a <= b] on strings: by the code of the first character that differs,
    a proper prefix before its extensions. *)
Fixpoint str_leb (a b : str) : bool :=
  match a, b with
  | [], _ => true
  | _ :: _, [] => false
  | x :: a', y :: b' =>
      (nat_of_ascii x <? nat_of_ascii y)%nat
      || ((nat_of_ascii x =? nat_of_ascii y)%nat && str_leb a' b')
  end.

(** The built-in [sorted] on strings, as an insertion sort: the order is
    total and strings that compare equal are equal, so the sorted list
    does not depend on the algorithm. *)
Fixpoint insert_sorted (x : str) (l : list str) : list str :=
  match l with
  | [] => [x]
  | y :: l' => if str_leb x y then x :: l else y :: insert_sorted x l'
  end.

Definition py_sorted (l : list str) : list str := fold_right insert_sorted [] l.

(** [create_file_list_from_filenames(filenames, extension)] with the
    default [min_size=0], for which the constructor does not read the file
    size.  One name that is a directory is replaced by the joined paths of
    its listing, no name at all by the listing of the current directory. *)
Definition create_file_list_from_filenames (fs : FileSystem) (filenames : list str)
  (extension : str) : option (list File) :=
  let filenames_list :=
    match filenames with
    | [] => option_map py_sorted (listdir fs (s "."))
    | [d] =>
        if isdir fs d
        then option_map (fun l => py_sorted (map (path_join d) l)) (listdir fs d)
        else Some (py_sorted filenames)
    | _ :: _ :: _ => Some (py_sorted filenames)
    end in
  option_map
    (fun l => map (fun fn => File_init fn 0) (filter (ends_with extension) l))
    filenames_list.

(** The order of [str_leb] as a relation. *)
Definition str_le (a b : str) : Prop := str_leb a b = true.

(** * Vocabulary of the properties *)

(** ** Entries built by the constructor

    [built f] says that the three names derived from the path are the ones
    [File.__init__] computes.  Every entry satisfies it when it is created
    and keeps it, since nothing assigns to these attributes. *)

Definition built (f : File) : bool :=
  str_eqb (base_filename f) (basename (original_filename f))
  && str_eqb (filename f) (before_first "." (base_filename f))
  && str_eqb (internal_filename f) (replace_char "_" "-" (filename f)).

(** Entry [r] is in sub-period [i] of generation [g]. *)
Definition In_slot (r : ref) (g : generation) (i : Z) (b : TimeBuckets) : Prop :=
  exists l, In (i, l) (gen_slots g b) /\ In r l.

(** The generation and sub-period the thresholds give to a day count. *)
Definition classify (rp : RetentionPolicy) (d : Z) : generation * Z :=
  if d <=? daily rp then (Daily, d)
  else if d <=? weekly rp * 7 + 1 then (Weekly, d / 7)
  else if d <=? monthly rp * 30 + 3 then (Monthly, d / 28)
  else if d <=? yearly rp * 365 + 2 then (Yearly, d / 365)
  else (Obsolete, 0).

Definition keeps_in_list (g : generation) : bool := generation_eqb g Obsolete.

Definition gen_of (rp : RetentionPolicy) (d : Z) : generation := fst (classify rp d).
Definition slot_of (rp : RetentionPolicy) (d : Z) : Z := snd (classify rp d).

(** The entry's normalized stem contains the date [j] days before [now]. *)
Definition hit (h : heap) (now : Z) (j : Z) (r : ref) : bool :=
  contains (stamp_of_ordinal (now - j)) (internal_filename (h r)).

(** Entries with equal paths have equal stems. *)
Definition stems_by_path (h : heap) (files : list ref) : Prop :=
  forall x y, In x files -> In y files ->
    File_eqb (h x) (h y) = true ->
    internal_filename (h x) = internal_filename (h y).

(** Entry [r] is still in the working list after the days [k .. j-1]:
    whenever one of them matched it, that day was past every threshold. *)
Definition survives (h : heap) (rp : RetentionPolicy) (now : Z) (k j : Z) (r : ref)
  : Prop :=
  forall t, k <= t < j -> hit h now t r = true -> gen_of rp (t + 1) = Obsolete.

(** Day [j] is the first scanned day that matches entry [r]. *)
Definition first_hit (h : heap) (now : Z) (j : Z) (r : ref) : Prop :=
  0 <= j < max_days - 1 /\ hit h now j r = true
  /\ forall t, 0 <= t < j -> hit h now t r = false.

(** Two states of an entry that differ at most in the date-span offsets. *)
Definition same_names (f f' : File) : Prop :=
  original_filename f' = original_filename f
  /\ base_filename f' = base_filename f
  /\ filename f' = filename f
  /\ internal_filename f' = internal_filename f
  /\ min_size f' = min_size f
  /\ date_stamp f' = date_stamp f.

(** ** Dates in file names, in the words of the specification *)

Definition digit_value (c : ascii) : Z := Z.of_nat (nat_of_ascii c) - 48.

Definition is_digit (c : ascii) : bool := (0 <=? digit_value c) && (digit_value c <=? 9).

(** The number a string of decimal digits writes. *)
Definition number (t : str) : Z :=
  fold_left (fun acc c => 10 * acc + digit_value c) t 0.

Definition digits (n : nat) (t : str) : bool :=
  (List.length t =? n)%nat && forallb is_digit t.

(** A year in [1900, 2099], a month 01-12, a day 01-31. *)
Definition is_year (y : str) : bool :=
  digits 4 y && (1900 <=? number y) && (number y <=? 2099).

Definition is_month (m : str) : bool :=
  digits 2 m && (1 <=? number m) && (number m <=? 12).

Definition is_day (d : str) : bool :=
  digits 2 d && (1 <=? number d) && (number d <=? 31).

(** A dash, an underscore, or nothing. *)
Definition is_separator (sp : str) : bool :=
  match sp with
  | [] => true
  | [c] => ch_eqb c "-" || ch_eqb c "_"
  | _ => false
  end.

(** 6 to 10 characters drawn from digits, dashes, underscores and colons. *)
Definition time_like (c : ascii) : bool :=
  is_digit c || ch_eqb c "-" || ch_eqb c "_" || ch_eqb c ":".

Definition is_time_tail (tm : str) : bool :=
  (6 <=? List.length tm)%nat && (List.length tm <=? 10)%nat && forallb time_like tm.

(** At offset [i], [t] has the year [y], month [m] and day [d], with or
    without separators, immediately followed by a time-like tail. *)
Definition dated_at (t : str) (i : nat) (y m d : str) : Prop :=
  exists pre s1 s2 tm rest,
    t = pre ++ y ++ s1 ++ m ++ s2 ++ d ++ tm ++ rest
    /\ List.length pre = i
    /\ is_year y = true /\ is_separator s1 = true /\ is_month m = true
    /\ is_separator s2 = true /\ is_day d = true /\ is_time_tail tm = true.

(** [i] is the first offset at which [t] has a date. *)
Definition first_dated_at (t : str) (i : nat) (y m d : str) : Prop :=
  dated_at t i y m d
  /\ forall j y' m' d', (j < i)%nat -> ~ dated_at t j y' m' d'.

(** ** Statements of the specification *)

Definition zero_policy : RetentionPolicy := mkPolicy 0 0 0 0.

(** No scanned day matches the entry. *)
Definition never_hit (h : heap) (now : Z) (r : ref) : Prop :=
  forall j, 0 <= j < max_days - 1 -> hit h now j r = false.

(** [r_date_stamp] matches at no offset below [i]. *)
Definition no_match_before (t : str) (i : nat) : bool :=
  forallb (fun j => match r_date_stamp (skipn j t) with [] => true | _ => false end)
          (seq 0 i).

(** At offset [i], [t] has the year [y], month [m] and day [d] written
    with nothing between them, immediately followed by a time-like tail. *)
Definition compact_at (t : str) (i : nat) (y m d : str) : Prop :=
  exists pre tm rest,
    t = pre ++ y ++ m ++ d ++ tm ++ rest
    /\ List.length pre = i
    /\ is_year y = true /\ is_month m = true /\ is_day d = true
    /\ is_time_tail tm = true.

(** The base name of the path embeds a date with no separators. *)
Definition compact_date (fn : str) : Prop :=
  exists i y m d, compact_at (basename fn) i y m d.

(** The base name up to its first dot, with dashes for underscores. *)
Definition normalized_stem (fn : str) : str :=
  replace_char "_" "-" (before_first "." (basename fn)).

(** [t] starts with a dash, a month 01-12, a dash and a day 01-31. *)
Definition dashed_month_day_here (t : str) : bool :=
  match t with
  | c1 :: m1 :: m2 :: c2 :: d1 :: d2 :: _ =>
      ch_eqb c1 "-" && is_month [m1; m2] && ch_eqb c2 "-" && is_day [d1; d2]
  | _ => false
  end.

(** Somewhere in [t] a month and a day are written after dashes, as in
    the last six characters of a scanned ['YYYY-MM-DD']. *)
Fixpoint has_dashed_month_day (t : str) : bool :=
  dashed_month_day_here t
  || match t with
     | [] => false
     | _ :: t' => has_dashed_month_day t'
     end.

(** With the all-zero policy every dated entry is filed under
    [obsolete[0]] and nowhere else. *)
Definition zero_policy_all_obsolete : Prop :=
  forall (files : list ref) (now : Z) (h : heap) (r : ref) (j : Z),
    max_days <= now -> forallb (fun x => built (h x)) files = true ->
    In r files -> first_hit h now j r ->
    exists res,
      create_time_buckets files zero_policy now h = Ok res
      /\ forall g i, In_slot r g i (buckets_of res) <-> (g, i) = (Obsolete, 0).

(** The date stamp of an entry is the first date of the file name it was
    given. *)
Definition date_stamp_of_any_path : Prop :=
  forall (fn : str) (msize : Z) (i : nat) (y m d : str),
    first_dated_at fn i y m d ->
    date_stamp (File_init fn msize) = y ++ "-"%char :: m ++ "-"%char :: d.

(** An entry whose date is written without separators has a date stamp,
    is matched by no scanned day, stays in the list until the ceiling, is
    filed nowhere and is not pruned. *)
Definition compact_date_never_sorted : Prop :=
  forall (fn : str) (rp : RetentionPolicy) (now : Z),
    compact_date fn -> max_days <= now ->
    let h : heap := fun _ => File_init fn 0 in
    date_stamp (h 0%nat) <> []
    /\ never_hit h now 0%nat
    /\ (exists res,
          create_time_buckets [0%nat] rp now h = Ok res
          /\ ceiling_hit res = true
          /\ In 0%nat (files_left res)
          /\ forall g i, ~ In_slot 0%nat g i (buckets_of res))
    /\ forall del h',
          list_files_to_prune [0%nat] rp now h = Ok (del, h') -> ~ In 0%nat del.

(** ** Inputs of the runs below *)

(** Two backups of one series, a day apart, in directory order. *)
Definition weekly_pair : list string :=
  ["a-2022-12-20-00-00-00.gz.gpg"; "a-2022-12-21-00-00-00.gz.gpg"]%string.

(** A name with a dot before the date. *)
Definition dotted_name : list string := ["backup.2022-12-16-17-28-25.gz.gpg"]%string.

(** Backups dated on the reference day and three days before it. *)
Definition todays_backup : list string := ["a-2023-01-04-00-00-00.gz.gpg"]%string.
Definition three_days_old : list string := ["a-2023-01-01-00-00-00.gz.gpg"]%string.

(** Names that carry a date but no time. *)
Definition date_only_pair : list string :=
  ["db-backup-2023-01-01.tgz"; "db-backup-2023-01-02.tgz"]%string.

(** A backup older than every retention window of [TD_RETENTION]. *)
Definition old_backup : list string := ["db-backup_2010-01-04-17-28-25.gz.gpg"]%string.

(** Two backups of one day whose label before the date is one character
    longer than the label after it. *)
Definition web_sql_pair : list string :=
  ["web_2022-12-16-17-28-25_sql.gz"; "web_2022-12-16-17-28-26_sql.gz"]%string.

(** A dated directory holding an undated file, and a dated file in an
    undated directory. *)
Definition dated_directory : string := "2022-12-16-17-28-25/x.gz.gpg".
Definition dated_file : string := "/backups/db-backup_2022-12-16-17-28-25.gz.gpg".

(** A compact date with a dashed time of day, 2022-12-20 at 22:12:25, and
    a compact date with a compact time. *)
Definition compact_dashed_time : string := "2022122022-12-25_db_backup.gz.gpg".
Definition compact_only : string := "20221216172825_db_backup.gz.gpg".

(** A name of the tests: label, underscore, dashed date and time. *)
Definition dashed_name : list string := ["db-backup_2022-12-16-17-28-25.gz.gpg"]%string.

(** ** Vocabulary of the further properties *)

(** [d.get(k)] *)
Fixpoint dict_get (k : str) (d : series) : option (list ref) :=
  match d with
  | [] => None
  | (k', l) :: d' => if str_eqb k k' then Some l else dict_get k d'
  end.

(** [l] lists some of the elements of [l'], in their order. *)
Inductive Subseq : list ref -> list ref -> Prop :=
| Subseq_nil : Subseq [] []
| Subseq_skip (x : ref) (l l' : list ref) : Subseq l l' -> Subseq l (x :: l')
| Subseq_take (x : ref) (l l' : list ref) : Subseq l l' -> Subseq (x :: l) (x :: l').

(** A list as the value of a key: an empty one is no key. *)
Definition as_bucket (l : list ref) : option (list ref) :=
  match l with
  | [] => None
  | _ :: _ => Some l
  end.

(** The generations from the finest to the coarsest. *)
Definition gen_rank (g : generation) : Z :=
  match g with
  | Daily => 0 | Weekly => 1 | Monthly => 2 | Yearly => 3 | Obsolete => 4
  end.

(** The bounds of the sub-period indexes of a generation. *)
Definition index_in_window (rp : RetentionPolicy) (g : generation) (i : Z) : Prop :=
  match g with
  | Daily => 1 <= i <= daily rp
  | Weekly => 0 <= i <= weekly rp
  | Monthly => 0 <= i <= (monthly rp * 30 + 3) / 28
  | Yearly => 0 <= i <= yearly rp
  | Obsolete => i = 0
  end.

(** Two backups of one series with compact dates. *)
Definition compact_pair : list string :=
  ["20221216172825_db_backup.gz.gpg"; "20221217172825_db_backup.gz.gpg"]%string.

(** The date span of an entry is either absent, [(-1, -1)], or a proper
    interval, and the date starts at offset 0 or 1 or inside the
    normalized stem. *)
Definition span_in_stem (f : File) : bool :=
  ((ds_start f =? -1) && (ds_end f =? -1)
   || (0 <=? ds_start f) && (ds_start f <? ds_end f))
  && ((ds_start f <=? 1) || (ds_start f <=? len (internal_filename f))).

(** A file system with one directory, [backups], that holds two backups
    and a text file. *)
Definition backups_fs : FileSystem :=
  mkFS (fun d => str_eqb d (s "backups"))
       (fun d => if str_eqb d (s "backups")
                 then Some (map s (rev weekly_pair ++ ["notes.txt"%string]))
                 else None).

(** All the entries of the slots of a generation, slot after slot. *)
Definition entries_of (d : slots) : list ref := List.concat (map snd d).

(** The entries filed under daily, weekly, monthly and yearly. *)
Definition filed (b : TimeBuckets) : list ref :=
  entries_of (b_daily b) ++ entries_of (b_weekly b)
  ++ entries_of (b_monthly b) ++ entries_of (b_yearly b).

(** Every slot without its first entry, in the order of the selection. *)
Definition pruned_of (b : TimeBuckets) : list ref :=
  flat_map (fun gs => flat_map (fun kv => tl (snd kv)) (snd gs)) (bucket_items b).

(** No slot of any generation is empty. *)
Definition full_slots (b : TimeBuckets) : Prop :=
  forall g i l, In (i, l) (gen_slots g b) -> l <> [].

(** * Properties *)

(** ** Runs of the model on the file names of the tests *)

Example regex_dashes :
  date_stamp (File_init (s "db-backup_2022-12-16-17-28-25.gz.gpg") 0) = s "2022-12-16".
Proof. reflexivity. Qed.

Example regex_compact :
  date_stamp (File_init (s "20221216172825_db_backup.gz.gpg") 0) = s "2022-12-16".
Proof. reflexivity. Qed.

Example regex_span :
  let f := File_init (s "db-backup_2022-12-16-17-28-25.gz.gpg") 0 in
  (ds_start f, ds_end f, internal_filename f) = (10, 29, s "db-backup-2022-12-16-17-28-25").
Proof. reflexivity. Qed.

Example ord_2023_01_04 : _ymd2ord 2023 1 4 = 738524.
Proof. reflexivity. Qed.

Example stamp_2023_01_04 : stamp_of_ordinal 738524 = s "2023-01-04".
Proof. reflexivity. Qed.

Example stamp_leap_day : stamp_of_ordinal (_ymd2ord 2024 3 1 - 1) = s "2024-02-29".
Proof. reflexivity. Qed.

Example stamp_year_end : stamp_of_ordinal (_ymd2ord 2023 1 1 - 1) = s "2022-12-31".
Proof. reflexivity. Qed.
(** ** Strings *)

Lemma ch_eqb_eq (a b : ascii) : ch_eqb a b = true <-> a = b.
Proof. apply Ascii.eqb_eq. Qed.

Lemma str_eqb_eq (a b : str) : str_eqb a b = true <-> a = b.
Proof.
  revert b; induction a as [|x a IH]; intros [|y b]; simpl; split; intro H;
    try reflexivity; try discriminate.
  - apply andb_true_iff in H as [Hx Hab].
    apply ch_eqb_eq in Hx. apply IH in Hab. congruence.
  - injection H as -> ->. apply andb_true_iff; split.
    + now apply ch_eqb_eq.
    + now apply IH.
Qed.


Lemma built_init (fn : str) (msize : Z) : built (File_init fn msize) = true.
Proof.
  unfold built, File_init.
  destruct (search (basename fn)); simpl;
    rewrite !(proj2 (str_eqb_eq _ _) eq_refl); reflexivity.
Qed.

Lemma built_stem (f f' : File) :
  built f = true -> built f' = true ->
  File_eqb f f' = true -> internal_filename f = internal_filename f'.
Proof.
  unfold built, File_eqb. intros H H' E.
  apply andb_true_iff in H as [H H3]. apply andb_true_iff in H as [H1 H2].
  apply andb_true_iff in H' as [H' H3']. apply andb_true_iff in H' as [H1' H2'].
  apply str_eqb_eq in H1, H2, H3, H1', H2', H3', E. congruence.
Qed.

(** ** Slots and generations *)


Lemma generation_eqb_eq (a b : generation) : generation_eqb a b = true <-> a = b.
Proof. destruct a, b; simpl; split; congruence. Qed.

Lemma slot_append_in (k : Z) (f : ref) (d : slots) (r : ref) (i : Z) :
  (exists l, In (i, l) (slot_append k f d) /\ In r l) <->
  (exists l, In (i, l) d /\ In r l) \/ (i = k /\ r = f).
Proof.
  induction d as [|[k' l'] d IH]; simpl.
  - split.
    + intros (l & [E|[]] & Hr). injection E as <- <-.
      destruct Hr as [->|[]]. now right.
    + intros [(l & [] & _)|[-> ->]]. exists [f]. simpl. auto.
  - destruct (Z.eqb_spec k k') as [->|Hk]; simpl.
    + split.
      * intros (l & [E|Hin] & Hr).
        -- injection E as <- <-. apply in_app_or in Hr as [Hr|[->|[]]].
           ++ left. exists l'. auto.
           ++ now right.
        -- left. exists l. auto.
      * intros [(l & [E|Hin] & Hr)|[-> ->]].
        -- injection E as <- <-. exists (l' ++ [f]). split; [now left|].
           apply in_or_app. now left.
        -- exists l. auto.
        -- exists (l' ++ [f]). split; [now left|]. apply in_or_app. simpl. auto.
    + split.
      * intros (l & [E|Hin] & Hr).
        -- left. exists l. auto.
        -- destruct (proj1 IH) as [(l0 & H0 & Hr0)|H0]; [now exists l| |now right].
           left. exists l0. auto.
      * intros [(l & [E|Hin] & Hr)|Hkf].
        -- exists l. auto.
        -- destruct (proj2 IH) as (l0 & H0 & Hr0); [left; now exists l|].
           exists l0. auto.
        -- destruct (proj2 IH) as (l0 & H0 & Hr0); [now right|].
           exists l0. auto.
Qed.

Lemma bucket_append_in (g : generation) (k : Z) (f : ref) (b : TimeBuckets)
  (r : ref) (g' : generation) (i : Z) :
  In_slot r g' i (bucket_append g k f b) <->
  In_slot r g' i b \/ (g' = g /\ i = k /\ r = f).
Proof.
  unfold In_slot.
  destruct g, g'; simpl; rewrite ?slot_append_in;
    try (split; [intros [H|[-> ->]]; auto | intros [H|(_ & -> & ->)]; auto]);
    split; intros H; auto; destruct H as [H|(E & _)]; auto; discriminate.
Qed.

Lemma empty_buckets_in (r : ref) (g : generation) (i : Z) :
  ~ In_slot r g i empty_buckets.
Proof. intros (l & H & _). destruct g; exact H. Qed.


Lemma sort_file_classify (rp : RetentionPolicy) (d : Z) (f : ref)
  (b : TimeBuckets) (p : list ref) :
  sort_file rp d f (b, p) =
  (bucket_append (fst (classify rp d)) (snd (classify rp d)) f b,
   if keeps_in_list (fst (classify rp d)) then p else p ++ [f]).
Proof.
  unfold sort_file, classify, keeps_in_list.
  repeat match goal with |- context [?a <=? ?c] => destruct (a <=? c) end;
    reflexivity.
Qed.

Lemma classify_obsolete_slot (rp : RetentionPolicy) (d : Z) :
  fst (classify rp d) = Obsolete -> snd (classify rp d) = 0.
Proof.
  unfold classify.
  repeat match goal with |- context [?a <=? ?c] => destruct (a <=? c) end;
    simpl; congruence.
Qed.

(** Once a day count is past every threshold, so is every later one. *)
Lemma classify_obsolete_mono (rp : RetentionPolicy) (d d' : Z) :
  d <= d' -> fst (classify rp d) = Obsolete -> fst (classify rp d') = Obsolete.
Proof.
  unfold classify. intros Hd.
  repeat match goal with |- context [?a <=? ?c] => destruct (Z.leb_spec a c) end;
    simpl; try congruence; lia.
Qed.

(** ** One pass over the working list *)

Section Classifier.

Variable h : heap.
Variable rp : RetentionPolicy.
Variable now : Z.

Lemma scan_fold (stamp : str) (d : Z) (files : list ref) (b : TimeBuckets)
  (p : list ref) :
  let m := fun r => contains stamp (internal_filename (h r)) in
  let res :=
    fold_left
      (fun st f => if m f then sort_file rp d f st else st) files (b, p) in
  (forall r g i, In_slot r g i (fst res) <->
     In_slot r g i b \/ (In r files /\ m r = true /\ g = gen_of rp d /\ i = slot_of rp d))
  /\ snd res = p ++ (if keeps_in_list (gen_of rp d) then [] else filter m files).
Proof.
  intros m. revert b p. induction files as [|f files IH]; intros b p;
    cbn [fold_left fst snd In filter].
  - split.
    + intros r g i. split; [auto|]. intros [H|([] & _)]. exact H.
    + destruct (keeps_in_list (gen_of rp d)); now rewrite app_nil_r.
  - destruct (m f) eqn:Hf.
    + rewrite sort_file_classify. fold (gen_of rp d) (slot_of rp d).
      destruct (IH (bucket_append (gen_of rp d) (slot_of rp d) f b)
                   (if keeps_in_list (gen_of rp d) then p else p ++ [f])) as [IH1 IH2].
      split.
      * intros r g i. rewrite IH1, bucket_append_in. split.
        -- intros [[H|(-> & -> & ->)]|(Hin & Hm & -> & ->)]; auto 10.
        -- intros [H|([->|Hin] & Hm & -> & ->)]; auto 10.
      * rewrite IH2. destruct (keeps_in_list (gen_of rp d)); [reflexivity|].
        now rewrite <- app_assoc.
    + destruct (IH b p) as [IH1 IH2]. split.
      * intros r g i. rewrite IH1. split.
        -- intros [H|(Hin & Hm & -> & ->)]; auto 10.
        -- intros [H|([->|Hin] & Hm & -> & ->)]; auto 10. congruence.
      * exact IH2.
Qed.

Lemma scan_day_spec (stamp : str) (d : Z) (files : list ref) (b : TimeBuckets) :
  let m := fun r => contains stamp (internal_filename (h r)) in
  (forall r g i, In_slot r g i (fst (scan_day h rp stamp d files b)) <->
     In_slot r g i b \/ (In r files /\ m r = true /\ g = gen_of rp d /\ i = slot_of rp d))
  /\ snd (scan_day h rp stamp d files b) =
     if keeps_in_list (gen_of rp d) then [] else filter m files.
Proof. exact (scan_fold stamp d files b []). Qed.

(** Entries built by the constructor have equal stems when they have
    equal paths. *)
Lemma built_stems_by_path (files : list ref) :
  forallb (fun r => built (h r)) files = true -> stems_by_path h files.
Proof.
  intros H x y Hx Hy. rewrite forallb_forall in H.
  apply built_stem; auto.
Qed.

Lemma File_eqb_refl (f : File) : File_eqb f f = true.
Proof. unfold File_eqb. now apply str_eqb_eq. Qed.

Lemma list_remove_skip (m : ref -> bool) (pre rest : list ref) (x : ref) :
  (forall y, In y pre -> File_eqb (h y) (h x) = false) ->
  list_remove h x (pre ++ x :: rest) = Some (pre ++ rest).
Proof.
  induction pre as [|y pre IH]; intros Hpre; simpl.
  - now rewrite File_eqb_refl.
  - rewrite (Hpre y (or_introl eq_refl)).
    rewrite IH; [reflexivity|]. intros z Hz. apply Hpre. now right.
Qed.

(** Removing the matched entries one by one leaves the unmatched ones, in
    their order, when equal paths are matched alike. *)
Lemma remove_each_filter (m : ref -> bool) (pre files : list ref) :
  (forall x y, In x (pre ++ files) -> In y (pre ++ files) ->
     File_eqb (h x) (h y) = true -> m x = m y) ->
  (forall y, In y pre -> m y = false) ->
  remove_each h (filter m files) (pre ++ files) =
  Some (pre ++ filter (fun r => negb (m r)) files).
Proof.
  revert pre. induction files as [|x files IH]; intros pre Hm Hpre; simpl.
  - reflexivity.
  - destruct (m x) eqn:Hx; simpl.
    + rewrite (list_remove_skip m).
      * apply IH.
        -- intros a c Ha Hc. apply Hm; apply in_app_or in Ha, Hc;
             apply in_or_app; simpl; tauto.
        -- exact Hpre.
      * intros y Hy. destruct (File_eqb (h y) (h x)) eqn:E; [|reflexivity].
        assert (m y = m x) as Hyx.
        { apply Hm; [apply in_or_app; now left | apply in_or_app; simpl; auto | exact E]. }
        rewrite (Hpre y Hy), Hx in Hyx. discriminate.
    + replace (pre ++ x :: files) with ((pre ++ [x]) ++ files)
        by now rewrite <- app_assoc.
      rewrite IH.
      * now rewrite <- app_assoc.
      * rewrite <- app_assoc. exact Hm.
      * intros y Hy. apply in_app_or in Hy as [Hy|[<-|[]]]; auto.
Qed.

Lemma stems_by_path_filter (m : ref -> bool) (files : list ref) :
  stems_by_path h files -> stems_by_path h (filter m files).
Proof.
  intros H x y Hx Hy. apply filter_In in Hx as [Hx _], Hy as [Hy _]. now apply H.
Qed.

(** ** The day scan *)

(** The loop started at day [k] with enough fuel returns; it files an
    entry under the slot of a day that matched it while it was still in the
    list, and leaves in the list the entries that only days past every
    threshold matched. *)
Lemma time_loop_spec (fuel : nat) :
  forall (k : Z) (files : list ref) (b : TimeBuckets),
    0 <= k < max_days -> max_days <= k + Z.of_nat fuel -> max_days <= now ->
    stems_by_path h files ->
    exists res,
      time_loop h rp now fuel k files b = Ok res
      /\ (forall r g i, In_slot r g i (buckets_of res) <->
            In_slot r g i b \/
            (In r files /\ exists j, k <= j < max_days - 1 /\ hit h now j r = true
               /\ classify rp (j + 1) = (g, i) /\ survives h rp now k j r))
      /\ (forall r, In r (files_left res) <->
            In r files /\ survives h rp now k (max_days - 1) r)
      /\ (ceiling_hit res = true <-> files_left res <> []).
Proof.
  induction fuel as [|fuel IH]; intros k files b Hk Hfuel Hnow Hwf.
  - simpl in Hfuel. lia.
  - cbn [time_loop]. destruct files as [|f0 files'].
    + eexists. split; [reflexivity|]. cbn [buckets_of files_left ceiling_hit].
      split; [|split].
      * intros r g i. split; [auto|]. intros [H|([] & _)]. exact H.
      * intros r. split; [intros []|intros [[] _]].
      * split; [discriminate|congruence].
    + set (files := f0 :: files') in *.
      destruct (Z.ltb_spec (now - k) 1) as [Hov|_]; [lia|].
      destruct (Z.leb_spec max_days (k + 1)) as [Hc|Hc].
      * eexists. split; [reflexivity|]. cbn [buckets_of files_left ceiling_hit].
        split; [|split].
        -- intros r g i. split; [auto|].
           intros [H|(_ & j & Hj & _)]; [exact H|lia].
        -- intros r. split; [|tauto]. intros Hr. split; [exact Hr|].
           intros t Ht. lia.
        -- split; [|reflexivity]. intros _. subst files. discriminate.
      * pose proof (scan_day_spec (stamp_of_ordinal (now - k)) (k + 1) files b)
          as [Hb Hp].
        destruct (scan_day h rp (stamp_of_ordinal (now - k)) (k + 1) files b)
          as [b1 p] eqn:Hscan.
        cbn [fst snd] in Hb, Hp. fold (hit h now k) in Hb, Hp.
        assert (exists files1,
                   remove_each h p files = Some files1
                   /\ stems_by_path h files1
                   /\ forall r, In r files1 <->
                        In r files /\ (hit h now k r = true -> gen_of rp (k + 1) = Obsolete))
          as (files1 & Hrem & Hwf1 & Hin1).
        { subst p. unfold keeps_in_list in *.
          destruct (generation_eqb (gen_of rp (k + 1)) Obsolete) eqn:Hg.
          - exists files. apply generation_eqb_eq in Hg. repeat split; auto. tauto.
          - exists (filter (fun r => negb (hit h now k r)) files). split; [|split].
            + apply (remove_each_filter (hit h now k) [] files).
              * intros x y Hx Hy E. unfold hit. now rewrite (Hwf x y Hx Hy E).
              * intros y [].
            + now apply stems_by_path_filter.
            + intros r. rewrite filter_In, negb_true_iff. split.
              * intros [Hr Hh]. split; [exact Hr|]. congruence.
              * intros [Hr Hh]. split; [exact Hr|].
                destruct (hit h now k r); [|reflexivity].
                specialize (Hh eq_refl). apply generation_eqb_eq in Hh. congruence. }
        rewrite Hrem.
        destruct (IH (k + 1) files1 b1) as (res & Hres & Hs & Hl & Hcl);
          [lia|lia|exact Hnow|exact Hwf1|].
        exists res. split; [exact Hres|]. split; [|split; [|exact Hcl]].
        -- intros r g i. rewrite Hs, Hb. split.
           ++ intros [[H|(Hr & Hh & -> & ->)]|(Hr1 & j & Hj & Hh & Hcls & Hsv)].
              ** now left.
              ** right. split; [exact Hr|]. exists k. repeat split; try lia; auto.
                 --- unfold gen_of, slot_of. now destruct (classify rp (k + 1)).
                 --- intros t Ht. lia.
              ** right. apply Hin1 in Hr1 as [Hr Hk1]. split; [exact Hr|].
                 exists j. repeat split; try lia; auto.
                 intros t Ht Hht. destruct (Z.eq_dec t k) as [->|Hne]; [auto|].
                 apply Hsv; [lia|exact Hht].
           ++ intros [H|(Hr & j & Hj & Hh & Hcls & Hsv)]; [now left; left|].
              destruct (Z.eq_dec j k) as [->|Hne].
              ** left; right. unfold gen_of, slot_of. rewrite Hcls. auto.
              ** right. split.
                 --- apply Hin1. split; [exact Hr|]. apply Hsv. lia.
                 --- exists j. repeat split; try lia; auto.
                     intros t Ht. apply Hsv. lia.
        -- intros r. rewrite Hl, Hin1. split.
           ++ intros [[Hr Hk1] Hsv]. split; [exact Hr|].
              intros t Ht Hht. destruct (Z.eq_dec t k) as [->|Hne]; [auto|].
              apply Hsv; [lia|exact Hht].
           ++ intros [Hr Hsv]. split; [split; [exact Hr|]|].
              ** apply Hsv. lia.
              ** intros t Ht. apply Hsv. lia.
Qed.

End Classifier.

(** ** What [create_time_buckets] returns *)

Lemma max_days_fuel : max_days <= 0 + Z.of_nat (Z.to_nat max_days).
Proof. rewrite Z2Nat.id; unfold max_days; lia. Qed.

Lemma max_days_pos : 0 <= 0 < max_days.
Proof. unfold max_days; lia. Qed.

(** The call returns, and an entry is in a slot exactly when some scanned
    day matched it while it was still in the list and the thresholds gave
    that day this slot. *)
Lemma create_time_buckets_spec (h : heap) (rp : RetentionPolicy) (now : Z)
  (files : list ref) :
  max_days <= now -> stems_by_path h files ->
  exists res,
    create_time_buckets files rp now h = Ok res
    /\ (forall r g i, In_slot r g i (buckets_of res) <->
          In r files /\ exists j, 0 <= j < max_days - 1 /\ hit h now j r = true
             /\ classify rp (j + 1) = (g, i) /\ survives h rp now 0 j r)
    /\ (forall r, In r (files_left res) <->
          In r files /\ survives h rp now 0 (max_days - 1) r)
    /\ (ceiling_hit res = true <-> files_left res <> []).
Proof.
  intros Hnow Hwf. unfold create_time_buckets.
  destruct (time_loop_spec h rp now (Z.to_nat max_days) 0 files empty_buckets
              max_days_pos max_days_fuel Hnow Hwf) as (res & Hres & Hs & Hl & Hc).
  exists res. split; [exact Hres|]. split; [|split; assumption].
  intros r g i. rewrite Hs. split; [|auto].
  intros [H|H]; [|exact H]. now apply empty_buckets_in in H.
Qed.

(** An entry is filed under the slot of its first matching day and under
    no other. *)
Lemma placed_by_first_hit (h : heap) (rp : RetentionPolicy) (now : Z)
  (files : list ref) (res : sorted) (r : ref) (j : Z) :
  max_days <= now -> stems_by_path h files ->
  create_time_buckets files rp now h = Ok res ->
  In r files -> first_hit h now j r ->
  forall g i, In_slot r g i (buckets_of res) <-> classify rp (j + 1) = (g, i).
Proof.
  intros Hnow Hwf Hres Hr (Hj & Hh & Hfirst) g i.
  destruct (create_time_buckets_spec h rp now files Hnow Hwf)
    as (res' & Hres' & Hs & _).
  rewrite Hres in Hres'. injection Hres' as <-. rewrite Hs. split.
  - intros (_ & j' & Hj' & Hh' & Hcls & Hsv).
    destruct (Z.lt_trichotomy j' j) as [Hlt|[->|Hgt]].
    + rewrite Hfirst in Hh' by lia. discriminate.
    + exact Hcls.
    + assert (gen_of rp (j + 1) = Obsolete) as Hobs by (apply Hsv; [lia|exact Hh]).
      assert (fst (classify rp (j' + 1)) = Obsolete) as Hobs'
          by (apply (classify_obsolete_mono rp (j + 1)); [lia|exact Hobs]).
      pose proof (classify_obsolete_slot rp _ Hobs) as H0.
      pose proof (classify_obsolete_slot rp _ Hobs') as H0'.
      unfold gen_of in Hobs. rewrite Hcls in Hobs', H0'. simpl in Hobs', H0'.
      subst g i. destruct (classify rp (j + 1)); simpl in *; congruence.
  - intros Hcls. split; [exact Hr|]. exists j. repeat split; try lia; auto.
    intros t Ht Hht. rewrite Hfirst in Hht by lia. discriminate.
Qed.

(** Without any assumption on the store: whatever is filed was matched by
    a scanned day. *)
Lemma time_loop_sound (h : heap) (rp : RetentionPolicy) (now : Z) (fuel : nat) :
  forall (k : Z) (files : list ref) (b : TimeBuckets) (res : sorted),
    time_loop h rp now fuel k files b = Ok res ->
    forall r g i, In_slot r g i (buckets_of res) ->
      In_slot r g i b \/ exists j, k <= j < max_days - 1 /\ hit h now j r = true.
Proof.
  induction fuel as [|fuel IH]; intros k files b res Hres r g i Hin;
    cbn [time_loop] in Hres; [discriminate|].
  destruct files as [|f0 files'].
  - injection Hres as <-. now left.
  - destruct (now - k <? 1); [discriminate|].
    destruct (Z.leb_spec max_days (k + 1)) as [Hc|Hc].
    + injection Hres as <-. now left.
    + pose proof (scan_day_spec h rp (stamp_of_ordinal (now - k)) (k + 1)
                    (f0 :: files') b) as [Hb _].
      destruct (scan_day h rp (stamp_of_ordinal (now - k)) (k + 1) (f0 :: files') b)
        as [b1 p].
      cbn [fst] in Hb.
      destruct (remove_each h p (f0 :: files')) as [files1|]; [|discriminate].
      destruct (IH _ _ _ _ Hres r g i Hin) as [H1|(j & Hj & Hh)].
      * apply Hb in H1 as [H1|(_ & Hh & _)]; [now left|].
        right. exists k. split; [lia|exact Hh].
      * right. exists j. split; [lia|exact Hh].
Qed.

Lemma create_time_buckets_sound (h : heap) (rp : RetentionPolicy) (now : Z)
  (files : list ref) (res : sorted) (r : ref) (g : generation) (i : Z) :
  create_time_buckets files rp now h = Ok res ->
  In_slot r g i (buckets_of res) ->
  exists j, 0 <= j < max_days - 1 /\ hit h now j r = true.
Proof.
  intros Hres Hin.
  destruct (time_loop_sound _ _ _ _ _ _ _ _ Hres r g i Hin) as [H|H]; [|exact H].
  now apply empty_buckets_in in H.
Qed.

(** ** What the selection returns *)

Lemma select_slots_in (d : slots) :
  forall acc out, select_slots d acc = Ok out ->
    forall r, In r out -> In r acc \/ exists i l, In (i, l) d /\ In r l.
Proof.
  induction d as [|[k l] d IH]; intros acc out H r Hr; simpl in H.
  - injection H as <-. now left.
  - destruct l as [|x others]; [discriminate|].
    destruct (IH _ _ H r Hr) as [Ha|(i & l' & Hl & Hr')].
    + apply in_app_or in Ha as [Ha|Ha]; [now left|].
      right. exists k, (x :: others). simpl. auto.
    + right. exists i, l'. simpl. auto.
Qed.

Lemma select_generations_in (b : TimeBuckets) (acc out : list ref) :
  select_generations (bucket_items b) acc = Ok out ->
  forall r, In r out -> In r acc \/ exists g i, In_slot r g i b.
Proof.
  unfold bucket_items. cbn [select_generations]. intros H r Hr.
  destruct (select_slots (b_daily b) acc) as [a1| |] eqn:E1; try discriminate.
  destruct (select_slots (b_weekly b) a1) as [a2| |] eqn:E2; try discriminate.
  destruct (select_slots (b_monthly b) a2) as [a3| |] eqn:E3; try discriminate.
  destruct (select_slots (b_yearly b) a3) as [a4| |] eqn:E4; try discriminate.
  destruct (select_slots (b_obsolete b) a4) as [a5| |] eqn:E5; try discriminate.
  injection H as <-.
  destruct (select_slots_in _ _ _ E5 r Hr) as [H4|(i & l & Hl & Hrl)];
    [|right; exists Obsolete, i, l; auto].
  destruct (select_slots_in _ _ _ E4 r H4) as [H3|(i & l & Hl & Hrl)];
    [|right; exists Yearly, i, l; auto].
  destruct (select_slots_in _ _ _ E3 r H3) as [H2|(i & l & Hl & Hrl)];
    [|right; exists Monthly, i, l; auto].
  destruct (select_slots_in _ _ _ E2 r H2) as [H1|(i & l & Hl & Hrl)];
    [|right; exists Weekly, i, l; auto].
  destruct (select_slots_in _ _ _ E1 r H1) as [H0|(i & l & Hl & Hrl)];
    [now left|right; exists Daily, i, l; auto].
Qed.

Lemma prune_series_in (h : heap) (rp : RetentionPolicy) (now : Z) (buckets : series) :
  forall acc out, prune_series h rp now buckets acc = Ok out ->
    forall r, In r out ->
      In r acc \/ exists j, 0 <= j < max_days - 1 /\ hit h now j r = true.
Proof.
  induction buckets as [|[name files] buckets IH]; intros acc out H r Hr;
    cbn [prune_series] in H.
  - injection H as <-. now left.
  - destruct (create_time_buckets files rp now h) as [res| |] eqn:Hres;
      try discriminate.
    destruct (select_generations (bucket_items (buckets_of res)) acc)
      as [acc'| |] eqn:Hsel; try discriminate.
    destruct (IH _ _ H r Hr) as [Ha|Hj]; [|now right].
    destruct (select_generations_in _ _ _ Hsel r Ha) as [H0|(g & i & Hin)];
      [now left|right].
    exact (create_time_buckets_sound _ _ _ _ _ _ _ _ Hres Hin).
Qed.

(** ** What [get_bucket] leaves alone *)

Lemma same_names_refl (f : File) : same_names f f.
Proof. unfold same_names; tauto. Qed.

Lemma same_names_trans (f f' f'' : File) :
  same_names f f' -> same_names f' f'' -> same_names f f''.
Proof. unfold same_names; intuition congruence. Qed.

Lemma upd_same_names (h : heap) (r : ref) (f : File) :
  same_names (h r) f -> forall r', same_names (h r') (upd r f h r').
Proof.
  intros H r'. unfold upd. destruct (Nat.eqb_spec r' r) as [->|_];
    [exact H|apply same_names_refl].
Qed.

Lemma get_bucket_frame (self : ref) (h h' : heap) (k : str) :
  get_bucket self h = Ok (k, h') -> forall r, same_names (h r) (h' r).
Proof.
  unfold get_bucket. intros H r.
  repeat match type of H with
         | (if ?c then _ else _) = _ => destruct c
         | match ?c with _ => _ end = _ => destruct c
         end;
    try discriminate; injection H as _ <-;
    try apply same_names_refl;
    apply upd_same_names; unfold same_names; simpl; tauto.
Qed.

Lemma split_loop_frame (file_list : list ref) :
  forall (buckets d : series) (h h' : heap),
    split_loop file_list buckets h = Ok (d, h') ->
    forall r, same_names (h r) (h' r).
Proof.
  induction file_list as [|f rest IH]; intros buckets d h h' H r;
    cbn [split_loop] in H.
  - injection H as _ <-. apply same_names_refl.
  - unfold mbind in H.
    destruct (get_bucket f h) as [[k h1]| |] eqn:E1; try discriminate.
    pose proof (get_bucket_frame _ _ _ _ E1 r) as F1.
    destruct (dict_mem k buckets).
    + exact (same_names_trans _ _ _ F1 (IH _ _ _ _ H r)).
    + destruct (get_bucket f h1) as [[k2 h2]| |] eqn:E2; try discriminate.
      pose proof (get_bucket_frame _ _ _ _ E2 r) as F2.
      exact (same_names_trans _ _ _ (same_names_trans _ _ _ F1 F2) (IH _ _ _ _ H r)).
Qed.

Lemma hit_same_names (h h' : heap) (now : Z) :
  (forall r, same_names (h r) (h' r)) ->
  forall j r, hit h' now j r = hit h now j r.
Proof.
  intros H j r. unfold hit. destruct (H r) as (_ & _ & _ & -> & _). reflexivity.
Qed.

(** Every entry of the prune list was matched by a scanned day. *)
Lemma list_files_to_prune_in (file_list : list ref) (rp : RetentionPolicy)
  (now : Z) (h h' : heap) (del : list ref) :
  list_files_to_prune file_list rp now h = Ok (del, h') ->
  (forall r, same_names (h r) (h' r))
  /\ forall r, In r del -> exists j, 0 <= j < max_days - 1 /\ hit h now j r = true.
Proof.
  unfold list_files_to_prune. destruct file_list as [|f0 rest]; [discriminate|].
  unfold mbind, split_into_buckets, lift.
  destruct (split_loop (f0 :: rest) [] h) as [[d h1]| |] eqn:Hsplit;
    try discriminate.
  destruct (prune_series h1 rp now d []) as [out| |] eqn:Hprune; try discriminate.
  intros H. injection H as <- <-.
  pose proof (split_loop_frame _ _ _ _ _ Hsplit) as Hframe.
  split; [exact Hframe|]. intros r Hr.
  destruct (prune_series_in _ _ _ _ _ _ Hprune r Hr) as [[]|(j & Hj & Hh)].
  exists j. split; [exact Hj|]. now rewrite <- (hit_same_names h h1 now Hframe).
Qed.

(** ** The regular expression against these words *)

Module ReFacts.

Lemma in_ret {A} (a b : A) (r t : str) : In (a, r) (Re.ret b t) <-> a = b /\ r = t.
Proof. unfold Re.ret; simpl. split; [intros [E|[]]; now injection E|intros [-> ->]; auto]. Qed.

Lemma in_bind {A B} (p : Re.pat A) (k : A -> Re.pat B) (b : B) (r t : str) :
  In (b, r) (Re.bind p k t) <-> exists a t', In (a, t') (p t) /\ In (b, r) (k a t').
Proof.
  unfold Re.bind. rewrite in_flat_map. split.
  - intros ([a t'] & H1 & H2). eauto.
  - intros (a & t' & H1 & H2). exists (a, t'). auto.
Qed.

Lemma in_alt {A} (p q : Re.pat A) (x : A * str) (t : str) :
  In x (Re.alt p q t) <-> In x (p t) \/ In x (q t).
Proof. unfold Re.alt. apply in_app_iff. Qed.

Lemma in_cls (f : ascii -> bool) (a r t : str) :
  In (a, r) (Re.cls f t) <-> exists c, t = c :: r /\ a = [c] /\ f c = true.
Proof.
  unfold Re.cls. destruct t as [|c t]; simpl.
  - split; [intros []|intros (c & H & _); discriminate].
  - destruct (f c) eqn:Hc; simpl.
    + split.
      * intros [E|[]]. injection E as <- <-. eauto.
      * intros (c' & E & -> & _). injection E as <- <-. auto.
    + split; [intros []|]. intros (c' & E & _ & Hc'). injection E as <- _. congruence.
Qed.

Lemma in_cat (p q : Re.pat str) (a r t : str) :
  In (a, r) (Re.cat p q t) <->
  exists a1 a2 t1, In (a1, t1) (p t) /\ In (a2, r) (q t1) /\ a = a1 ++ a2.
Proof.
  unfold Re.cat. rewrite in_bind. split.
  - intros (a1 & t1 & H1 & H2). apply in_bind in H2 as (a2 & t2 & H2 & H3).
    apply in_ret in H3 as [-> ->]. eauto 10.
  - intros (a1 & a2 & t1 & H1 & H2 & ->). exists a1, t1. split; [exact H1|].
    apply in_bind. exists a2, r. split; [exact H2|]. now apply in_ret.
Qed.

Lemma in_chr (c : ascii) (a r t : str) :
  In (a, r) (Re.chr c t) <-> t = c :: r /\ a = [c].
Proof.
  unfold Re.chr. rewrite in_cls. split.
  - intros (c' & -> & -> & E). apply ch_eqb_eq in E. now subst.
  - intros [-> ->]. exists c. repeat split. now apply ch_eqb_eq.
Qed.

(** [p{lo,hi}] of a character class: between [lo] and [hi] characters of
    the class. *)
Lemma in_rep (f : ascii -> bool) (hi : nat) :
  forall (lo : nat) (a r t : str),
    In (a, r) (Re.rep lo hi (Re.cls f) t) <->
    t = a ++ r /\ (lo <= List.length a <= hi)%nat /\ forallb f a = true.
Proof.
  induction hi as [|hi IH]; intros lo a r t; cbn [Re.rep].
  - destruct lo.
    + rewrite in_ret. split.
      * intros [-> ->]. simpl. repeat split; lia.
      * intros (-> & Hl & _). destruct a; [auto|simpl in Hl; lia].
    + unfold Re.fail. simpl. split; [intros []|]. intros (_ & Hl & _). lia.
  - rewrite in_alt, in_cat. split.
    + intros [(a1 & a2 & t1 & H1 & H2 & ->)|H].
      * apply in_cls in H1 as (c & -> & -> & Hc). apply IH in H2 as (-> & Hl & Hf).
        simpl. rewrite Hc, Hf. repeat split; lia.
      * destruct lo; [|destruct H]. apply in_ret in H as [-> ->].
        simpl. repeat split; lia.
    + intros (-> & Hl & Hf). destruct a as [|c a].
      * right. destruct lo; [|simpl in Hl; lia]. now apply in_ret.
      * left. simpl in Hf. apply andb_true_iff in Hf as [Hc Hf].
        exists [c], a, (a ++ r). split; [|split; [|reflexivity]].
        -- apply in_cls. exists c. auto.
        -- apply IH. simpl in Hl. repeat split; [lia|lia|exact Hf].
Qed.

End ReFacts.

(** Characters are compared through their digit value. *)
Lemma digit_value_inj (c c' : ascii) : digit_value c = digit_value c' -> c = c'.
Proof.
  unfold digit_value. intros H.
  rewrite <- (ascii_nat_embedding c), <- (ascii_nat_embedding c'). f_equal. lia.
Qed.

Lemma range_value (a b c : ascii) :
  Re.range a b c = true <-> digit_value a <= digit_value c <= digit_value b.
Proof.
  unfold Re.range, digit_value.
  rewrite andb_true_iff, !Nat.leb_le. lia.
Qed.

Lemma is_digit_value (c : ascii) : is_digit c = true <-> 0 <= digit_value c <= 9.
Proof. unfold is_digit. rewrite andb_true_iff, !Z.leb_le. tauto. Qed.

Lemma digit_is_digit (c : ascii) : Re.digit c = is_digit c.
Proof.
  apply eq_true_iff_eq. unfold Re.digit. rewrite range_value, is_digit_value.
  reflexivity.
Qed.

Lemma is_time_char_like (c : ascii) : is_time_char c = time_like c.
Proof.
  unfold is_time_char, time_like, Re.one_of. rewrite digit_is_digit. simpl.
  destruct (is_digit c), (ch_eqb c "-"), (ch_eqb c "_"), (ch_eqb c ":"); reflexivity.
Qed.

Lemma is_sep_not_digit (c : ascii) : is_sep c = true -> is_digit c = false.
Proof.
  unfold is_sep, Re.one_of. simpl. rewrite !orb_true_iff, !ch_eqb_eq.
  intros [->|[->|H]]; [reflexivity|reflexivity|discriminate].
Qed.

Lemma digits_2 (t : str) :
  digits 2 t = true <->
  exists a b, t = [a; b] /\ 0 <= digit_value a <= 9 /\ 0 <= digit_value b <= 9.
Proof.
  unfold digits. rewrite andb_true_iff, Nat.eqb_eq. split.
  - intros [Hl Hf]. destruct t as [|a [|b [|? ?]]]; try discriminate.
    simpl in Hf. rewrite !andb_true_iff, !is_digit_value in Hf. exists a, b. tauto.
  - intros (a & b & -> & Ha & Hb). split; [reflexivity|]. simpl.
    rewrite !andb_true_iff, !is_digit_value. tauto.
Qed.

Lemma digits_4 (t : str) :
  digits 4 t = true <->
  exists a b c d, t = [a; b; c; d]
    /\ 0 <= digit_value a <= 9 /\ 0 <= digit_value b <= 9
    /\ 0 <= digit_value c <= 9 /\ 0 <= digit_value d <= 9.
Proof.
  unfold digits. rewrite andb_true_iff, Nat.eqb_eq. split.
  - intros [Hl Hf]. destruct t as [|a [|b [|c [|d [|? ?]]]]]; try discriminate.
    simpl in Hf. rewrite !andb_true_iff, !is_digit_value in Hf.
    exists a, b, c, d. tauto.
  - intros (a & b & c & d & -> & Ha & Hb & Hc & Hd). split; [reflexivity|]. simpl.
    rewrite !andb_true_iff, !is_digit_value. tauto.
Qed.

Ltac re_inv :=
  repeat match goal with
    | H : In _ (Re.cat _ _ _) |- _ =>
        apply ReFacts.in_cat in H as (? & ? & ? & ? & ? & ?)
    | H : In _ (Re.alt _ _ _) |- _ => apply ReFacts.in_alt in H as [?|?]
    | H : In _ (Re.chr _ _) |- _ => apply ReFacts.in_chr in H as [? ?]
    | H : In _ (Re.cls _ _) |- _ => apply ReFacts.in_cls in H as (? & ? & ? & ?)
    | H : In _ (Re.ret _ _) |- _ => apply ReFacts.in_ret in H as [? ?]
    end;
  subst.

Ltac values :=
  repeat match goal with
    | H : Re.range _ _ _ = true |- _ => apply range_value in H
    | H : Re.digit _ = true |- _ => unfold Re.digit in H
    end;
  change (digit_value "0") with 0 in *; change (digit_value "1") with 1 in *;
  change (digit_value "2") with 2 in *; change (digit_value "3") with 3 in *;
  change (digit_value "9") with 9 in *.

Ltac re_cat := apply ReFacts.in_cat; do 3 eexists; split; [|split].

Ltac re_chr := apply ReFacts.in_chr; split; reflexivity.

Ltac re_cls :=
  apply ReFacts.in_cls; eexists; split; [reflexivity|split; [reflexivity|]].

Ltac re_digit := re_cls; apply range_value; values; lia.

Ltac literal c v E :=
  assert (c = v) by (apply digit_value_inj; rewrite E; reflexivity); subst c.

Lemma re_year_in (y r t : str) :
  In (y, r) (re_year t) <-> t = y ++ r /\ is_year y = true.
Proof.
  unfold re_year, is_year. rewrite !andb_true_iff, !Z.leb_le, digits_4. split.
  - intros H. re_inv; values; cbn [app]; (split; [reflexivity|]);
      (split; [split|]);
      try (do 4 eexists; split; [reflexivity|]; values; lia);
      unfold number; cbn [fold_left]; values; lia.
  - intros (-> & ((a & b & c & d & -> & Ha & Hb & Hc & Hd) & Hlo) & Hhi).
    unfold number in Hlo, Hhi. cbn [fold_left] in Hlo, Hhi.
    assert ((digit_value a = 1 /\ digit_value b = 9)
            \/ (digit_value a = 2 /\ digit_value b = 0)) as [[Ea Eb]|[Ea Eb]] by lia.
    + literal a "1"%char Ea. literal b "9"%char Eb.
      re_cat;
        [ apply ReFacts.in_alt; left; re_cat; [re_chr|re_chr|reflexivity]
        | re_cat; [re_digit|re_digit|reflexivity]
        | reflexivity ].
    + literal a "2"%char Ea. literal b "0"%char Eb.
      re_cat;
        [ apply ReFacts.in_alt; right; re_cat; [re_chr|re_chr|reflexivity]
        | re_cat; [re_digit|re_digit|reflexivity]
        | reflexivity ].
Qed.

Lemma re_month_in (m r t : str) :
  In (m, r) (re_month t) <-> t = m ++ r /\ is_month m = true.
Proof.
  unfold re_month, is_month. rewrite !andb_true_iff, !Z.leb_le, digits_2. split.
  - intros H. re_inv; values; cbn [app]; (split; [reflexivity|]);
      (split; [split|]);
      try (do 2 eexists; split; [reflexivity|]; values; lia);
      unfold number; cbn [fold_left]; values; lia.
  - intros (-> & ((a & b & -> & Ha & Hb) & Hlo) & Hhi).
    unfold number in Hlo, Hhi. cbn [fold_left] in Hlo, Hhi.
    assert (digit_value a = 0 \/ digit_value a = 1) as [Ea|Ea] by lia.
    + literal a "0"%char Ea. apply ReFacts.in_alt; left.
      re_cat; [re_chr|re_digit|reflexivity].
    + literal a "1"%char Ea. apply ReFacts.in_alt; right.
      re_cat; [re_chr|re_digit|reflexivity].
Qed.

Lemma re_day_in (d r t : str) :
  In (d, r) (re_day t) <-> t = d ++ r /\ is_day d = true.
Proof.
  unfold re_day, is_day. rewrite !andb_true_iff, !Z.leb_le, digits_2. split.
  - intros H. re_inv; values; cbn [app]; (split; [reflexivity|]);
      (split; [split|]);
      try (do 2 eexists; split; [reflexivity|]; values; lia);
      unfold number; cbn [fold_left]; values; lia.
  - intros (-> & ((a & b & -> & Ha & Hb) & Hlo) & Hhi).
    unfold number in Hlo, Hhi. cbn [fold_left] in Hlo, Hhi.
    assert (digit_value a = 0 \/ digit_value a = 1
            \/ digit_value a = 2 \/ digit_value a = 3) as [Ea|[Ea|[Ea|Ea]]] by lia.
    + literal a "0"%char Ea. apply ReFacts.in_alt; left.
      re_cat; [re_chr|re_digit|reflexivity].
    + literal a "1"%char Ea. apply ReFacts.in_alt; right. apply ReFacts.in_alt; left.
      re_cat; [re_chr|re_digit|reflexivity].
    + literal a "2"%char Ea. do 2 (apply ReFacts.in_alt; right).
      apply ReFacts.in_alt; left.
      re_cat; [re_chr|re_digit|reflexivity].
    + literal a "3"%char Ea. do 3 (apply ReFacts.in_alt; right).
      re_cat; [re_chr|re_digit|reflexivity].
Qed.

Lemma is_sep_separator (c : ascii) : is_sep c = is_separator [c].
Proof.
  unfold is_sep, is_separator, Re.one_of. simpl. now rewrite orb_false_r.
Qed.

Lemma re_sep_in (sp r t : str) :
  In (sp, r) (re_sep t) <-> t = sp ++ r /\ is_separator sp = true.
Proof.
  unfold re_sep, Re.opt. rewrite ReFacts.in_alt, ReFacts.in_cls, ReFacts.in_ret.
  split.
  - intros [(c & -> & -> & Hc)|[-> ->]]; [|auto].
    rewrite is_sep_separator in Hc. auto.
  - intros [-> Hs]. destruct sp as [|c [|? ?]]; [now right| |discriminate].
    left. exists c. rewrite is_sep_separator. auto.
Qed.

Lemma forallb_pointwise (f g : ascii -> bool) (t : str) :
  (forall c, f c = g c) -> forallb f t = forallb g t.
Proof. intros H. induction t as [|c t IH]; simpl; [reflexivity|]. now rewrite H, IH. Qed.

Lemma re_time_in (tm r t : str) :
  In (tm, r) (re_time t) <-> t = tm ++ r /\ is_time_tail tm = true.
Proof.
  unfold re_time, is_time_tail. rewrite ReFacts.in_rep.
  rewrite !andb_true_iff, !Nat.leb_le.
  rewrite (forallb_pointwise is_time_char time_like tm is_time_char_like). tauto.
Qed.

(** The ways [r_date_stamp] matches at the head of [t] are the ways to
    split [t] into a year, a month and a day, separated or not, a
    time-like tail and a remainder. *)
Lemma r_date_stamp_in (g : groups) (r t : str) :
  In (g, r) (r_date_stamp t) <->
  exists y s1 m s2 d tm,
    g = mkGroups y s1 m s2 d (y ++ s1 ++ m ++ s2 ++ d ++ tm)
    /\ t = y ++ s1 ++ m ++ s2 ++ d ++ tm ++ r
    /\ is_year y = true /\ is_separator s1 = true /\ is_month m = true
    /\ is_separator s2 = true /\ is_day d = true /\ is_time_tail tm = true.
Proof.
  unfold r_date_stamp. split.
  - intros H.
    apply ReFacts.in_bind in H as (y & t1 & Hy & H).
    apply ReFacts.in_bind in H as (s1 & t2 & Hs1 & H).
    apply ReFacts.in_bind in H as (m & t3 & Hm & H).
    apply ReFacts.in_bind in H as (s2 & t4 & Hs2 & H).
    apply ReFacts.in_bind in H as (d & t5 & Hd & H).
    apply ReFacts.in_bind in H as (tm & t6 & Htm & H).
    apply ReFacts.in_ret in H as [-> ->].
    apply re_year_in in Hy as [-> Hy]. apply re_sep_in in Hs1 as [-> Hs1].
    apply re_month_in in Hm as [-> Hm]. apply re_sep_in in Hs2 as [-> Hs2].
    apply re_day_in in Hd as [-> Hd]. apply re_time_in in Htm as [-> Htm].
    exists y, s1, m, s2, d, tm. auto 10.
  - intros (y & s1 & m & s2 & d & tm & -> & -> & Hy & Hs1 & Hm & Hs2 & Hd & Htm).
    apply ReFacts.in_bind. exists y, (s1 ++ m ++ s2 ++ d ++ tm ++ r).
    split; [now apply re_year_in|].
    apply ReFacts.in_bind. exists s1, (m ++ s2 ++ d ++ tm ++ r).
    split; [now apply re_sep_in|].
    apply ReFacts.in_bind. exists m, (s2 ++ d ++ tm ++ r).
    split; [now apply re_month_in|].
    apply ReFacts.in_bind. exists s2, (d ++ tm ++ r).
    split; [now apply re_sep_in|].
    apply ReFacts.in_bind. exists d, (tm ++ r).
    split; [now apply re_day_in|].
    apply ReFacts.in_bind. exists tm, r.
    split; [now apply re_time_in|]. now apply ReFacts.in_ret.
Qed.

(** A string splits in one way only into year, month and day. *)
Lemma separator_then_digit (sp sp' u u' : str) (a a' : ascii) :
  sp ++ a :: u = sp' ++ a' :: u' ->
  is_separator sp = true -> is_separator sp' = true ->
  is_digit a = true -> is_digit a' = true ->
  sp = sp' /\ a :: u = a' :: u'.
Proof.
  intros E Hs Hs' Ha Ha'.
  destruct sp as [|c [|? ?]], sp' as [|c' [|? ?]]; try discriminate; simpl in E.
  - auto.
  - injection E as -> _. rewrite <- is_sep_separator in Hs'.
    apply is_sep_not_digit in Hs'. congruence.
  - injection E as -> _. rewrite <- is_sep_separator in Hs.
    apply is_sep_not_digit in Hs. congruence.
  - injection E as -> -> ->. auto.
Qed.

Lemma dated_split_unique (y s1 m s2 d w y' s1' m' s2' d' w' : str) :
  y ++ s1 ++ m ++ s2 ++ d ++ w = y' ++ s1' ++ m' ++ s2' ++ d' ++ w' ->
  is_year y = true -> is_separator s1 = true -> is_month m = true ->
  is_separator s2 = true -> is_day d = true ->
  is_year y' = true -> is_separator s1' = true -> is_month m' = true ->
  is_separator s2' = true -> is_day d' = true ->
  y = y' /\ m = m' /\ d = d'.
Proof.
  unfold is_year, is_month, is_day. rewrite !andb_true_iff.
  intros E [[Hy _] _] Hs1 [[Hm _] _] Hs2 [[Hd _] _]
         [[Hy' _] _] Hs1' [[Hm' _] _] Hs2' [[Hd' _] _].
  apply digits_4 in Hy as (a & b & c & e & -> & _).
  apply digits_4 in Hy' as (a' & b' & c' & e' & -> & _).
  apply digits_2 in Hm as (m1 & m2 & -> & Hm1 & _).
  apply digits_2 in Hm' as (m1' & m2' & -> & Hm1' & _).
  apply digits_2 in Hd as (d1 & d2 & -> & Hd1 & _).
  apply digits_2 in Hd' as (d1' & d2' & -> & Hd1' & _).
  cbn [app] in E. injection E as -> -> -> -> E.
  rewrite <- is_digit_value in Hm1, Hm1', Hd1, Hd1'.
  apply separator_then_digit in E as [-> E]; auto.
  injection E as -> -> E.
  apply separator_then_digit in E as [-> E]; auto.
  injection E as -> -> _. auto.
Qed.

(** [search] returns the match at the first offset that has one. *)
Lemma search_from_first (pre : str) :
  forall (i : nat) (u : str) (g : groups) (r : str) (more : list (groups * str)),
    (forall j, (j < List.length pre)%nat -> r_date_stamp (skipn j (pre ++ u)) = []) ->
    r_date_stamp u = (g, r) :: more ->
    search_from i (pre ++ u) = Some (mkMatch (i + List.length pre) g).
Proof.
  induction pre as [|c pre IH]; intros i u g r more Hno Hu.
  - cbn [app List.length]. rewrite Nat.add_0_r.
    destruct u; cbn [search_from]; now rewrite Hu.
  - cbn [app search_from]. pose proof (Hno 0%nat) as H0. cbn [skipn app] in H0.
    rewrite H0 by (simpl; lia).
    rewrite (IH (S i) u g r more); [|(intros j Hj; apply (Hno (S j)); simpl; lia)|exact Hu].
    cbn [List.length]. f_equal. f_equal. lia.
Qed.

Lemma dated_at_skipn (t : str) (j : nat) (g : groups) (r : str) :
  (j <= List.length t)%nat ->
  In (g, r) (r_date_stamp (skipn j t)) ->
  dated_at t j (g_year g) (g_month g) (g_day g).
Proof.
  intros Hj H.
  apply r_date_stamp_in in H
    as (y & s1 & m & s2 & d & tm & -> & E & Hy & Hs1 & Hm & Hs2 & Hd & Htm).
  exists (firstn j t), s1, s2, tm, r. simpl.
  rewrite <- E, firstn_skipn, length_firstn. repeat split; auto. lia.
Qed.

(** The date stamp of an entry is the date at the first offset of its
    base name that has one. *)
Lemma date_stamp_first_dated (fn : str) (msize : Z) (i : nat) (y m d : str) :
  first_dated_at (basename fn) i y m d ->
  date_stamp (File_init fn msize) = y ++ "-"%char :: m ++ "-"%char :: d.
Proof.
  intros [(pre & s1 & s2 & tm & rest & E & Hi & Hy & Hs1 & Hm & Hs2 & Hd & Htm) Hfirst].
  assert (exists g r more,
             r_date_stamp (y ++ s1 ++ m ++ s2 ++ d ++ tm ++ rest) = (g, r) :: more)
    as (g & r & more & Hu).
  { destruct (r_date_stamp (y ++ s1 ++ m ++ s2 ++ d ++ tm ++ rest))
      as [|[g r] more] eqn:Hu; [|eauto].
    assert (In (mkGroups y s1 m s2 d (y ++ s1 ++ m ++ s2 ++ d ++ tm), rest)
              (r_date_stamp (y ++ s1 ++ m ++ s2 ++ d ++ tm ++ rest))) as Hin
        by (apply r_date_stamp_in; exists y, s1, m, s2, d, tm; auto 10).
    rewrite Hu in Hin. destruct Hin. }
  assert (In (g, r) (r_date_stamp (y ++ s1 ++ m ++ s2 ++ d ++ tm ++ rest))) as Hg
      by (rewrite Hu; now left).
  apply r_date_stamp_in in Hg
    as (y' & s1' & m' & s2' & d' & tm' & -> & E' & Hy' & Hs1' & Hm' & Hs2' & Hd' & _).
  destruct (dated_split_unique _ _ _ _ _ _ _ _ _ _ _ _ E') as (<- & <- & <-); auto.
  assert (search (basename fn)
          = Some (mkMatch (0 + List.length pre)
                    (mkGroups y s1' m s2' d (y ++ s1' ++ m ++ s2' ++ d ++ tm')))) as Hs.
  { unfold search. rewrite E. eapply search_from_first; [|exact Hu].
    intros j Hj.
    destruct (r_date_stamp (skipn j (pre ++ y ++ s1 ++ m ++ s2 ++ d ++ tm ++ rest)))
      as [|[g0 r0] more0] eqn:Hj0; [reflexivity|exfalso].
    apply (Hfirst j (g_year g0) (g_month g0) (g_day g0)); [lia|].
    rewrite E. apply (dated_at_skipn _ j g0 r0).
    - rewrite length_app. lia.
    - rewrite Hj0. now left. }
  unfold File_init. rewrite Hs. reflexivity.
Qed.

(** ** Deciding the side conditions *)

Lemma no_match_before_sound (t : str) (i : nat) :
  no_match_before t i = true ->
  forall j y m d, (j < i)%nat -> ~ dated_at t j y m d.
Proof.
  unfold no_match_before. rewrite forallb_forall.
  intros H j y m d Hj (pre & s1 & s2 & tm & rest & -> & <- & Hy & Hs1 & Hm & Hs2 & Hd & Htm).
  specialize (H (List.length pre)).
  rewrite skipn_app, skipn_all, Nat.sub_diag in H. cbn [skipn app] in H.
  assert (In (mkGroups y s1 m s2 d (y ++ s1 ++ m ++ s2 ++ d ++ tm), rest)
            (r_date_stamp (y ++ s1 ++ m ++ s2 ++ d ++ tm ++ rest))) as Hin
      by (apply r_date_stamp_in; exists y, s1, m, s2, d, tm; auto 10).
  destruct (r_date_stamp (y ++ s1 ++ m ++ s2 ++ d ++ tm ++ rest)); [destruct Hin|].
  assert (false = true) by (apply H, in_seq; lia). discriminate.
Qed.

(** The search finds a match when the pattern matches at some offset. *)
Lemma search_from_finds (t : str) :
  forall (k j : nat), r_date_stamp (skipn j t) <> [] -> search_from k t <> None.
Proof.
  induction t as [|c t IH]; intros k j H; cbn [search_from].
  - rewrite skipn_nil in H.
    destruct (r_date_stamp []) as [|[g r] more]; [contradiction|discriminate].
  - destruct (r_date_stamp (c :: t)) as [|[g r] more] eqn:E; [|discriminate].
    destruct j as [|j]; [cbn [skipn] in H; congruence|].
    cbn [skipn] in H. exact (IH _ j H).
Qed.

(** A base name with a compact date gives the entry a date stamp. *)
Lemma compact_date_stamp (fn : str) (msize : Z) :
  compact_date fn -> date_stamp (File_init fn msize) <> [].
Proof.
  intros (i & y & m & d & pre & tm & rest & Ht & Hi & Hy & Hm & Hd & Htm).
  unfold File_init. destruct (search (basename fn)) as [mt|] eqn:E.
  - cbn [date_stamp]. destruct (g_year (m_groups mt)); discriminate.
  - exfalso. revert E. apply (search_from_finds (basename fn) 0 (List.length pre)).
    rewrite Ht, skipn_app, skipn_all, Nat.sub_diag. cbn [skipn app]. intros Hnil.
    assert (In (mkGroups y [] m [] d (y ++ [] ++ m ++ [] ++ d ++ tm), rest)
              (r_date_stamp (y ++ [] ++ m ++ [] ++ d ++ tm ++ rest))) as Hin
        by (apply r_date_stamp_in; exists y, [], m, [], d, tm; auto 10).
    cbn [app] in Hin. rewrite Hnil in Hin. destruct Hin.
Qed.

(** The prune list is made of the slots without their first entries. *)
Lemma select_slots_tails (d : slots) :
  forall acc out, select_slots d acc = Ok out ->
    out = acc ++ flat_map (fun kv => tl (snd kv)) d.
Proof.
  induction d as [|[k l] d IH]; intros acc out H; simpl in H.
  - injection H as <-. simpl. now rewrite app_nil_r.
  - destruct l as [|x others]; [discriminate|].
    rewrite (IH _ _ H). simpl. now rewrite <- app_assoc.
Qed.

Lemma select_generations_tails (b : TimeBuckets) (acc out : list ref) :
  select_generations (bucket_items b) acc = Ok out ->
  out = acc ++ flat_map (fun gs => flat_map (fun kv => tl (snd kv)) (snd gs))
                        (bucket_items b).
Proof.
  unfold bucket_items. cbn [select_generations flat_map snd]. intros H.
  destruct (select_slots (b_daily b) acc) as [a1| |] eqn:E1; try discriminate.
  destruct (select_slots (b_weekly b) a1) as [a2| |] eqn:E2; try discriminate.
  destruct (select_slots (b_monthly b) a2) as [a3| |] eqn:E3; try discriminate.
  destruct (select_slots (b_yearly b) a3) as [a4| |] eqn:E4; try discriminate.
  destruct (select_slots (b_obsolete b) a4) as [a5| |] eqn:E5; try discriminate.
  injection H as <-.
  rewrite (select_slots_tails _ _ _ E5), (select_slots_tails _ _ _ E4),
    (select_slots_tails _ _ _ E3), (select_slots_tails _ _ _ E2),
    (select_slots_tails _ _ _ E1).
  rewrite app_nil_r, <- !app_assoc. reflexivity.
Qed.

(** Entries built by the constructor: whatever is filed under obsolete is
    still in the list when [create_time_buckets] returns. *)
Lemma obsolete_entries_stay (h : heap) (rp : RetentionPolicy) (now : Z)
  (files : list ref) (res : sorted) (r : ref) (i : Z) :
  max_days <= now -> stems_by_path h files ->
  create_time_buckets files rp now h = Ok res ->
  In_slot r Obsolete i (buckets_of res) -> In r (files_left res).
Proof.
  intros Hnow Hwf Hres Hin.
  destruct (create_time_buckets_spec h rp now files Hnow Hwf)
    as (res' & Hres' & Hslot & Hleft & _).
  rewrite Hres in Hres'. injection Hres' as <-.
  apply Hslot in Hin as (Hr & j & Hj & Hh & Hcls & Hsv).
  apply Hleft. split; [exact Hr|]. intros t Ht Hht.
  destruct (Z.lt_ge_cases t j) as [Hlt|Hge]; [apply Hsv; [lia|exact Hht]|].
  apply (classify_obsolete_mono rp (j + 1)); [lia|]. now rewrite Hcls.
Qed.

(** ** The shape of a scanned date string *)

Lemma starts_with_app (p t : str) :
  starts_with p t = true <-> exists post, t = p ++ post.
Proof.
  revert t. induction p as [|x p IH]; intros t; simpl.
  - split; [intros _; now exists t|reflexivity].
  - destruct t as [|y t]; [split; [discriminate|intros (post & E); discriminate]|].
    rewrite andb_true_iff, ch_eqb_eq, IH. split.
    + intros (-> & post & ->). now exists post.
    + intros (post & E). injection E as -> ->. split; [reflexivity|now exists post].
Qed.

Lemma contains_app (sub t : str) :
  contains sub t = true <-> exists pre post, t = pre ++ sub ++ post.
Proof.
  induction t as [|c t IH]; cbn [contains]; rewrite orb_true_iff, starts_with_app.
  - split.
    + intros [(post & E)|E]; [|discriminate]. now exists [], post.
    + intros (pre & post & E). left. destruct pre; [now exists post|discriminate].
  - rewrite IH. split.
    + intros [(post & E)|(pre & post & E)].
      * now exists [], post.
      * exists (c :: pre), post. now rewrite E.
    + intros (pre & post & E). destruct pre as [|x pre].
      * left. now exists post.
      * right. injection E as -> ->. now exists pre, post.
Qed.

(** The month and the day of a date are in range. *)
Lemma ord2ymd_month_day (n : Z) :
  1 <= snd (fst (_ord2ymd n)) <= 12 /\ 1 <= snd (_ord2ymd n) <= 31.
Proof.
  unfold _ord2ymd.
  set (r := (((n - 1) mod _DI400Y) mod _DI100Y mod _DI4Y) mod 365).
  assert (0 <= r < 365) as Hr by (apply Z.mod_pos_bound; lia).
  set (mo := Z.shiftr (r + 50) 5).
  assert (32 * mo <= r + 50 < 32 * mo + 32) as Hmo.
  { unfold mo. rewrite Z.shiftr_div_pow2 by lia. change (2 ^ 5) with 32.
    pose proof (Z.div_mod (r + 50) 32 ltac:(lia)).
    pose proof (Z.mod_pos_bound (r + 50) 32 ltac:(lia)). lia. }
  clearbody mo r.
  match goal with
  | |- context [if ?c then (_, 12, 31) else _] => destruct c
  end; [cbn [fst snd]; lia|].
  match goal with
  | |- context [(?a =? 3) && ?b] => generalize ((a =? 3) && b)
  end.
  intros leap.
  assert (mo = 1 \/ mo = 2 \/ mo = 3 \/ mo = 4 \/ mo = 5 \/ mo = 6 \/ mo = 7
          \/ mo = 8 \/ mo = 9 \/ mo = 10 \/ mo = 11 \/ mo = 12) as Hcases by lia.
  repeat (destruct Hcases as [->|Hcases]);
    try subst mo; destruct leap; cbn;
    match goal with
    | |- context [if ?c <? ?p then _ else _] => destruct (Z.ltb_spec c p)
    end; cbn [fst snd]; lia.
Qed.

Lemma pad02_month (m : Z) : 1 <= m <= 12 -> is_month (pad02 m) = true.
Proof.
  intros H.
  assert (m = 1 \/ m = 2 \/ m = 3 \/ m = 4 \/ m = 5 \/ m = 6 \/ m = 7
          \/ m = 8 \/ m = 9 \/ m = 10 \/ m = 11 \/ m = 12) as Hcases by lia.
  repeat (destruct Hcases as [->|Hcases]; [reflexivity|]). subst m. reflexivity.
Qed.

Lemma pad02_day (d : Z) : 1 <= d <= 31 -> is_day (pad02 d) = true.
Proof.
  intros H.
  assert (exists k, (k < 31)%nat /\ d = Z.of_nat k + 1) as (k & Hk & ->)
      by (exists (Z.to_nat (d - 1)); lia).
  do 31 (destruct k as [|k]; [reflexivity|]). lia.
Qed.

(** A string that holds a month and a day after dashes is seen to. *)
Lemma dashed_month_day_in (pre m d post : str) :
  is_month m = true -> is_day d = true ->
  has_dashed_month_day (pre ++ "-"%char :: m ++ "-"%char :: d ++ post) = true.
Proof.
  intros Hm Hd.
  assert (exists m1 m2, m = [m1; m2]) as (m1 & m2 & ->).
  { unfold is_month, digits in Hm. destruct m as [|m1 [|m2 [|m3 m]]]; try discriminate.
    now exists m1, m2. }
  assert (exists d1 d2, d = [d1; d2]) as (d1 & d2 & ->).
  { unfold is_day, digits in Hd. destruct d as [|d1 [|d2 [|d3 d]]]; try discriminate.
    now exists d1, d2. }
  induction pre as [|c pre IH]; cbn [app has_dashed_month_day].
  - cbn [dashed_month_day_here]. rewrite Hm, Hd. reflexivity.
  - cbn [app] in IH. rewrite IH. apply orb_true_r.
Qed.

(** A stem in which no month and day follow dashes contains no scanned
    date, whatever the reference date. *)
Lemma no_dashed_never_hit (h : heap) (now : Z) (r : ref) :
  has_dashed_month_day (internal_filename (h r)) = false -> never_hit h now r.
Proof.
  intros H j _. unfold hit.
  destruct (contains (stamp_of_ordinal (now - j)) (internal_filename (h r))) eqn:E;
    [exfalso|reflexivity].
  apply contains_app in E as (pre & post & E).
  unfold stamp_of_ordinal in E.
  pose proof (ord2ymd_month_day (now - j)) as [Hm Hd].
  destruct (_ord2ymd (now - j)) as [[y m] d]. cbn [fst snd] in Hm, Hd.
  rewrite E in H.
  replace (pre ++ (str_of_int y ++ "-"%char :: pad02 m ++ "-"%char :: pad02 d) ++ post)
    with ((pre ++ str_of_int y) ++ "-"%char :: pad02 m ++ "-"%char :: pad02 d ++ post)
    in H by (rewrite <- !app_assoc; cbn [app]; rewrite <- !app_assoc; reflexivity).
  rewrite dashed_month_day_in in H by (auto using pad02_month, pad02_day).
  discriminate.
Qed.

Lemma init_normalized_stem (fn : str) (msize : Z) :
  internal_filename (File_init fn msize) = normalized_stem fn.
Proof. unfold File_init, normalized_stem. now destruct (search (basename fn)). Qed.

(** * The claims *)

(** Claim C1.  The docstring of [list_files_to_prune] promises the oldest
    file of every time bucket.  For two backups of one week, listed
    oldest first, the weekly slot holds the newer one at position 0, and
    the prune list is the older one, the first of the directory listing. *)
Theorem keeps_latest_of_slot :
  create_time_buckets (refs_of weekly_pair) TD_RETENTION TD_TIMESTAMP (heap_of weekly_pair)
  = Ok (mkSorted (mkBuckets [] [(2, [1%nat; 0%nat])] [] [] []) [] false)
  /\ value (list_files_to_prune (refs_of weekly_pair) TD_RETENTION TD_TIMESTAMP
              (heap_of weekly_pair))
     = Ok [0%nat].
Proof. split; vm_compute; reflexivity. Qed.

(** Claim C2.  An empty list raises [AssertionError], which is not the
    return of an empty prune list; but a one-entry list whose name has a
    dot before the date raises too, with [IndexError] from [get_bucket]. *)
Theorem prune_raises_on_empty_and_on_dotted_name :
  (forall rp now h, list_files_to_prune [] rp now h = Raise AssertionError)
  /\ (forall rp now h h', list_files_to_prune [] rp now h <> Ok ([], h'))
  /\ value (list_files_to_prune (refs_of dotted_name) TD_RETENTION TD_TIMESTAMP
              (heap_of dotted_name))
     = Raise IndexError.
Proof.
  split; [reflexivity|]. split; [discriminate|]. vm_compute; reflexivity.
Qed.

(** Claim C3, as stated, fails: with the all-zero policy a backup dated on
    the reference day is filed under [weekly[0]]. *)
Lemma zero_policy_today_is_weekly : ~ zero_policy_all_obsolete.
Proof.
  intros H.
  destruct (H (refs_of todays_backup) TD_TIMESTAMP (heap_of todays_backup) 0%nat 0)
    as (res & Hres & Hslot).
  - vm_compute. discriminate.
  - reflexivity.
  - now left.
  - split; [vm_compute; split; [discriminate|reflexivity]|].
    split; [vm_compute; reflexivity|]. intros t Ht. lia.
  - assert (create_time_buckets (refs_of todays_backup) zero_policy TD_TIMESTAMP
              (heap_of todays_backup)
            = Ok (mkSorted (mkBuckets [] [(0, [0%nat])] [] [] []) [] false)) as E
        by (vm_compute; reflexivity).
    rewrite E in Hres. injection Hres as <-.
    assert ((Weekly, 0) = (Obsolete, 0)) as Hw; [|discriminate].
    apply Hslot. exists [0%nat]. simpl. auto.
Qed.

(** Claim C3, amended.  With the all-zero policy [create_time_buckets]
    returns, and files every dated entry under sub-period 0 of exactly one
    generation, fixed by its first day-match: weekly when that is the
    reference day, monthly when it is one or two days before, obsolete when
    it is three or more days before. *)
Theorem zero_policy_placement (files : list ref) (now : Z) (h : heap) (r : ref)
  (j : Z) :
  max_days <= now -> forallb (fun x => built (h x)) files = true ->
  In r files -> first_hit h now j r ->
  exists res,
    create_time_buckets files zero_policy now h = Ok res
    /\ forall g i, In_slot r g i (buckets_of res) <->
         (g, i) = (if j =? 0 then Weekly else if j <=? 2 then Monthly else Obsolete, 0).
Proof.
  intros Hnow Hb Hr Hj.
  pose proof (built_stems_by_path h files Hb) as Hwf.
  destruct (create_time_buckets_spec h zero_policy now files Hnow Hwf)
    as (res & Hres & _).
  exists res. split; [exact Hres|]. intros g i.
  rewrite (placed_by_first_hit h zero_policy now files res r j Hnow Hwf Hres Hr Hj).
  destruct Hj as (Hj & _).
  assert (classify zero_policy (j + 1)
          = (if j =? 0 then Weekly else if j <=? 2 then Monthly else Obsolete, 0)) as ->.
  { unfold classify, zero_policy. cbn [daily weekly monthly yearly].
    destruct (Z.eqb_spec j 0) as [->|Hne]; [reflexivity|].
    destruct (Z.leb_spec j 2).
    - assert (j = 1 \/ j = 2) as [->| ->] by lia; reflexivity.
    - repeat match goal with
             | |- context [?a <=? ?c] => destruct (Z.leb_spec a c); try lia
             end.
      reflexivity. }
  split; congruence.
Qed.

Lemma zero_policy_placement_witness :
  max_days <= TD_TIMESTAMP
  /\ forallb (fun x => built (heap_of three_days_old x)) (refs_of three_days_old) = true
  /\ In 0%nat (refs_of three_days_old)
  /\ first_hit (heap_of three_days_old) TD_TIMESTAMP 3 0%nat
  /\ exists res,
       create_time_buckets (refs_of three_days_old) zero_policy TD_TIMESTAMP
         (heap_of three_days_old) = Ok res
       /\ forall g i, In_slot 0%nat g i (buckets_of res) <-> (g, i) = (Obsolete, 0).
Proof.
  assert (max_days <= TD_TIMESTAMP) as H1 by (vm_compute; discriminate).
  assert (forallb (fun x => built (heap_of three_days_old x)) (refs_of three_days_old)
          = true) as H2 by reflexivity.
  assert (In 0%nat (refs_of three_days_old)) as H3 by (now left).
  assert (first_hit (heap_of three_days_old) TD_TIMESTAMP 3 0%nat) as H4.
  { split; [vm_compute; split; [discriminate|reflexivity]|].
    split; [vm_compute; reflexivity|]. intros t Ht.
    assert (t = 0 \/ t = 1 \/ t = 2) as [->|[->| ->]] by lia; vm_compute; reflexivity. }
  repeat (split; [assumption|]).
  exact (zero_policy_placement (refs_of three_days_old) TD_TIMESTAMP
           (heap_of three_days_old) 0%nat 3 H1 H2 H3 H4).
Defined.

(** Claim C4.  The two names carry a date but no time, so the pattern,
    whose time part is required, finds no date in them and each entry is
    keyed by its whole stem: two series of one entry each, not the one
    series ['db-backup'] of the claim. *)
Theorem date_only_names_split_apart :
  date_stamp (File_init (s "db-backup-2023-01-01.tgz") 0) = []
  /\ value (split_into_buckets (refs_of date_only_pair) (heap_of date_only_pair))
     = Ok [(s "db-backup-2023-01-01", [0%nat]); (s "db-backup-2023-01-02", [1%nat])].
Proof. split; vm_compute; reflexivity. Qed.

(** Claim C5.  A backup older than every retention window is filed under
    [obsolete[0]] and is still in the list when the call returns, after a
    scan that ran to the ceiling. *)
Theorem obsolete_entry_stays_in_list :
  create_time_buckets (refs_of old_backup) TD_RETENTION TD_TIMESTAMP (heap_of old_backup)
  = Ok (mkSorted (mkBuckets [] [] [] [] [(0, [0%nat])]) [0%nat] true).
Proof. vm_compute; reflexivity. Qed.

(** Claim C6.  On two backups of one day named [web_..._sql], the first
    run of [list_files_to_prune] returns the empty prune list and the
    second run, on the same list and entries, returns the second entry. *)
Theorem second_run_differs :
  match list_files_to_prune (refs_of web_sql_pair) TD_RETENTION TD_TIMESTAMP
          (heap_of web_sql_pair) with
  | Ok (first_run, h') =>
      first_run = []
      /\ value (list_files_to_prune (refs_of web_sql_pair) TD_RETENTION TD_TIMESTAMP h')
         = Ok [1%nat]
  | _ => False
  end.
Proof. vm_compute. split; reflexivity. Qed.

(** Claim C7, as stated, fails: a date in the directory part of a path is
    a date of the file name given to the constructor, and the entry has
    no date stamp. *)
Lemma dated_directory_is_ignored : ~ date_stamp_of_any_path.
Proof.
  intros H.
  specialize (H (s dated_directory) 0 0%nat (s "2022") (s "12") (s "16")).
  assert (date_stamp (File_init (s dated_directory) 0) = []) as E by reflexivity.
  rewrite E in H. discriminate H. split.
  - exists [], (s "-"), (s "-"), (s "-17-28-25"), (s "/x.gz.gpg").
    repeat split; reflexivity.
  - intros j y' m' d' Hj. lia.
Qed.

(** Claim C7, amended.  For every file name whose base name (the part
    after the last slash) contains a year in [1900, 2099], a month 01-12
    and a day 01-31, with dashes, underscores or nothing between them,
    immediately followed by 6 to 10 digits, dashes, underscores or colons,
    the date stamp of the entry is the dash-joined year, month and day of
    the first such occurrence in the base name. *)
Theorem date_stamp_of_base_name (fn : str) (msize : Z) (i : nat) (y m d : str) :
  first_dated_at (basename fn) i y m d ->
  date_stamp (File_init fn msize) = y ++ "-"%char :: m ++ "-"%char :: d.
Proof. apply date_stamp_first_dated. Qed.

Lemma date_stamp_of_base_name_witness :
  first_dated_at (basename (s dated_file)) 10 (s "2022") (s "12") (s "16")
  /\ date_stamp (File_init (s dated_file) 0) = s "2022-12-16".
Proof.
  assert (first_dated_at (basename (s dated_file)) 10 (s "2022") (s "12") (s "16"))
    as H.
  { split.
    - exists (s "db-backup_"), (s "-"), (s "-"), (s "-17-28-25"), (s ".gz.gpg").
      repeat split; reflexivity.
    - apply no_match_before_sound. vm_compute; reflexivity. }
  split; [exact H|].
  exact (date_stamp_of_base_name (s dated_file) 0 10 (s "2022") (s "12") (s "16") H).
Defined.

(** Claim C8.  The 31st of February is taken as it is written; day 32
    matches no date and leaves the date stamp empty. *)
Theorem invalid_day_kept_out_of_range_day_dropped :
  date_stamp (File_init (s "db-backup_2022-02-31-17-28-25.gz.gpg") 0) = s "2022-02-31"
  /\ date_stamp (File_init (s "db-backup_2022-02-32-17-28-25.gz.gpg") 0) = [].
Proof. split; vm_compute; reflexivity. Qed.

(** Claim C9.  [get_bucket] on the entry of
    ['db-backup_2022-12-16-17-28-25.gz.gpg'] returns ['db-backup'] and
    leaves the entry with [ds_start] 9 where the constructor had put 10. *)
Theorem get_bucket_moves_ds_start :
  ds_start (File_init (s "db-backup_2022-12-16-17-28-25.gz.gpg") 0) = 10
  /\ match get_bucket 0%nat (heap_of ["db-backup_2022-12-16-17-28-25.gz.gpg"%string]) with
     | Ok (key, h') => key = s "db-backup" /\ ds_start (h' 0%nat) = 9
     | _ => False
     end.
Proof. vm_compute. repeat split; reflexivity. Qed.

(** Claim C10, as stated, fails on a compact date followed by a dashed
    time of day: in ['2022122022-12-25_db_backup.gz.gpg'], a backup of
    2022-12-20 at 22:12:25, the day and the hour before the dashed minutes
    and seconds read ['2022-12-25'], a scanned date.  The entry is matched
    ten days back, filed under [weekly[1]] and taken off the list. *)
Lemma compact_date_can_be_sorted : ~ compact_date_never_sorted.
Proof.
  intros H.
  destruct (H (s compact_dashed_time) TD_RETENTION TD_TIMESTAMP)
    as (_ & _ & (res & Hres & Hceil & _) & _).
  - exists 0%nat, (s "2022"), (s "12"), (s "20"), [], (s "22-12-25_"),
      (s "db_backup.gz.gpg").
    repeat split; reflexivity.
  - vm_compute. discriminate.
  - assert (create_time_buckets [0%nat] TD_RETENTION TD_TIMESTAMP
              (fun _ => File_init (s compact_dashed_time) 0)
            = Ok (mkSorted (mkBuckets [] [(1, [0%nat])] [] [] []) [] false)) as E
        by (vm_compute; reflexivity).
    rewrite E in Hres. injection Hres as <-. discriminate Hceil.
Qed.

(** Claim C10, amended.  An entry built from a file name whose base name
    embeds a date with no separators, followed by a time-like tail, has a
    non-empty date stamp.  If moreover nowhere in its normalized stem a
    month 01-12 and a day 01-31 follow dashes, then no scanned day matches
    the entry, whatever the reference date; [create_time_buckets] returns
    with the scan ceiling reached, the entry still in the list and filed
    under no generation; and the entry is not in the prune list that
    [list_files_to_prune] returns. *)
Theorem undashed_compact_date_is_never_sorted (fn : str) (msize : Z)
  (files : list ref) (rp : RetentionPolicy) (now : Z) (h : heap) (r : ref) :
  compact_date fn ->
  has_dashed_month_day (normalized_stem fn) = false ->
  same_names (File_init fn msize) (h r) ->
  forallb (fun x => built (h x)) files = true ->
  In r files ->
  max_days <= now ->
  date_stamp (h r) <> []
  /\ never_hit h now r
  /\ (exists res,
        create_time_buckets files rp now h = Ok res
        /\ ceiling_hit res = true
        /\ In r (files_left res)
        /\ forall g i, ~ In_slot r g i (buckets_of res))
  /\ forall del h',
        list_files_to_prune files rp now h = Ok (del, h') -> ~ In r del.
Proof.
  intros Hc Hd Hn Hb Hr Hnow.
  assert (never_hit h now r) as Hnever.
  { apply no_dashed_never_hit.
    destruct Hn as (_ & _ & _ & -> & _). now rewrite init_normalized_stem. }
  split; [|split; [exact Hnever|split]].
  - destruct Hn as (_ & _ & _ & _ & _ & ->). now apply compact_date_stamp.
  - pose proof (built_stems_by_path h files Hb) as Hwf.
    destruct (create_time_buckets_spec h rp now files Hnow Hwf)
      as (res & Hres & Hslot & Hleft & Hceil).
    assert (In r (files_left res)) as Hin.
    { apply Hleft. split; [exact Hr|]. intros t Ht Hh.
      rewrite Hnever in Hh by lia. discriminate. }
    exists res. split; [exact Hres|]. split; [|split; [exact Hin|]].
    + apply Hceil. intros E. rewrite E in Hin. destruct Hin.
    + intros g i Hs. apply Hslot in Hs as (_ & j & Hj & Hh & _).
      rewrite Hnever in Hh by lia. discriminate.
  - intros del h' Hrun Hin.
    destruct (list_files_to_prune_in _ _ _ _ _ _ Hrun) as [_ Hdel].
    destruct (Hdel r Hin) as (j & Hj & Hh).
    rewrite Hnever in Hh by lia. discriminate.
Qed.

Lemma undashed_compact_date_is_never_sorted_witness :
  compact_date (s compact_only)
  /\ has_dashed_month_day (normalized_stem (s compact_only)) = false
  /\ same_names (File_init (s compact_only) 0) (heap_of [compact_only] 0%nat)
  /\ forallb (fun x => built (heap_of [compact_only] x)) [0%nat] = true
  /\ In 0%nat [0%nat]
  /\ max_days <= TD_TIMESTAMP
  /\ date_stamp (heap_of [compact_only] 0%nat) <> []
  /\ never_hit (heap_of [compact_only]) TD_TIMESTAMP 0%nat
  /\ (exists res,
        create_time_buckets [0%nat] TD_RETENTION TD_TIMESTAMP (heap_of [compact_only])
        = Ok res
        /\ ceiling_hit res = true
        /\ In 0%nat (files_left res)
        /\ forall g i, ~ In_slot 0%nat g i (buckets_of res))
  /\ forall del h',
        list_files_to_prune [0%nat] TD_RETENTION TD_TIMESTAMP (heap_of [compact_only])
        = Ok (del, h') -> ~ In 0%nat del.
Proof.
  assert (compact_date (s compact_only)) as H1.
  { exists 0%nat, (s "2022"), (s "12"), (s "16"), [], (s "172825_"),
      (s "db_backup.gz.gpg").
    repeat split; reflexivity. }
  assert (has_dashed_month_day (normalized_stem (s compact_only)) = false) as H2
      by reflexivity.
  assert (same_names (File_init (s compact_only) 0) (heap_of [compact_only] 0%nat))
    as H3 by (repeat split; reflexivity).
  assert (forallb (fun x => built (heap_of [compact_only] x)) [0%nat] = true)
    as H4 by reflexivity.
  assert (In 0%nat [0%nat]) as H5 by (now left).
  assert (max_days <= TD_TIMESTAMP) as H6 by (vm_compute; discriminate).
  repeat (split; [assumption|]).
  exact (undashed_compact_date_is_never_sorted (s compact_only) 0 [0%nat]
           TD_RETENTION TD_TIMESTAMP (heap_of [compact_only]) 0%nat
           H1 H2 H3 H4 H5 H6).
Defined.

(** * Further properties of the code *)

(** ** What the constructor computes *)

Lemma groups_of_match (g : groups) (r t : str) :
  In (g, r) (r_date_stamp t) ->
  t = g_all g ++ r
  /\ is_year (g_year g) = true /\ is_month (g_month g) = true
  /\ is_day (g_day g) = true
  /\ (14 <= List.length (g_all g) <= 22)%nat
  /\ forallb time_like (g_all g) = true.
Proof.
  intros H. apply r_date_stamp_in in H
    as (y & s1 & m & s2 & d & tm & -> & -> & Hy & Hs1 & Hm & Hs2 & Hd & Htm).
  cbn [g_all g_year g_month g_day].
  split; [now rewrite <- !app_assoc|]. repeat (split; [assumption|]).
  unfold is_year, is_month, is_day in Hy, Hm, Hd.
  rewrite !andb_true_iff in Hy, Hm, Hd.
  destruct Hy as [[Hy _] _], Hm as [[Hm _] _], Hd as [[Hd _] _].
  unfold digits in Hy, Hm, Hd. rewrite andb_true_iff, Nat.eqb_eq in Hy, Hm, Hd.
  destruct Hy as [Ly Fy], Hm as [Lm Fm], Hd as [Ld Fd].
  unfold is_time_tail in Htm. rewrite !andb_true_iff, !Nat.leb_le in Htm.
  destruct Htm as [[Lt1 Lt2] Ft].
  assert (forall t0, forallb is_digit t0 = true -> forallb time_like t0 = true) as Hdig.
  { intros t0. rewrite !forallb_forall. intros H c Hc. unfold time_like.
    now rewrite (H c Hc). }
  assert (forallb time_like s1 = true /\ (List.length s1 <= 1)%nat) as [F1 L1].
  { destruct s1 as [|c [|? ?]]; try discriminate; simpl; [split; [reflexivity|lia]|].
    simpl in Hs1. unfold time_like. split; [|lia].
    destruct (ch_eqb c "-"), (ch_eqb c "_"), (is_digit c); try discriminate; reflexivity. }
  assert (forallb time_like s2 = true /\ (List.length s2 <= 1)%nat) as [F2 L2].
  { destruct s2 as [|c [|? ?]]; try discriminate; simpl; [split; [reflexivity|lia]|].
    simpl in Hs2. unfold time_like. split; [|lia].
    destruct (ch_eqb c "-"), (ch_eqb c "_"), (is_digit c); try discriminate; reflexivity. }
  split.
  - rewrite !length_app. lia.
  - rewrite !forallb_app, (Hdig _ Fy), (Hdig _ Fm), (Hdig _ Fd), F1, F2, Ft. reflexivity.
Qed.

Lemma search_from_sound (t : str) :
  forall (i : nat) (m : re_match),
    search_from i t = Some m ->
    exists pre rest more,
      t = pre ++ g_all (m_groups m) ++ rest
      /\ m_start m = (i + List.length pre)%nat
      /\ r_date_stamp (g_all (m_groups m) ++ rest) = (m_groups m, rest) :: more.
Proof.
  induction t as [|c t IH]; intros i m H; cbn [search_from] in H.
  - destruct (r_date_stamp []) as [|[g r] more] eqn:E; [discriminate|].
    injection H as <-. exists [], r, more. cbn [m_groups m_start app List.length].
    assert (In (g, r) (r_date_stamp [])) as Hin by (rewrite E; now left).
    apply groups_of_match in Hin as (Ht & _). rewrite <- Ht, E. auto.
  - destruct (r_date_stamp (c :: t)) as [|[g r] more] eqn:E.
    + apply IH in H as (pre & rest & more & -> & Hs & Hm).
      exists (c :: pre), rest, more. cbn [app List.length]. repeat split; auto. lia.
    + injection H as <-. exists [], r, more. cbn [m_groups m_start app List.length].
      assert (In (g, r) (r_date_stamp (c :: t))) as Hin by (rewrite E; now left).
      apply groups_of_match in Hin as (Ht & _). rewrite <- Ht, E. auto.
Qed.

Lemma search_from_none (t : str) :
  forall (i : nat), search_from i t = None ->
    forall j, r_date_stamp (skipn j t) = [].
Proof.
  induction t as [|c t IH]; intros i H j; cbn [search_from] in H.
  - destruct (r_date_stamp []) as [|[g r] more] eqn:E; [|discriminate].
    now rewrite skipn_nil.
  - destruct (r_date_stamp (c :: t)) as [|[g r] more] eqn:E; [|discriminate].
    destruct j as [|j]; [exact E|]. cbn [skipn]. exact (IH _ H j).
Qed.

Lemma File_init_cases (fn : str) (msize : Z) :
  (date_stamp (File_init fn msize) = []
   /\ ds_start (File_init fn msize) = -1 /\ ds_end (File_init fn msize) = -1)
  \/ (exists y m d,
        date_stamp (File_init fn msize) = y ++ "-"%char :: m ++ "-"%char :: d
        /\ is_year y = true /\ is_month m = true /\ is_day d = true
        /\ 0 <= ds_start (File_init fn msize)
        /\ ds_start (File_init fn msize) + 14 <= ds_end (File_init fn msize)
        /\ ds_end (File_init fn msize) <= ds_start (File_init fn msize) + 22
        /\ ds_end (File_init fn msize) <= len (base_filename (File_init fn msize))).
Proof.
  unfold File_init. destruct (search (basename fn)) as [m|] eqn:E.
  - right. apply search_from_sound in E as (pre & rest & more & Ht & Hs & Hm).
    assert (In (m_groups m, rest) (r_date_stamp (g_all (m_groups m) ++ rest))) as Hin
        by (rewrite Hm; now left).
    apply groups_of_match in Hin as (_ & Hy & Hmo & Hd & Hl & _).
    exists (g_year (m_groups m)), (g_month (m_groups m)), (g_day (m_groups m)).
    cbn [date_stamp ds_start ds_end base_filename]. unfold m_end, len.
    rewrite Ht, !length_app. repeat split; auto; lia.
  - left. cbn. auto.
Qed.

(** Extra X1.  An entry has either no date stamp and the span (-1, -1),
    or a date stamp made of a year in [1900, 2099], a month 01-12 and a
    day 01-31 joined by dashes, with a span of 14 to 22 characters that
    lies inside the base name. *)
Theorem File_init_span_and_stamp (fn : str) (msize : Z) :
  (date_stamp (File_init fn msize) = []
   /\ ds_start (File_init fn msize) = -1 /\ ds_end (File_init fn msize) = -1)
  \/ (exists y m d,
        date_stamp (File_init fn msize) = y ++ "-"%char :: m ++ "-"%char :: d
        /\ is_year y = true /\ is_month m = true /\ is_day d = true
        /\ 0 <= ds_start (File_init fn msize)
        /\ ds_start (File_init fn msize) + 14 <= ds_end (File_init fn msize)
        /\ ds_end (File_init fn msize) <= ds_start (File_init fn msize) + 22
        /\ ds_end (File_init fn msize) <= len (base_filename (File_init fn msize))).
Proof. apply File_init_cases. Qed.

(** Extra X2.  The date stamp is empty exactly when the base name has, at
    no offset, a year, month and day followed by a time-like tail. *)
Theorem date_stamp_empty_iff (fn : str) (msize : Z) :
  date_stamp (File_init fn msize) = [] <->
  forall i y m d, ~ dated_at (basename fn) i y m d.
Proof.
  unfold File_init. destruct (search (basename fn)) as [mt|] eqn:E;
    cbn [date_stamp]; split.
  - intros H. destruct (g_year (m_groups mt)); discriminate.
  - intros H. exfalso.
    apply search_from_sound in E as (pre & rest & more & Ht & Hs & Hm).
    assert (In (m_groups mt, rest) (r_date_stamp (g_all (m_groups mt) ++ rest))) as Hin
        by (rewrite Hm; now left).
    apply (H (List.length pre) (g_year (m_groups mt)) (g_month (m_groups mt))
             (g_day (m_groups mt))).
    apply (dated_at_skipn _ _ (m_groups mt) rest).
    + rewrite Ht, length_app. lia.
    + rewrite Ht, skipn_app, skipn_all, Nat.sub_diag. exact Hin.
  - intros _ i y m d (pre & s1 & s2 & tm & rest & Ht & Hi & Hv).
    pose proof (search_from_none _ _ E i) as Hnone.
    rewrite Ht, <- Hi, skipn_app, skipn_all, Nat.sub_diag in Hnone.
    cbn [skipn app] in Hnone.
    assert (In (mkGroups y s1 m s2 d (y ++ s1 ++ m ++ s2 ++ d ++ tm), rest)
              (r_date_stamp (y ++ s1 ++ m ++ s2 ++ d ++ tm ++ rest))) as Hin
        by (apply r_date_stamp_in; exists y, s1, m, s2, d, tm; tauto).
    rewrite Hnone in Hin. destruct Hin.
  - reflexivity.
Qed.

Lemma ch_eqb_neq (a b : ascii) : ch_eqb a b = false <-> a <> b.
Proof.
  split.
  - intros H E. apply ch_eqb_eq in E. congruence.
  - intros H. destruct (ch_eqb a b) eqn:E; [|reflexivity]. apply ch_eqb_eq in E.
    contradiction.
Qed.

Lemma basename_split (t : str) :
  (exists dir, t = dir ++ basename t) /\ ~ In "/"%char (basename t).
Proof.
  induction t as [|c t [(dir & IHd) IHn]]; cbn [basename].
  - split; [now exists []|intros []].
  - destruct (existsb (ch_eqb "/") t) eqn:E.
    + split; [|exact IHn]. exists (c :: dir). cbn [app]. now rewrite <- IHd.
    + assert (~ In "/"%char t) as Hnot.
      { intros Hin.
        assert (existsb (ch_eqb "/") t = true) as E'
            by (apply existsb_exists; exists "/"%char; split;
                [exact Hin|now apply ch_eqb_eq]).
        congruence. }
      destruct (ch_eqb c "/") eqn:Ec.
      * split; [now exists [c]|exact Hnot].
      * split; [now exists []|]. apply ch_eqb_neq in Ec.
        intros [Hc|Hin]; [congruence|contradiction].
Qed.

Lemma before_first_split (c : ascii) (t : str) :
  (exists rest, t = before_first c t ++ rest) /\ ~ In c (before_first c t).
Proof.
  induction t as [|x t [(rest & IHr) IHn]]; cbn [before_first].
  - split; [now exists []|intros []].
  - destruct (ch_eqb x c) eqn:E.
    + split; [now exists (x :: t)|intros []].
    + split; [exists rest; cbn [app]; now rewrite <- IHr|].
      apply ch_eqb_neq in E. intros [Hx|Hin]; [congruence|contradiction].
Qed.

(** Extra X3.  The names the constructor derives: the base name is the
    end of the path and has no slash, the stem is the start of the base
    name and has no dot, and the normalized stem has the length of the
    stem and no underscore. *)
Theorem File_init_names (fn : str) (msize : Z) :
  original_filename (File_init fn msize) = fn
  /\ (exists dir, fn = dir ++ base_filename (File_init fn msize))
  /\ ~ In "/"%char (base_filename (File_init fn msize))
  /\ (exists ext,
        base_filename (File_init fn msize) = filename (File_init fn msize) ++ ext)
  /\ ~ In "."%char (filename (File_init fn msize))
  /\ List.length (internal_filename (File_init fn msize))
     = List.length (filename (File_init fn msize))
  /\ ~ In "_"%char (internal_filename (File_init fn msize)).
Proof.
  assert (original_filename (File_init fn msize) = fn
          /\ base_filename (File_init fn msize) = basename fn
          /\ filename (File_init fn msize) = before_first "." (basename fn)
          /\ internal_filename (File_init fn msize)
             = replace_char "_" "-" (before_first "." (basename fn)))
    as (-> & -> & -> & ->)
      by (unfold File_init; destruct (search (basename fn)); cbn; auto).
  destruct (basename_split fn) as [Hdir Hslash].
  destruct (before_first_split "." (basename fn)) as [Hext Hdot].
  repeat (split; [assumption || reflexivity|]).
  split; [apply length_map|].
  unfold replace_char. rewrite in_map_iff. intros (c & Hc & _).
  destruct (ch_eqb c "_") eqn:E; [discriminate|].
  apply ch_eqb_neq in E. congruence.
Qed.

(** ** What [get_bucket] does to the store *)

(** Extra X4.  A call of [get_bucket] that returns leaves every other
    entry as it was, and of its own entry changes at most one offset by
    one: [ds_start] down or [ds_end] up, never both. *)
Theorem get_bucket_effect (self : ref) (h h' : heap) (k : str) :
  get_bucket self h = Ok (k, h') ->
  (forall r, r <> self -> h' r = h r)
  /\ same_names (h self) (h' self)
  /\ ((ds_start (h' self) = ds_start (h self) /\ ds_end (h' self) = ds_end (h self))
      \/ (ds_start (h' self) = ds_start (h self) - 1
          /\ ds_end (h' self) = ds_end (h self))
      \/ (ds_start (h' self) = ds_start (h self)
          /\ ds_end (h' self) = ds_end (h self) + 1)).
Proof.
  unfold get_bucket. intros H.
  repeat match type of H with
         | (if ?c then _ else _) = _ => destruct c
         | match ?c with _ => _ end = _ => destruct c
         end;
    try discriminate; injection H as _ <-.
  all: split;
    [ intros r Hr; unfold upd; try reflexivity;
      try (destruct (Nat.eqb_spec r self); [contradiction|reflexivity]) | ].
  all: unfold upd; rewrite ?Nat.eqb_refl;
    split; [unfold same_names; cbn; tauto|cbn; auto].
Qed.

Lemma get_bucket_effect_witness :
  get_bucket 0%nat (heap_of dashed_name)
  = Ok (s "db-backup",
        upd 0%nat (set_ds_start 9 (heap_of dashed_name 0%nat)) (heap_of dashed_name))
  /\ ds_start (heap_of dashed_name 0%nat) = 10
  /\ ds_start (upd 0%nat (set_ds_start 9 (heap_of dashed_name 0%nat))
                 (heap_of dashed_name) 0%nat)
     = ds_start (heap_of dashed_name 0%nat) - 1.
Proof.
  assert (get_bucket 0%nat (heap_of dashed_name)
          = Ok (s "db-backup",
                upd 0%nat (set_ds_start 9 (heap_of dashed_name 0%nat))
                    (heap_of dashed_name))) as H by (vm_compute; reflexivity).
  split; [exact H|]. split; [reflexivity|].
  destruct (get_bucket_effect _ _ _ _ H) as (_ & _ & [[E _]|[[E _]|[E _]]]);
    vm_compute; reflexivity.
Defined.

(** Extra X5.  The key [get_bucket] returns is ['default'], or the start
    of the normalized stem, or its end. *)
Theorem get_bucket_key_shape (self : ref) (h h' : heap) (k : str) :
  get_bucket self h = Ok (k, h') ->
  k = s "default"
  \/ (exists post, internal_filename (h self) = k ++ post)
  \/ (exists pre, internal_filename (h self) = pre ++ k).
Proof.
  unfold get_bucket, py_slice_to, py_slice_from. intros H.
  repeat match type of H with
         | (if ?c then _ else _) = _ => destruct c
         | match ?c with _ => _ end = _ => destruct c eqn:?
         end;
    try discriminate; injection H as <- _;
    try (left; reflexivity);
    try (right; right; now exists []);
    try (right; left; eexists; symmetry; apply firstn_skipn);
    right; right;
    match goal with
    | E : skipn ?n ?t = _ |- _ => exists (firstn n t); rewrite <- E; symmetry;
                                   apply firstn_skipn
    end.
Qed.

Lemma get_bucket_key_shape_witness :
  get_bucket 0%nat (heap_of [compact_only])
  = Ok (s "db-backup", heap_of [compact_only])
  /\ (s "db-backup" = s "default"
      \/ (exists post,
            internal_filename (heap_of [compact_only] 0%nat) = s "db-backup" ++ post)
      \/ (exists pre,
            internal_filename (heap_of [compact_only] 0%nat) = pre ++ s "db-backup")).
Proof.
  assert (get_bucket 0%nat (heap_of [compact_only])
          = Ok (s "db-backup", heap_of [compact_only])) as H by reflexivity.
  split; [exact H|].
  exact (get_bucket_key_shape 0%nat (heap_of [compact_only]) (heap_of [compact_only])
           (s "db-backup") H).
Defined.

(** ** When [get_bucket] raises *)

Lemma py_index_inside (t : str) (i : Z) :
  0 <= i < len t -> exists c, py_index t i = Some c.
Proof.
  unfold py_index, len. intros Hi.
  destruct (Z.ltb_spec i 0); [lia|].
  destruct (Z.ltb_spec i 0); [lia|]. destruct (Z.leb_spec (Z.of_nat (List.length t)) i); [lia|].
  cbn [orb]. destruct (nth_error t (Z.to_nat i)) as [c|] eqn:E; [now exists c|].
  apply nth_error_None in E. lia.
Qed.

Lemma py_index_outside (t : str) (i : Z) :
  0 <= i -> len t <= i -> py_index t i = None.
Proof.
  unfold py_index, len. intros H0 Hi.
  destruct (Z.ltb_spec i 0); [lia|].
  destruct (Z.ltb_spec i 0); [lia|].
  destruct (Z.leb_spec (Z.of_nat (List.length t)) i); [reflexivity|lia].
Qed.

(** For an entry whose span is a real one, [get_bucket] raises exactly
    when the span starts past offset 1 and past the end of the normalized
    stem. *)
Lemma get_bucket_index (self : ref) (h : heap) :
  0 <= ds_start (h self) < ds_end (h self) ->
  (get_bucket self h = Raise IndexError <->
   1 < ds_start (h self) /\ len (internal_filename (h self)) < ds_start (h self))
  /\ (get_bucket self h = Raise IndexError
      \/ exists k h', get_bucket self h = Ok (k, h')).
Proof.
  intros Hspan. unfold get_bucket.
  destruct (Z.eqb_spec (ds_start (h self)) (ds_end (h self))) as [E|_]; [lia|].
  cbn [andb].
  destruct (Z.ltb_spec (len (internal_filename (h self)) - ds_end (h self))
              (ds_start (h self))) as [Hp|Hp].
  - destruct (Z.ltb_spec 1 (ds_start (h self))) as [H1|H1].
    + destruct (Z_lt_le_dec (ds_start (h self) - 1) (len (internal_filename (h self))))
        as [Hin|Hout].
      * destruct (py_index_inside (internal_filename (h self)) (ds_start (h self) - 1))
          as (c & ->); [lia|].
        destruct (ch_eqb c "-"); (split; [split; [discriminate|lia]|right; eauto]).
      * rewrite py_index_outside by lia. split; [split; [lia|reflexivity]|now left].
    + split; [split; [discriminate|lia]|right; eauto].
  - destruct (Z.ltb_spec (ds_end (h self)) (len (internal_filename (h self)))) as [He|He].
    + destruct (py_index_inside (internal_filename (h self)) (ds_end (h self)))
        as (c & ->); [lia|].
      destruct (ch_eqb c "-");
        match goal with
        | |- context [match py_slice_from ?t ?e with _ => _ end] =>
            destruct (py_slice_from t e)
        end;
        (split; [split; [discriminate|lia]|right; eauto]).
    + match goal with
      | |- context [match py_slice_from ?t ?e with _ => _ end] =>
          destruct (py_slice_from t e)
      end;
        (split; [split; [discriminate|lia]|right; eauto]).
Qed.

Lemma before_first_short (c : ascii) (t : str) :
  forall n, (n <= List.length t)%nat ->
    ((List.length (before_first c t) < n)%nat <-> In c (firstn n t)).
Proof.
  induction t as [|x t IH]; intros n Hn.
  - simpl in Hn. assert (n = 0%nat) as -> by lia. simpl. split; [lia|intros []].
  - destruct n as [|n]; [simpl; split; [lia|intros []]|].
    cbn [before_first firstn]. simpl in Hn.
    destruct (ch_eqb x c) eqn:E.
    + apply ch_eqb_eq in E. subst x. simpl. split; [auto|lia].
    + apply ch_eqb_neq in E. cbn [List.length In].
      rewrite <- (IH n) by lia. split; [intros H; right; lia|].
      intros [H|H]; [congruence|lia].
Qed.

Lemma File_init_stem (fn : str) (msize : Z) :
  internal_filename (File_init fn msize)
  = replace_char "_" "-" (before_first "." (base_filename (File_init fn msize))).
Proof. unfold File_init. destruct (search (basename fn)); reflexivity. Qed.

(** Extra X6.  On an entry as the constructor built it, [get_bucket]
    either returns or raises [IndexError], and it raises exactly when the
    date starts past offset 1 and a dot comes before it in the base name. *)
Theorem get_bucket_of_new_entry (h : heap) (self : ref) (fn : str) (msize : Z) :
  h self = File_init fn msize ->
  (get_bucket self h = Raise IndexError <->
   1 < ds_start (h self)
   /\ In "."%char (firstn (Z.to_nat (ds_start (h self))) (base_filename (h self))))
  /\ (get_bucket self h = Raise IndexError
      \/ exists k h', get_bucket self h = Ok (k, h')).
Proof.
  intros Hself.
  destruct (File_init_cases fn msize)
    as [(_ & Hs & He)|(y & m & d & _ & _ & _ & _ & H0 & H14 & _ & Hlen)];
    rewrite <- Hself in *.
  - unfold get_bucket. rewrite Hs, He. cbn.
    split; [split; [discriminate|lia]|right; eauto].
  - destruct (get_bucket_index self h) as [Hiff Hor]; [lia|].
    split; [|exact Hor]. rewrite Hiff.
    assert (len (internal_filename (h self)) < ds_start (h self) <->
            In "."%char (firstn (Z.to_nat (ds_start (h self))) (base_filename (h self))))
      as Hdot.
    { rewrite Hself, File_init_stem, <- Hself. unfold len, replace_char.
      rewrite length_map.
      rewrite <- (before_first_short "." (base_filename (h self))
                    (Z.to_nat (ds_start (h self)))) by (unfold len in Hlen; lia).
      lia. }
    tauto.
Qed.

Lemma get_bucket_of_new_entry_witness :
  heap_of dotted_name 0%nat = File_init (s "backup.2022-12-16-17-28-25.gz.gpg") 0
  /\ (get_bucket 0%nat (heap_of dotted_name) = Raise IndexError <->
      1 < ds_start (heap_of dotted_name 0%nat)
      /\ In "."%char (firstn (Z.to_nat (ds_start (heap_of dotted_name 0%nat)))
                        (base_filename (heap_of dotted_name 0%nat))))
  /\ (get_bucket 0%nat (heap_of dotted_name) = Raise IndexError
      \/ exists k h', get_bucket 0%nat (heap_of dotted_name) = Ok (k, h')).
Proof.
  assert (heap_of dotted_name 0%nat
          = File_init (s "backup.2022-12-16-17-28-25.gz.gpg") 0) as H by reflexivity.
  split; [exact H|].
  exact (get_bucket_of_new_entry (heap_of dotted_name) 0%nat
           (s "backup.2022-12-16-17-28-25.gz.gpg") 0 H).
Defined.

(** ** What [split_into_buckets] returns *)

Lemma Subseq_refl (l : list ref) : Subseq l l.
Proof. induction l; constructor; assumption. Qed.

Lemma Subseq_nil_l (l : list ref) : Subseq [] l.
Proof. induction l; constructor; assumption. Qed.

Lemma Subseq_app (a b c d : list ref) :
  Subseq a b -> Subseq c d -> Subseq (a ++ c) (b ++ d).
Proof.
  intros Hab Hcd. induction Hab; cbn [app]; [assumption| |]; constructor; assumption.
Qed.

Lemma Subseq_grow (l pre : list ref) (f : ref) :
  Subseq l pre -> Subseq l (pre ++ [f]) /\ Subseq (l ++ [f]) (pre ++ [f]).
Proof.
  intros H. split.
  - rewrite <- (app_nil_r l). apply Subseq_app; [exact H|]. constructor. constructor.
  - apply Subseq_app; [exact H|apply Subseq_refl].
Qed.

Lemma Subseq_In (l l' : list ref) (x : ref) : Subseq l l' -> In x l -> In x l'.
Proof.
  intros H. induction H; simpl; intros Hx; [assumption|right; auto|].
  destruct Hx; [now left|right; auto].
Qed.

Lemma dict_append_in (k : str) (f : ref) (d : series) (k' : str) (l' : list ref) :
  In (k', l') (dict_append k f d) ->
  In (k', l') d \/ exists l, In (k', l) d /\ l' = l ++ [f].
Proof.
  induction d as [|[k0 l0] d IH]; cbn [dict_append]; [intros []|].
  destruct (str_eqb k k0).
  - intros [E|H]; [|left; now right]. injection E as <- <-.
    right. exists l0. split; [now left|reflexivity].
  - intros [E|H]; [left; now left|].
    destruct (IH H) as [H'|(l & H' & ->)]; [left; now right|].
    right. exists l. split; [now right|reflexivity].
Qed.

Lemma dict_set_in (k : str) (v : list ref) (d : series) (k' : str) (l' : list ref) :
  In (k', l') (dict_set k v d) -> In (k', l') d \/ l' = v.
Proof.
  induction d as [|[k0 l0] d IH]; cbn [dict_set].
  - intros [E|[]]. injection E as _ <-. now right.
  - destruct (str_eqb k k0).
    + intros [E|H]; [|left; now right]. injection E as _ <-. now right.
    + intros [E|H]; [left; now left|].
      destruct (IH H) as [H'| ->]; [left; now right|now right].
Qed.

Lemma dict_mem_keys (k : str) (d : series) :
  dict_mem k d = true <-> In k (map fst d).
Proof.
  induction d as [|[k0 l0] d IH]; cbn [dict_mem map fst In]; [split; [discriminate|tauto]|].
  rewrite orb_true_iff, str_eqb_eq, IH. split; intros [H|H]; auto.
Qed.

Lemma dict_append_keys (k : str) (f : ref) (d : series) :
  map fst (dict_append k f d) = map fst d.
Proof.
  induction d as [|[k0 l0] d IH]; cbn [dict_append]; [reflexivity|].
  destruct (str_eqb k k0); cbn [map fst]; [reflexivity|now rewrite IH].
Qed.

Lemma dict_set_keys (k : str) (v : list ref) (d : series) :
  map fst (dict_set k v d) = if dict_mem k d then map fst d else map fst d ++ [k].
Proof.
  induction d as [|[k0 l0] d IH]; cbn [dict_set dict_mem]; [reflexivity|].
  destruct (str_eqb k k0); cbn [map fst orb]; [reflexivity|].
  rewrite IH. now destruct (dict_mem k d).
Qed.

Lemma split_loop_order (rest : list ref) :
  forall (pre : list ref) (buckets d : series) (h h' : heap),
    (forall k l, In (k, l) buckets -> l <> [] /\ Subseq l pre) ->
    NoDup (map fst buckets) ->
    split_loop rest buckets h = Ok (d, h') ->
    (forall k l, In (k, l) d -> l <> [] /\ Subseq l (pre ++ rest))
    /\ NoDup (map fst d).
Proof.
  induction rest as [|f rest IH]; intros pre buckets d h h' Hinv Hkeys H;
    cbn [split_loop] in H.
  - injection H as <- _. rewrite app_nil_r. auto.
  - unfold mbind in H.
    destruct (get_bucket f h) as [[k h1]| |] eqn:E1; try discriminate.
    replace (pre ++ f :: rest) with ((pre ++ [f]) ++ rest)
      by (rewrite <- app_assoc; reflexivity).
    destruct (dict_mem k buckets) eqn:Hmem.
    + apply (IH (pre ++ [f])) in H; [exact H| |now rewrite dict_append_keys].
      intros k' l' Hin. apply dict_append_in in Hin as [Hin|(l & Hin & ->)].
      * destruct (Hinv _ _ Hin) as [Hne Hsub]. split; [exact Hne|].
        now apply Subseq_grow.
      * destruct (Hinv _ _ Hin) as [Hne Hsub].
        split; [destruct l; discriminate|now apply Subseq_grow].
    + destruct (get_bucket f h1) as [[k2 h2]| |] eqn:E2; try discriminate.
      apply (IH (pre ++ [f])) in H; [exact H| |].
      * intros k' l' Hin. apply dict_set_in in Hin as [Hin| ->].
        -- destruct (Hinv _ _ Hin) as [Hne Hsub]. split; [exact Hne|].
           now apply Subseq_grow.
        -- split; [discriminate|].
           apply (Subseq_app [] pre [f] [f]); [apply Subseq_nil_l|apply Subseq_refl].
      * rewrite dict_set_keys. destruct (dict_mem k2 buckets) eqn:Hmem2; [exact Hkeys|].
        apply NoDup_app; [exact Hkeys|repeat constructor; intros []|].
        intros x Hx [<-|[]]. apply dict_mem_keys in Hx. congruence.
Qed.

Lemma split_into_buckets_order_aux (file_list : list ref) (h h' : heap) (d : series) :
  split_into_buckets file_list h = Ok (d, h') ->
  NoDup (map fst d)
  /\ forall k l, In (k, l) d -> l <> [] /\ Subseq l file_list.
Proof.
  intros H. unfold split_into_buckets in H.
  apply (split_loop_order file_list [] [] d h h') in H.
  - destruct H. auto.
  - intros k l [].
  - constructor.
Qed.

(** Extra X7.  When [split_into_buckets] returns, no key appears twice,
    no bucket is empty, and every bucket lists entries of the input in
    the order of the input. *)
Theorem split_into_buckets_order (file_list : list ref) (h h' : heap) (d : series) :
  split_into_buckets file_list h = Ok (d, h') ->
  NoDup (map fst d)
  /\ forall k l, In (k, l) d -> l <> [] /\ Subseq l file_list.
Proof. apply split_into_buckets_order_aux. Qed.

Lemma split_into_buckets_order_witness :
  split_into_buckets (refs_of date_only_pair) (heap_of date_only_pair)
  = Ok ([(s "db-backup-2023-01-01", [0%nat]); (s "db-backup-2023-01-02", [1%nat])],
        heap_of date_only_pair)
  /\ NoDup [s "db-backup-2023-01-01"; s "db-backup-2023-01-02"]
  /\ forall k l,
       In (k, l) [(s "db-backup-2023-01-01", [0%nat]); (s "db-backup-2023-01-02", [1%nat])] ->
       l <> [] /\ Subseq l (refs_of date_only_pair).
Proof.
  assert (split_into_buckets (refs_of date_only_pair) (heap_of date_only_pair)
          = Ok ([(s "db-backup-2023-01-01", [0%nat]); (s "db-backup-2023-01-02", [1%nat])],
                heap_of date_only_pair)) as H by reflexivity.
  split; [exact H|].
  exact (split_into_buckets_order _ _ _ _ H).
Defined.

Lemma str_eqb_refl (a : str) : str_eqb a a = true.
Proof. now apply str_eqb_eq. Qed.

Lemma str_eqb_neq (a b : str) : str_eqb a b = false <-> a <> b.
Proof.
  split.
  - intros H E. apply str_eqb_eq in E. congruence.
  - intros H. destruct (str_eqb a b) eqn:E; [|reflexivity].
    apply str_eqb_eq in E. contradiction.
Qed.

Lemma dict_get_mem (k : str) (d : series) :
  dict_mem k d = false <-> dict_get k d = None.
Proof.
  induction d as [|[k0 l0] d IH]; cbn [dict_mem dict_get]; [tauto|].
  destruct (str_eqb k k0); cbn [orb]; [split; discriminate|exact IH].
Qed.

Lemma dict_get_append (k : str) (f : ref) (d : series) (k' : str) :
  dict_get k' (dict_append k f d)
  = if str_eqb k' k then option_map (fun l => l ++ [f]) (dict_get k' d)
    else dict_get k' d.
Proof.
  induction d as [|[k0 l0] d IH]; cbn [dict_append dict_get].
  - now destruct (str_eqb k' k).
  - destruct (str_eqb k k0) eqn:E0; cbn [dict_get].
    + apply str_eqb_eq in E0. subst k0.
      destruct (str_eqb k' k); reflexivity.
    + rewrite IH. destruct (str_eqb k' k0) eqn:E1; [|reflexivity].
      apply str_eqb_eq in E1. subst k0.
      destruct (str_eqb k' k) eqn:E2; [|reflexivity].
      apply str_eqb_eq in E2. subst k'. rewrite str_eqb_refl in E0. discriminate.
Qed.

Lemma dict_get_set (k : str) (v : list ref) (d : series) (k' : str) :
  dict_get k' (dict_set k v d) = if str_eqb k' k then Some v else dict_get k' d.
Proof.
  induction d as [|[k0 l0] d IH]; cbn [dict_set dict_get]; [reflexivity|].
  destruct (str_eqb k k0) eqn:E0; cbn [dict_get].
  - apply str_eqb_eq in E0. subst k0. destruct (str_eqb k' k); reflexivity.
  - rewrite IH. destruct (str_eqb k' k0) eqn:E1; [|reflexivity].
    apply str_eqb_eq in E1. subst k0.
    destruct (str_eqb k' k) eqn:E2; [|reflexivity].
    apply str_eqb_eq in E2. subst k'. rewrite str_eqb_refl in E0. discriminate.
Qed.

Lemma split_loop_settled (h : heap) (key : ref -> str) (rest : list ref) :
  forall (buckets : series),
    (forall r, In r rest -> get_bucket r h = Ok (key r, h)) ->
    exists d,
      split_loop rest buckets h = Ok (d, h)
      /\ forall k,
           dict_get k d
           = match dict_get k buckets with
             | Some l0 => Some (l0 ++ filter (fun r => str_eqb k (key r)) rest)
             | None => as_bucket (filter (fun r => str_eqb k (key r)) rest)
             end.
Proof.
  induction rest as [|f rest IH]; intros buckets Hkey; cbn [split_loop].
  - exists buckets. split; [reflexivity|]. intros k. cbn [filter as_bucket].
    destruct (dict_get k buckets); [now rewrite app_nil_r|reflexivity].
  - unfold mbind. rewrite (Hkey f (or_introl eq_refl)).
    assert (forall r, In r rest -> get_bucket r h = Ok (key r, h)) as Hrest
        by (intros r Hr; apply Hkey; now right).
    destruct (dict_mem (key f) buckets) eqn:Hmem.
    + destruct (IH (dict_append (key f) f buckets) Hrest) as (d & Hd & Hget).
      exists d. split; [exact Hd|]. intros k. rewrite Hget, dict_get_append.
      cbn [filter]. destruct (str_eqb k (key f)) eqn:E.
      * apply str_eqb_eq in E. subst k.
        destruct (dict_get (key f) buckets) as [l0|] eqn:Hg.
        -- cbn [option_map]. now rewrite <- app_assoc.
        -- apply dict_get_mem in Hg. congruence.
      * reflexivity.
    + rewrite (Hkey f (or_introl eq_refl)).
      destruct (IH (dict_set (key f) [f] buckets) Hrest) as (d & Hd & Hget).
      exists d. split; [exact Hd|]. intros k. rewrite Hget, dict_get_set.
      cbn [filter]. destruct (str_eqb k (key f)) eqn:E.
      * apply str_eqb_eq in E. subst k. apply dict_get_mem in Hmem.
        rewrite Hmem. reflexivity.
      * reflexivity.
Qed.

(** Extra X8.  When [get_bucket] moves no offset of any entry of the
    list, [split_into_buckets] returns with the store as it was, and the
    bucket of a key lists, in the order of the input, all the entries of
    the input that have this key: none is left out. *)
Theorem split_into_buckets_settled (file_list : list ref) (h : heap)
  (key : ref -> str) :
  (forall r, In r file_list -> get_bucket r h = Ok (key r, h)) ->
  exists d,
    split_into_buckets file_list h = Ok (d, h)
    /\ forall k,
         dict_get k d = as_bucket (filter (fun r => str_eqb k (key r)) file_list).
Proof.
  intros Hkey. destruct (split_loop_settled h key file_list [] Hkey) as (d & Hd & Hget).
  exists d. split; [exact Hd|]. intros k. now rewrite Hget.
Qed.

Lemma split_into_buckets_settled_witness :
  (forall r, In r (refs_of compact_pair) ->
     get_bucket r (heap_of compact_pair) = Ok (s "db-backup", heap_of compact_pair))
  /\ exists d,
       split_into_buckets (refs_of compact_pair) (heap_of compact_pair)
       = Ok (d, heap_of compact_pair)
       /\ forall k,
            dict_get k d
            = as_bucket (filter (fun _ => str_eqb k (s "db-backup")) (refs_of compact_pair)).
Proof.
  assert (forall r, In r (refs_of compact_pair) ->
            get_bucket r (heap_of compact_pair) = Ok (s "db-backup", heap_of compact_pair))
    as H by (intros r [<-|[<-|[]]]; reflexivity).
  split; [exact H|].
  exact (split_into_buckets_settled (refs_of compact_pair) (heap_of compact_pair)
           (fun _ => s "db-backup") H).
Defined.

(** ** What [create_time_buckets] files, and where *)

Lemma list_remove_incl (h : heap) (f : ref) (files l : list ref) :
  list_remove h f files = Some l -> forall x, In x l -> In x files.
Proof.
  revert l. induction files as [|y files IH]; intros l H x Hx; cbn [list_remove] in H;
    [discriminate|].
  destruct (File_eqb (h y) (h f)).
  - injection H as <-. now right.
  - destruct (list_remove h f files) as [l'|]; [|discriminate].
    injection H as <-. destruct Hx as [<-|Hx]; [now left|right; eauto].
Qed.

Lemma remove_each_incl (h : heap) (p : list ref) :
  forall files l, remove_each h p files = Some l -> forall x, In x l -> In x files.
Proof.
  induction p as [|f p IH]; intros files l H x Hx; cbn [remove_each] in H.
  - injection H as <-. exact Hx.
  - destruct (list_remove h f files) as [files'|] eqn:E; [|discriminate].
    eapply list_remove_incl; [exact E|]. eapply IH; eauto.
Qed.

Lemma time_loop_filed (h : heap) (rp : RetentionPolicy) (now : Z) (fuel : nat) :
  forall (k : Z) (files : list ref) (b : TimeBuckets) (res : sorted),
    time_loop h rp now fuel k files b = Ok res ->
    (forall r g i, In_slot r g i (buckets_of res) ->
       In_slot r g i b
       \/ (In r files /\ exists j, k <= j < max_days - 1 /\ hit h now j r = true
             /\ classify rp (j + 1) = (g, i)))
    /\ forall r, In r (files_left res) -> In r files.
Proof.
  induction fuel as [|fuel IH]; intros k files b res Hres;
    cbn [time_loop] in Hres; [discriminate|].
  destruct files as [|f0 files'].
  - injection Hres as <-. cbn. auto.
  - destruct (now - k <? 1); [discriminate|].
    destruct (Z.leb_spec max_days (k + 1)) as [Hc|Hc].
    + injection Hres as <-. cbn [buckets_of files_left]. auto.
    + pose proof (scan_day_spec h rp (stamp_of_ordinal (now - k)) (k + 1)
                    (f0 :: files') b) as [Hb _].
      destruct (scan_day h rp (stamp_of_ordinal (now - k)) (k + 1) (f0 :: files') b)
        as [b1 p].
      cbn [fst] in Hb.
      destruct (remove_each h p (f0 :: files')) as [files1|] eqn:Hrem; [|discriminate].
      destruct (IH _ _ _ _ Hres) as [Hs Hl]. split.
      * intros r g i Hin. destruct (Hs r g i Hin) as [H1|(Hr & j & Hj & Hh & Hcls)].
        -- apply Hb in H1 as [H1|(Hr & Hh & -> & ->)]; [now left|].
           right. split; [exact Hr|]. exists k. repeat split; try lia; auto.
           unfold gen_of, slot_of. now destruct (classify rp (k + 1)).
        -- right. split; [exact (remove_each_incl _ _ _ _ Hrem r Hr)|].
           exists j. repeat split; try lia; auto.
      * intros r Hr. exact (remove_each_incl _ _ _ _ Hrem r (Hl r Hr)).
Qed.

Lemma classify_window (rp : RetentionPolicy) (d : Z) :
  1 <= d -> index_in_window rp (fst (classify rp d)) (snd (classify rp d)).
Proof.
  intros Hd. unfold classify.
  repeat match goal with
         | |- context [?a <=? ?c] => destruct (Z.leb_spec a c)
         end; cbn [fst snd index_in_window]; try lia.
  - split; [apply Z.div_pos; lia|].
    assert (d / 7 < weekly rp + 1) by (apply Z.div_lt_upper_bound; lia). lia.
  - split; [apply Z.div_pos; lia|]. apply Z.div_le_mono; lia.
  - split; [apply Z.div_pos; lia|].
    assert (d / 365 < yearly rp + 1) by (apply Z.div_lt_upper_bound; lia). lia.
Qed.

(** Extra X9.  Whatever [create_time_buckets] returns, the entries it
    files and the entries it leaves in the list are entries of the list it
    was given, and the sub-period index of a filed entry lies in the window
    of its generation: 1 to [daily] for daily, 0 to [weekly] for weekly, 0
    to [(monthly*30+3)//28] for monthly, 0 to [yearly] for yearly, and 0
    for obsolete. *)
Theorem create_time_buckets_members (files : list ref) (rp : RetentionPolicy)
  (now : Z) (h : heap) (res : sorted) :
  create_time_buckets files rp now h = Ok res ->
  (forall r g i, In_slot r g i (buckets_of res) ->
     In r files /\ index_in_window rp g i)
  /\ forall r, In r (files_left res) -> In r files.
Proof.
  intros Hres. destruct (time_loop_filed _ _ _ _ _ _ _ _ Hres) as [Hs Hl].
  split; [|exact Hl]. intros r g i Hin.
  destruct (Hs r g i Hin) as [H|(Hr & j & Hj & _ & Hcls)];
    [now apply empty_buckets_in in H|].
  split; [exact Hr|].
  pose proof (classify_window rp (j + 1)) as Hw. rewrite Hcls in Hw. apply Hw. lia.
Qed.

Lemma create_time_buckets_members_witness :
  create_time_buckets (refs_of weekly_pair) TD_RETENTION TD_TIMESTAMP (heap_of weekly_pair)
  = Ok (mkSorted (mkBuckets [] [(2, [1%nat; 0%nat])] [] [] []) [] false)
  /\ (forall r g i,
        In_slot r g i (mkBuckets [] [(2, [1%nat; 0%nat])] [] [] []) ->
        In r (refs_of weekly_pair) /\ index_in_window TD_RETENTION g i)
  /\ forall r, In r [] -> In r (refs_of weekly_pair).
Proof.
  assert (create_time_buckets (refs_of weekly_pair) TD_RETENTION TD_TIMESTAMP
            (heap_of weekly_pair)
          = Ok (mkSorted (mkBuckets [] [(2, [1%nat; 0%nat])] [] [] []) [] false)) as H
      by (vm_compute; reflexivity).
  split; [exact H|].
  exact (create_time_buckets_members _ _ _ _ _ H).
Defined.

Lemma classify_rank_mono (rp : RetentionPolicy) (d d' : Z) :
  d <= d' -> gen_rank (fst (classify rp d)) <= gen_rank (fst (classify rp d')).
Proof.
  intros Hd. unfold classify.
  repeat match goal with
         | |- context [?a <=? ?c] => destruct (Z.leb_spec a c)
         end; cbn [fst gen_rank]; lia.
Qed.

(** Among the days [k .. k+n-1], either none matches the entry on a day
    within the windows, or there is a first one that does. *)
Lemma first_kept_day (h : heap) (rp : RetentionPolicy) (now : Z) (r : ref) (n : nat) :
  forall k,
    survives h rp now k (k + Z.of_nat n) r
    \/ exists t, k <= t < k + Z.of_nat n /\ hit h now t r = true
         /\ gen_of rp (t + 1) <> Obsolete /\ survives h rp now k t r.
Proof.
  induction n as [|n IH]; intros k.
  - left. intros t Ht. lia.
  - destruct (hit h now k r) eqn:Hk.
    + destruct (generation_eqb (gen_of rp (k + 1)) Obsolete) eqn:Hg.
      * apply generation_eqb_eq in Hg.
        destruct (IH (k + 1)) as [Hs|(t & Ht & Hh & Hne & Hs)].
        -- left. intros t Ht Hh. destruct (Z.eq_dec t k) as [->|Hn]; [exact Hg|].
           apply Hs; [lia|exact Hh].
        -- right. exists t. repeat split; try lia; auto.
           intros u Hu Hhu. destruct (Z.eq_dec u k) as [->|Hn]; [exact Hg|].
           apply Hs; [lia|exact Hhu].
      * right. exists k. repeat split; try lia; auto.
        -- intros E. apply generation_eqb_eq in E. congruence.
        -- intros u Hu. lia.
    + destruct (IH (k + 1)) as [Hs|(t & Ht & Hh & Hne & Hs)].
      * left. intros t Ht Hh. destruct (Z.eq_dec t k) as [->|Hn]; [congruence|].
        apply Hs; [lia|exact Hh].
      * right. exists t. repeat split; try lia; auto.
        intros u Hu Hhu. destruct (Z.eq_dec u k) as [->|Hn]; [congruence|].
        apply Hs; [lia|exact Hhu].
Qed.

(** Extra X10.  For entries built by the constructor and a reference date
    that leaves 40 years to scan, [create_time_buckets] returns; an entry
    of the input is still in the list on return exactly when it is filed
    under no daily, weekly, monthly or yearly slot, and the warning of the
    scan ceiling is logged exactly when the list is not empty on return. *)
Theorem create_time_buckets_list_on_return (files : list ref) (rp : RetentionPolicy)
  (now : Z) (h : heap) :
  max_days <= now -> forallb (fun x => built (h x)) files = true ->
  exists res,
    create_time_buckets files rp now h = Ok res
    /\ (forall r, In r (files_left res) <->
          In r files /\ forall g i, In_slot r g i (buckets_of res) -> g = Obsolete)
    /\ (ceiling_hit res = true <-> files_left res <> []).
Proof.
  intros Hnow Hb. pose proof (built_stems_by_path h files Hb) as Hwf.
  destruct (create_time_buckets_spec h rp now files Hnow Hwf)
    as (res & Hres & Hslot & Hleft & Hceil).
  exists res. split; [exact Hres|]. split; [|exact Hceil].
  intros r. rewrite Hleft. split.
  - intros [Hr Hsv]. split; [exact Hr|]. intros g i Hin.
    apply Hslot in Hin as (_ & j & Hj & Hh & Hcls & _).
    specialize (Hsv j Hj Hh). unfold gen_of in Hsv. now rewrite Hcls in Hsv.
  - intros [Hr Hobs]. split; [exact Hr|].
    destruct (first_kept_day h rp now r (Z.to_nat (max_days - 1)) 0)
      as [Hs|(t & Ht & Hh & Hne & Hs)];
      rewrite Z2Nat.id in * by (unfold max_days; lia).
    + exact Hs.
    + exfalso. apply Hne.
      apply (Hobs (gen_of rp (t + 1)) (slot_of rp (t + 1))). apply Hslot.
      split; [exact Hr|]. exists t. repeat split; try lia; auto.
      unfold gen_of, slot_of. now destruct (classify rp (t + 1)).
Qed.

Lemma create_time_buckets_list_on_return_witness :
  max_days <= TD_TIMESTAMP
  /\ forallb (fun x => built (heap_of weekly_pair x)) (refs_of weekly_pair) = true
  /\ exists res,
       create_time_buckets (refs_of weekly_pair) TD_RETENTION TD_TIMESTAMP
         (heap_of weekly_pair) = Ok res
       /\ (forall r, In r (files_left res) <->
             In r (refs_of weekly_pair)
             /\ forall g i, In_slot r g i (buckets_of res) -> g = Obsolete)
       /\ (ceiling_hit res = true <-> files_left res <> []).
Proof.
  assert (max_days <= TD_TIMESTAMP) as H1 by (vm_compute; discriminate).
  assert (forallb (fun x => built (heap_of weekly_pair x)) (refs_of weekly_pair) = true)
    as H2 by reflexivity.
  repeat (split; [assumption|]).
  exact (create_time_buckets_list_on_return (refs_of weekly_pair) TD_RETENTION
           TD_TIMESTAMP (heap_of weekly_pair) H1 H2).
Defined.

(** Extra X11.  For entries built by the constructor: of two dated
    entries, the one whose first matching day is nearer to the reference
    date is never filed under a coarser generation than the other. *)
Theorem newer_is_never_coarser (files : list ref) (rp : RetentionPolicy)
  (now : Z) (h : heap) :
  max_days <= now -> forallb (fun x => built (h x)) files = true ->
  exists res,
    create_time_buckets files rp now h = Ok res
    /\ forall r1 r2 j1 j2 g1 i1 g2 i2,
         In r1 files -> In r2 files ->
         first_hit h now j1 r1 -> first_hit h now j2 r2 -> j1 <= j2 ->
         In_slot r1 g1 i1 (buckets_of res) -> In_slot r2 g2 i2 (buckets_of res) ->
         gen_rank g1 <= gen_rank g2.
Proof.
  intros Hnow Hb. pose proof (built_stems_by_path h files Hb) as Hwf.
  destruct (create_time_buckets_spec h rp now files Hnow Hwf) as (res & Hres & _).
  exists res. split; [exact Hres|].
  intros r1 r2 j1 j2 g1 i1 g2 i2 Hr1 Hr2 Hj1 Hj2 Hle H1 H2.
  apply (placed_by_first_hit h rp now files res r1 j1 Hnow Hwf Hres Hr1 Hj1) in H1.
  apply (placed_by_first_hit h rp now files res r2 j2 Hnow Hwf Hres Hr2 Hj2) in H2.
  pose proof (classify_rank_mono rp (j1 + 1) (j2 + 1)) as Hm.
  rewrite H1, H2 in Hm. apply Hm. lia.
Qed.

Lemma newer_is_never_coarser_witness :
  max_days <= TD_TIMESTAMP
  /\ forallb (fun x => built (heap_of weekly_pair x)) (refs_of weekly_pair) = true
  /\ exists res,
       create_time_buckets (refs_of weekly_pair) TD_RETENTION TD_TIMESTAMP
         (heap_of weekly_pair) = Ok res
       /\ forall r1 r2 j1 j2 g1 i1 g2 i2,
            In r1 (refs_of weekly_pair) -> In r2 (refs_of weekly_pair) ->
            first_hit (heap_of weekly_pair) TD_TIMESTAMP j1 r1 ->
            first_hit (heap_of weekly_pair) TD_TIMESTAMP j2 r2 -> j1 <= j2 ->
            In_slot r1 g1 i1 (buckets_of res) -> In_slot r2 g2 i2 (buckets_of res) ->
            gen_rank g1 <= gen_rank g2.
Proof.
  assert (max_days <= TD_TIMESTAMP) as H1 by (vm_compute; discriminate).
  assert (forallb (fun x => built (heap_of weekly_pair x)) (refs_of weekly_pair) = true)
    as H2 by reflexivity.
  repeat (split; [assumption|]).
  exact (newer_is_never_coarser (refs_of weekly_pair) TD_RETENTION TD_TIMESTAMP
           (heap_of weekly_pair) H1 H2).
Defined.

(** ** What [list_files_to_prune] returns *)

Lemma filed_entry_of_files (h : heap) (rp : RetentionPolicy) (now : Z)
  (files : list ref) (res : sorted) (r : ref) (g : generation) (i : Z) :
  create_time_buckets files rp now h = Ok res ->
  In_slot r g i (buckets_of res) -> In r files.
Proof.
  intros Hres Hin. destruct (time_loop_filed _ _ _ _ _ _ _ _ Hres) as [Hm _].
  destruct (Hm r g i Hin) as [H1|[H1 _]];
    [now apply empty_buckets_in in H1|exact H1].
Qed.

Lemma prune_series_members (h : heap) (rp : RetentionPolicy) (now : Z)
  (buckets : series) :
  forall acc out, prune_series h rp now buckets acc = Ok out ->
    forall r, In r out ->
      In r acc \/ exists k files, In (k, files) buckets /\ In r files.
Proof.
  induction buckets as [|[name files] buckets IH]; intros acc out H r Hr;
    cbn [prune_series] in H.
  - injection H as <-. now left.
  - destruct (create_time_buckets files rp now h) as [res| |] eqn:Hres;
      try discriminate.
    destruct (select_generations (bucket_items (buckets_of res)) acc)
      as [acc'| |] eqn:Hsel; try discriminate.
    destruct (IH _ _ H r Hr) as [Ha|(k & fs & Hin & Hrf)].
    + destruct (select_generations_in _ _ _ Hsel r Ha) as [H0|(g & i & Hin)];
        [now left|right].
      exists name, files. split; [now left|].
      exact (filed_entry_of_files _ _ _ _ _ _ _ _ Hres Hin).
    + right. exists k, fs. split; [now right|exact Hrf].
Qed.

Lemma value_ok {A} (r : result (A * heap)) (a : A) :
  value r = Ok a -> exists h', r = Ok (a, h').
Proof.
  destruct r as [[a' h']| |]; cbn; intros H; try discriminate.
  injection H as ->. now exists h'.
Qed.

(** Extra X12.  Every entry of the prune list that [list_files_to_prune]
    returns is an entry of the list it was given. *)
Theorem prune_list_within_input (file_list : list ref) (rp : RetentionPolicy)
  (now : Z) (h : heap) (del : list ref) :
  value (list_files_to_prune file_list rp now h) = Ok del ->
  forall r, In r del -> In r file_list.
Proof.
  intros H r Hr. apply value_ok in H as (h' & H).
  unfold list_files_to_prune in H. destruct file_list as [|f0 rest]; [discriminate|].
  unfold mbind, lift in H.
  destruct (split_into_buckets (f0 :: rest) h) as [[d h1]| |] eqn:Hsplit;
    try discriminate.
  destruct (prune_series h1 rp now d []) as [out| |] eqn:Hprune; try discriminate.
  injection H as <- _.
  destruct (prune_series_members _ _ _ _ _ _ Hprune r Hr) as [[]|(k & files & Hin & Hrf)].
  destruct (split_into_buckets_order_aux _ _ _ _ Hsplit) as [_ Hsub].
  destruct (Hsub k files Hin) as [_ Hs]. exact (Subseq_In _ _ _ Hs Hrf).
Qed.

Lemma prune_list_within_input_witness :
  value (list_files_to_prune (refs_of weekly_pair) TD_RETENTION TD_TIMESTAMP
           (heap_of weekly_pair)) = Ok [0%nat]
  /\ forall r, In r [0%nat] -> In r (refs_of weekly_pair).
Proof.
  assert (value (list_files_to_prune (refs_of weekly_pair) TD_RETENTION TD_TIMESTAMP
                   (heap_of weekly_pair)) = Ok [0%nat]) as H by (vm_compute; reflexivity).
  split; [exact H|].
  exact (prune_list_within_input _ _ _ _ _ H).
Defined.

(** ** Nothing is filed twice *)

Lemma NoDup_app_disjoint (a b : list ref) (x : ref) :
  NoDup (a ++ b) -> In x a -> In x b -> False.
Proof.
  induction a as [|y a IH]; cbn [app]; intros H Ha Hb; [destruct Ha|].
  apply NoDup_cons_iff in H as [Hy H]. destruct Ha as [->|Ha].
  - apply Hy, in_or_app. now right.
  - exact (IH H Ha Hb).
Qed.

Lemma perm_insert (a x x' c : list ref) (f : ref) :
  Permutation x' (x ++ [f]) ->
  Permutation (a ++ x' ++ c) ((a ++ x ++ c) ++ [f]).
Proof.
  intros H. rewrite <- !app_assoc. apply Permutation_app_head.
  transitivity ((x ++ [f]) ++ c); [now apply Permutation_app_tail|].
  rewrite <- app_assoc. apply Permutation_app_head, Permutation_app_comm.
Qed.

Lemma slot_append_entries (k : Z) (f : ref) (d : slots) :
  Permutation (entries_of (slot_append k f d)) (entries_of d ++ [f]).
Proof.
  unfold entries_of. induction d as [|[k0 l0] d IH]; cbn [slot_append].
  - cbn. constructor. constructor.
  - destruct (k =? k0); cbn [map snd List.concat].
    + apply (perm_insert [] l0 (l0 ++ [f]) (List.concat (map snd d)) f).
      apply Permutation_refl.
    + rewrite <- app_assoc. now apply Permutation_app_head.
Qed.

Lemma slot_append_nonempty (k : Z) (f : ref) (d : slots) :
  (forall i l, In (i, l) d -> l <> []) ->
  forall i l, In (i, l) (slot_append k f d) -> l <> [].
Proof.
  induction d as [|[k0 l0] d IH]; cbn [slot_append]; intros Hd i l.
  - intros [E|[]]. injection E as _ <-. discriminate.
  - destruct (k =? k0).
    + intros [E|H]; [|apply (Hd i l); now right].
      injection E as _ <-. destruct l0; discriminate.
    + intros [E|H]; [apply (Hd i l); now left|].
      apply (IH (fun i' l' H' => Hd i' l' (or_intror H')) i l H).
Qed.

Lemma bucket_append_full (g : generation) (k : Z) (f : ref) (b : TimeBuckets) :
  full_slots b -> full_slots (bucket_append g k f b).
Proof.
  intros Hb g' i l. destruct g, g'; cbn;
    try (apply (Hb Daily)); try (apply (Hb Weekly)); try (apply (Hb Monthly));
    try (apply (Hb Yearly)); try (apply (Hb Obsolete));
    apply slot_append_nonempty; intros i' l'.
  - apply (Hb Daily).
  - apply (Hb Weekly).
  - apply (Hb Monthly).
  - apply (Hb Yearly).
  - apply (Hb Obsolete).
Qed.

Lemma bucket_append_filed (g : generation) (k : Z) (f : ref) (b : TimeBuckets) :
  Permutation (filed (bucket_append g k f b))
              (if keeps_in_list g then filed b else filed b ++ [f]).
Proof.
  pose proof (slot_append_entries k f) as Hp.
  unfold filed. destruct g; cbn [bucket_append keeps_in_list generation_eqb
                                 b_daily b_weekly b_monthly b_yearly].
  - apply (perm_insert [] _ _ _ f), Hp.
  - apply (perm_insert _ _ _ _ f), Hp.
  - rewrite !(app_assoc (entries_of (b_daily b))).
    apply (perm_insert _ _ _ _ f), Hp.
  - rewrite <- !app_assoc. do 3 apply Permutation_app_head. apply Hp.
  - apply Permutation_refl.
Qed.

Lemma scan_fold_filed (h : heap) (rp : RetentionPolicy) (stamp : str) (d : Z)
  (files : list ref) :
  forall (b : TimeBuckets) (p : list ref),
    let m := fun r => contains stamp (internal_filename (h r)) in
    let res :=
      fold_left (fun st f => if m f then sort_file rp d f st else st) files (b, p) in
    Permutation (filed (fst res))
      (filed b ++ (if keeps_in_list (gen_of rp d) then [] else filter m files))
    /\ (full_slots b -> full_slots (fst res)).
Proof.
  induction files as [|f files IH]; intros b p m; cbn [fold_left fst filter].
  - split; [|auto]. destruct (keeps_in_list (gen_of rp d)); now rewrite app_nil_r.
  - fold m. destruct (m f) eqn:Hf.
    + rewrite sort_file_classify. fold (gen_of rp d) (slot_of rp d).
      destruct (IH (bucket_append (gen_of rp d) (slot_of rp d) f b)
                   (if keeps_in_list (gen_of rp d) then p else p ++ [f])) as [IH1 IH2].
      split.
      * etransitivity; [exact IH1|].
        pose proof (bucket_append_filed (gen_of rp d) (slot_of rp d) f b) as Hb.
        destruct (keeps_in_list (gen_of rp d)).
        -- now apply Permutation_app_tail.
        -- transitivity ((filed b ++ [f]) ++ filter m files);
             [now apply Permutation_app_tail|].
           rewrite <- app_assoc. apply Permutation_refl.
      * intros Hfull. apply IH2. now apply bucket_append_full.
    + exact (IH b p).
Qed.

Lemma filter_split_perm (m : ref -> bool) (l : list ref) :
  Permutation (filter m l ++ filter (fun r => negb (m r)) l) l.
Proof.
  induction l as [|x l IH]; cbn [filter]; [constructor|].
  destruct (m x); cbn [negb app].
  - now constructor.
  - apply Permutation_sym, Permutation_cons_app, Permutation_sym, IH.
Qed.

Lemma time_loop_nodup (h : heap) (rp : RetentionPolicy) (now : Z) (fuel : nat) :
  forall (k : Z) (files : list ref) (b : TimeBuckets) (res : sorted),
    stems_by_path h files ->
    time_loop h rp now fuel k files b = Ok res ->
    NoDup (filed b ++ files) -> full_slots b ->
    NoDup (filed (buckets_of res) ++ files_left res) /\ full_slots (buckets_of res).
Proof.
  induction fuel as [|fuel IH]; intros k files b res Hwf Hres Hnd Hfull;
    cbn [time_loop] in Hres; [discriminate|].
  destruct files as [|f0 files'].
  - injection Hres as <-. cbn [buckets_of files_left]. auto.
  - set (files := f0 :: files') in *.
    destruct (now - k <? 1); [discriminate|].
    destruct (Z.leb_spec max_days (k + 1)) as [Hc|Hc].
    + injection Hres as <-. cbn [buckets_of files_left]. auto.
    + pose proof (scan_day_spec h rp (stamp_of_ordinal (now - k)) (k + 1) files b)
        as [_ Hp].
      pose proof (scan_fold_filed h rp (stamp_of_ordinal (now - k)) (k + 1) files b [])
        as [Hperm Hf].
      fold (scan_day h rp (stamp_of_ordinal (now - k)) (k + 1) files b) in Hperm, Hf.
      destruct (scan_day h rp (stamp_of_ordinal (now - k)) (k + 1) files b)
        as [b1 p] eqn:Hscan.
      cbn [fst snd] in Hp, Hperm, Hf. fold (hit h now k) in Hp, Hperm.
      destruct (keeps_in_list (gen_of rp (k + 1))).
      * subst p. cbn [remove_each] in Hres. rewrite app_nil_r in Hperm.
        apply (IH _ _ _ _ Hwf Hres); [|now apply Hf].
        apply (Permutation_NoDup (l := filed b ++ files)); [|exact Hnd].
        now apply Permutation_app_tail, Permutation_sym.
      * subst p.
        assert (remove_each h (filter (hit h now k) files) files
                = Some (filter (fun r => negb (hit h now k r)) files)) as Hrem.
        { apply (remove_each_filter h (hit h now k) [] files).
          - intros x y Hx Hy E. unfold hit. now rewrite (Hwf x y Hx Hy E).
          - intros y []. }
        rewrite Hrem in Hres.
        apply (IH _ _ _ _ (stems_by_path_filter h _ _ Hwf) Hres); [|now apply Hf].
        apply (Permutation_NoDup (l := filed b ++ files)); [|exact Hnd].
        apply Permutation_sym.
        transitivity ((filed b ++ filter (hit h now k) files)
                        ++ filter (fun r => negb (hit h now k r)) files);
          [now apply Permutation_app_tail|].
        rewrite <- app_assoc. apply Permutation_app_head, filter_split_perm.
Qed.

(** Extra X13.  For entries built by the constructor, all different, and
    a reference date that leaves 40 years to scan: [create_time_buckets]
    returns, no slot it returns is empty, no entry is filed twice under
    daily, weekly, monthly or yearly, and no entry filed there is left in
    the list. *)
Theorem create_time_buckets_files_once (files : list ref) (rp : RetentionPolicy)
  (now : Z) (h : heap) :
  max_days <= now -> forallb (fun x => built (h x)) files = true -> NoDup files ->
  exists res,
    create_time_buckets files rp now h = Ok res
    /\ NoDup (filed (buckets_of res) ++ files_left res)
    /\ forall g i l, In (i, l) (gen_slots g (buckets_of res)) -> l <> [].
Proof.
  intros Hnow Hb Hnd. pose proof (built_stems_by_path h files Hb) as Hwf.
  destruct (create_time_buckets_spec h rp now files Hnow Hwf) as (res & Hres & _).
  exists res. split; [exact Hres|].
  apply (time_loop_nodup h rp now _ 0 files empty_buckets res Hwf Hres).
  - exact Hnd.
  - intros g i l H. destruct g; destruct H.
Qed.

Lemma create_time_buckets_files_once_witness :
  max_days <= TD_TIMESTAMP
  /\ forallb (fun x => built (heap_of weekly_pair x)) (refs_of weekly_pair) = true
  /\ NoDup (refs_of weekly_pair)
  /\ exists res,
       create_time_buckets (refs_of weekly_pair) TD_RETENTION TD_TIMESTAMP
         (heap_of weekly_pair) = Ok res
       /\ NoDup (filed (buckets_of res) ++ files_left res)
       /\ forall g i l, In (i, l) (gen_slots g (buckets_of res)) -> l <> [].
Proof.
  assert (max_days <= TD_TIMESTAMP) as H1 by (vm_compute; discriminate).
  assert (forallb (fun x => built (heap_of weekly_pair x)) (refs_of weekly_pair) = true)
    as H2 by reflexivity.
  assert (NoDup (refs_of weekly_pair)) as H3 by (apply seq_NoDup).
  repeat (split; [assumption|]).
  exact (create_time_buckets_files_once (refs_of weekly_pair) TD_RETENTION
           TD_TIMESTAMP (heap_of weekly_pair) H1 H2 H3).
Defined.

(** ** The survivor of a slot *)

Lemma concat_member_nodup (LL : list (list ref)) (a : list ref) :
  NoDup (List.concat LL) -> In a LL -> NoDup a.
Proof.
  induction LL as [|c LL IH]; cbn [List.concat]; intros H Ha; [destruct Ha|].
  destruct Ha as [<-|Ha].
  - now apply NoDup_app_remove_r in H.
  - apply IH; [now apply NoDup_app_remove_l in H|exact Ha].
Qed.

Lemma concat_unique (LL : list (list ref)) (a a' : list ref) (x : ref) :
  NoDup (List.concat LL) -> In a LL -> In a' LL -> In x a -> In x a' -> a = a'.
Proof.
  induction LL as [|c LL IH]; cbn [List.concat]; intros H Ha Ha' Hx Hx';
    [destruct Ha|].
  destruct Ha as [<-|Ha], Ha' as [<-|Ha'].
  - reflexivity.
  - exfalso. apply (NoDup_app_disjoint _ _ x H Hx).
    apply in_concat. now exists a'.
  - exfalso. apply (NoDup_app_disjoint _ _ x H Hx').
    apply in_concat. now exists a.
  - apply IH; auto. now apply NoDup_app_remove_l in H.
Qed.

Lemma filed_concat (b : TimeBuckets) :
  filed b
  = List.concat (map snd (b_daily b ++ b_weekly b ++ b_monthly b ++ b_yearly b)).
Proof. unfold filed, entries_of. now rewrite !map_app, !concat_app. Qed.

Lemma filed_member (b : TimeBuckets) (g : generation) (i : Z) (a : list ref) :
  g <> Obsolete -> In (i, a) (gen_slots g b) ->
  In a (map snd (b_daily b ++ b_weekly b ++ b_monthly b ++ b_yearly b)).
Proof.
  intros Hg Hin. apply in_map_iff. exists (i, a). split; [reflexivity|].
  destruct g; cbn [gen_slots] in Hin; rewrite !in_app_iff; auto. congruence.
Qed.

Lemma pruned_of_in (b : TimeBuckets) (x : ref) :
  In x (pruned_of b) <-> exists g i l, In (i, l) (gen_slots g b) /\ In x (tl l).
Proof.
  unfold pruned_of, bucket_items. cbn [flat_map snd].
  rewrite !in_app_iff, !in_flat_map. split.
  - intros [H|[H|[H|[H|[H|[]]]]]]; destruct H as ([i l] & Hin & Hx);
      [exists Daily|exists Weekly|exists Monthly|exists Yearly|exists Obsolete];
      exists i, l; auto.
  - intros (g & i & l & Hin & Hx).
    destruct g; cbn [gen_slots] in Hin;
      [left|right; left|do 2 right; left|do 3 right; left|do 4 right; left];
      exists (i, l); auto.
Qed.

Lemma select_slots_full (d : slots) :
  (forall i l, In (i, l) d -> l <> []) ->
  forall acc, select_slots d acc = Ok (acc ++ flat_map (fun kv => tl (snd kv)) d).
Proof.
  induction d as [|[k l] d IH]; intros Hd acc; cbn [select_slots flat_map snd].
  - now rewrite app_nil_r.
  - destruct l as [|x others]; [now destruct (Hd k [] (or_introl eq_refl))|].
    rewrite IH by (intros i l H; apply (Hd i l); now right).
    cbn [tl]. now rewrite <- app_assoc.
Qed.

Lemma select_generations_full (b : TimeBuckets) (acc : list ref) :
  full_slots b ->
  select_generations (bucket_items b) acc = Ok (acc ++ pruned_of b).
Proof.
  intros Hb. unfold bucket_items, pruned_of. cbn [select_generations flat_map snd].
  rewrite (select_slots_full _ (Hb Daily)), (select_slots_full _ (Hb Weekly)),
    (select_slots_full _ (Hb Monthly)), (select_slots_full _ (Hb Yearly)),
    (select_slots_full _ (Hb Obsolete)).
  cbn [gen_slots bucket_items flat_map snd].
  now rewrite app_nil_r, <- !app_assoc.
Qed.

(** One series: the selection returns, and the first entry of a daily,
    weekly, monthly or yearly slot is in no slot's remainder. *)
Lemma kept_first_series (h : heap) (rp : RetentionPolicy) (now : Z)
  (files : list ref) (res : sorted) :
  max_days <= now -> stems_by_path h files -> NoDup files ->
  create_time_buckets files rp now h = Ok res ->
  full_slots (buckets_of res)
  /\ forall g i x l,
       g <> Obsolete -> In (i, x :: l) (gen_slots g (buckets_of res)) ->
       ~ In x (pruned_of (buckets_of res)).
Proof.
  intros Hnow Hwf Hnd Hres.
  destruct (time_loop_nodup h rp now _ 0 files empty_buckets res Hwf Hres)
    as [Hnodup Hfull].
  { exact Hnd. }
  { intros g i l H. destruct g; destruct H. }
  split; [exact Hfull|]. intros g i x l Hg Hin Hx.
  apply pruned_of_in in Hx as (g' & i' & l' & Hin' & Hx').
  assert (In x l') as Hxl' by (destruct l'; [destruct Hx'|now right]).
  pose proof (filed_member _ _ _ _ Hg Hin) as Hm.
  assert (In x (filed (buckets_of res))) as Hfiled.
  { rewrite filed_concat. apply in_concat. exists (x :: l). split; [exact Hm|now left]. }
  destruct (generation_eqb g' Obsolete) eqn:Eg.
  - apply generation_eqb_eq in Eg. subst g'.
    apply (NoDup_app_disjoint _ _ x Hnodup Hfiled).
    apply (obsolete_entries_stay h rp now files res x i' Hnow Hwf Hres).
    now exists l'.
  - assert (g' <> Obsolete) as Hg'
        by (intros E; apply generation_eqb_eq in E; congruence).
    pose proof (filed_member _ _ _ _ Hg' Hin') as Hm'.
    apply NoDup_app_remove_r in Hnodup. rewrite filed_concat in Hnodup.
    assert (x :: l = l') as <-
        by (apply (concat_unique _ _ _ x Hnodup Hm Hm'); [now left|exact Hxl']).
    apply (concat_member_nodup _ _ Hnodup) in Hm.
    apply NoDup_cons_iff in Hm as [Hnot _]. exact (Hnot Hx').
Qed.

(** ** The classifier reads names only *)

Lemma scan_day_same_names (h h' : heap) (rp : RetentionPolicy) (stamp : str)
  (d : Z) (files : list ref) (b : TimeBuckets) :
  (forall r, same_names (h r) (h' r)) ->
  scan_day h' rp stamp d files b = scan_day h rp stamp d files b.
Proof.
  intros Hs. unfold scan_day. generalize (b, @nil ref).
  induction files as [|f files IH]; intros st; cbn [fold_left]; [reflexivity|].
  destruct (Hs f) as (_ & _ & _ & -> & _). apply IH.
Qed.

Lemma list_remove_same_names (h h' : heap) (f : ref) (files : list ref) :
  (forall r, same_names (h r) (h' r)) ->
  list_remove h' f files = list_remove h f files.
Proof.
  intros Hs. induction files as [|x files IH]; cbn [list_remove]; [reflexivity|].
  unfold File_eqb. destruct (Hs x) as (-> & _). destruct (Hs f) as (-> & _).
  now rewrite IH.
Qed.

Lemma remove_each_same_names (h h' : heap) (p : list ref) :
  (forall r, same_names (h r) (h' r)) ->
  forall files, remove_each h' p files = remove_each h p files.
Proof.
  intros Hs. induction p as [|f p IH]; intros files; cbn [remove_each]; [reflexivity|].
  rewrite (list_remove_same_names h h' f files Hs).
  destruct (list_remove h f files); [apply IH|reflexivity].
Qed.

Lemma time_loop_same_names (h h' : heap) (rp : RetentionPolicy) (now : Z) (fuel : nat) :
  (forall r, same_names (h r) (h' r)) ->
  forall k files b, time_loop h' rp now fuel k files b = time_loop h rp now fuel k files b.
Proof.
  intros Hs. induction fuel as [|fuel IH]; intros k files b; cbn [time_loop];
    [reflexivity|].
  destruct files as [|f0 files']; [reflexivity|].
  destruct (now - k <? 1); [reflexivity|].
  destruct (max_days <=? k + 1); [reflexivity|].
  rewrite (scan_day_same_names h h' _ _ _ _ _ Hs).
  destruct (scan_day h rp (stamp_of_ordinal (now - k)) (k + 1) (f0 :: files') b)
    as [b1 p].
  rewrite (remove_each_same_names h h' p Hs).
  destruct (remove_each h p (f0 :: files')); [apply IH|reflexivity].
Qed.

Lemma prune_series_same_names (h h' : heap) (rp : RetentionPolicy) (now : Z)
  (buckets : series) :
  (forall r, same_names (h r) (h' r)) ->
  forall acc, prune_series h' rp now buckets acc = prune_series h rp now buckets acc.
Proof.
  intros Hs. induction buckets as [|[name files] buckets IH]; intros acc;
    cbn [prune_series]; [reflexivity|].
  unfold create_time_buckets. rewrite (time_loop_same_names h h' rp now _ Hs).
  destruct (time_loop h rp now (Z.to_nat max_days) 0 files empty_buckets);
    try reflexivity.
  destruct (select_generations (bucket_items (buckets_of a)) acc); try reflexivity.
  apply IH.
Qed.

(** ** The prune list, series by series *)

Lemma prune_series_parts (h : heap) (rp : RetentionPolicy) (now : Z)
  (buckets : series) :
  forall acc out, prune_series h rp now buckets acc = Ok out ->
    forall r, In r out <->
      In r acc
      \/ exists k files res, In (k, files) buckets
           /\ create_time_buckets files rp now h = Ok res
           /\ In r (pruned_of (buckets_of res)).
Proof.
  induction buckets as [|[name files] buckets IH]; intros acc out H r;
    cbn [prune_series] in H.
  - injection H as <-. split; [now left|]. now intros [H|(k & fs & res & [] & _)].
  - destruct (create_time_buckets files rp now h) as [res| |] eqn:Hres;
      try discriminate.
    destruct (select_generations (bucket_items (buckets_of res)) acc)
      as [acc'| |] eqn:Hsel; try discriminate.
    apply select_generations_tails in Hsel. fold (pruned_of (buckets_of res)) in Hsel.
    subst acc'. rewrite (IH _ _ H r), in_app_iff. split.
    + intros [[Ha|Hp]|(k & fs & res' & Hin & Hr' & Hp)].
      * now left.
      * right. exists name, files, res. split; [now left|]. auto.
      * right. exists k, fs, res'. split; [now right|]. auto.
    + intros [Ha|(k & fs & res' & [E|Hin] & Hr' & Hp)].
      * left. now left.
      * injection E as _ <-. rewrite Hres in Hr'. injection Hr' as <-.
        left. now right.
      * right. exists k, fs, res'. auto.
Qed.

Lemma prune_series_returns (h : heap) (rp : RetentionPolicy) (now : Z)
  (buckets : series) :
  forall acc out, prune_series h rp now buckets acc = Ok out ->
    forall k files, In (k, files) buckets ->
      exists res, create_time_buckets files rp now h = Ok res.
Proof.
  induction buckets as [|[name fs] buckets IH]; intros acc out H k files Hin;
    cbn [prune_series] in H; [destruct Hin|].
  destruct (create_time_buckets fs rp now h) as [res| |] eqn:Hres;
    try discriminate.
  destruct (select_generations (bucket_items (buckets_of res)) acc)
    as [acc'| |] eqn:Hsel; try discriminate.
  destruct Hin as [E|Hin]; [|exact (IH _ _ H k files Hin)].
  injection E as _ <-. now exists res.
Qed.

(** ** No entry is in two series *)

Lemma dict_append_concat (k : str) (f : ref) (d : series) :
  dict_mem k d = true ->
  Permutation (List.concat (map snd (dict_append k f d)))
              (List.concat (map snd d) ++ [f]).
Proof.
  induction d as [|[k0 l0] d IH]; cbn [dict_mem dict_append]; [discriminate|].
  destruct (str_eqb k k0); cbn [orb map snd List.concat]; intros Hm.
  - rewrite <- !app_assoc. apply Permutation_app_head, Permutation_app_comm.
  - rewrite <- app_assoc. apply Permutation_app_head, IH, Hm.
Qed.

Lemma dict_set_concat_in (k : str) (f x : ref) (d : series) :
  In x (List.concat (map snd (dict_set k [f] d))) ->
  In x (List.concat (map snd d)) \/ x = f.
Proof.
  induction d as [|[k0 l0] d IH]; cbn [dict_set].
  - cbn. intros [E|[]]. now right.
  - destruct (str_eqb k k0); cbn [map snd List.concat]; rewrite !in_app_iff.
    + intros [[E|[]]|H]; [now right|left; now right].
    + intros [H|H]; [left; now left|].
      destruct (IH H) as [H'|H']; [left; now right|now right].
Qed.

Lemma dict_set_concat (k : str) (f : ref) (d : series) :
  NoDup (List.concat (map snd d) ++ [f]) ->
  NoDup (List.concat (map snd (dict_set k [f] d))).
Proof.
  induction d as [|[k0 l0] d IH]; cbn [dict_set]; [now cbn|].
  destruct (str_eqb k k0); cbn [map snd List.concat]; intros H.
  - rewrite <- app_assoc in H. apply NoDup_app_remove_l in H.
    revert H. apply Permutation_NoDup, Permutation_app_comm.
  - rewrite <- app_assoc in H.
    apply NoDup_app; [now apply NoDup_app_remove_r in H
                     |apply IH; now apply NoDup_app_remove_l in H|].
    intros x Hx Hy. apply (NoDup_app_disjoint _ _ x H Hx).
    apply in_app_iff. destruct (dict_set_concat_in _ _ _ _ Hy) as [H'| ->];
      [now left|right; now left].
Qed.

Lemma split_loop_nodup (rest : list ref) :
  forall (buckets d : series) (h h' : heap),
    NoDup (List.concat (map snd buckets) ++ rest) ->
    split_loop rest buckets h = Ok (d, h') ->
    NoDup (List.concat (map snd d)).
Proof.
  induction rest as [|f rest IH]; intros buckets d h h' Hnd H;
    cbn [split_loop] in H.
  - injection H as <- _. now rewrite app_nil_r in Hnd.
  - unfold mbind in H.
    destruct (get_bucket f h) as [[k h1]| |] eqn:E1; try discriminate.
    assert (NoDup ((List.concat (map snd buckets) ++ [f]) ++ rest)) as Hnd'
        by (rewrite <- app_assoc; exact Hnd).
    destruct (dict_mem k buckets) eqn:Hmem.
    + apply IH in H; [exact H|].
      revert Hnd'. apply Permutation_NoDup, Permutation_app_tail.
      symmetry. now apply dict_append_concat.
    + destruct (get_bucket f h1) as [[k2 h2]| |] eqn:E2; try discriminate.
      apply IH in H; [exact H|].
      apply NoDup_app.
      * apply dict_set_concat. now apply NoDup_app_remove_r in Hnd'.
      * now apply NoDup_app_remove_l in Hnd'.
      * intros x Hx Hy. apply (NoDup_app_disjoint _ _ x Hnd').
        -- apply in_app_iff.
           destruct (dict_set_concat_in _ _ _ _ Hx) as [H'| ->];
             [now left|right; now left].
        -- exact Hy.
Qed.

(** Extra X14.  For distinct entries built by the constructor and a
    reference date that leaves 40 years to scan, when [list_files_to_prune]
    returns: in every series of [split_into_buckets], the first entry of
    every daily, weekly, monthly and yearly slot is not in the prune list,
    and every later entry of a slot of any generation is in it. *)
Theorem first_of_slot_survives (file_list : list ref) (rp : RetentionPolicy)
  (now : Z) (h : heap) (d : series) (del : list ref) :
  max_days <= now ->
  forallb (fun r => built (h r)) file_list = true ->
  NoDup file_list ->
  value (split_into_buckets file_list h) = Ok d ->
  value (list_files_to_prune file_list rp now h) = Ok del ->
  forall k files, In (k, files) d ->
    exists res,
      create_time_buckets files rp now h = Ok res
      /\ forall g i x l, In (i, x :: l) (gen_slots g (buckets_of res)) ->
           (forall y, In y l -> In y del)
           /\ (g <> Obsolete -> ~ In x del).
Proof.
  intros Hnow Hbuilt Hnd Hd Hdel k files Hin.
  apply value_ok in Hd as (h1 & Hsplit). apply value_ok in Hdel as (h2 & Hdel).
  unfold list_files_to_prune in Hdel.
  destruct file_list as [|f0 rest]; [discriminate|].
  unfold mbind, lift in Hdel. rewrite Hsplit in Hdel.
  pose proof (split_loop_frame _ _ _ _ _ Hsplit) as Hframe.
  rewrite (prune_series_same_names h h1 rp now d Hframe) in Hdel.
  destruct (prune_series h rp now d []) as [out| |] eqn:Hprune; try discriminate.
  injection Hdel as <- _.
  destruct (prune_series_returns _ _ _ _ _ _ Hprune k files Hin) as [res Hres].
  exists res. split; [exact Hres|]. intros g i x l Hslot.
  pose proof (prune_series_parts _ _ _ _ _ _ Hprune) as Hparts.
  assert (NoDup (List.concat (map snd d))) as Hcat.
  { apply (split_loop_nodup (f0 :: rest) [] d h h1); [exact Hnd|exact Hsplit]. }
  assert (In files (map snd d)) as Hmem
      by (apply in_map_iff; exists (k, files); auto).
  split.
  - intros y Hy. apply Hparts. right. exists k, files, res.
    repeat split; auto. apply pruned_of_in. exists g, i, (x :: l). auto.
  - intros Hg Hx. apply Hparts in Hx as [[]|(k' & files' & res' & Hin' & Hres' & Hp)].
    assert (In x files) as Hxf.
    { apply (filed_entry_of_files _ _ _ _ _ x g i Hres).
      exists (x :: l). split; [exact Hslot|now left]. }
    assert (In x files') as Hxf'.
    { apply pruned_of_in in Hp as (g' & i' & l' & Hs' & Ht).
      apply (filed_entry_of_files _ _ _ _ _ x g' i' Hres').
      exists l'. split; [exact Hs'|]. destruct l'; [destruct Ht|now right]. }
    assert (In files' (map snd d)) as Hmem'
        by (apply in_map_iff; exists (k', files'); auto).
    pose proof (concat_unique _ _ _ x Hcat Hmem Hmem' Hxf Hxf') as E. subst files'.
    rewrite Hres in Hres'. injection Hres' as <-.
    assert (stems_by_path h files) as Hwf.
    { apply built_stems_by_path. apply forallb_forall. intros r Hr.
      rewrite forallb_forall in Hbuilt. apply Hbuilt.
      destruct (split_into_buckets_order_aux _ _ _ _ Hsplit) as [_ Hsub].
      destruct (Hsub k files Hin) as [_ Hs]. exact (Subseq_In _ _ _ Hs Hr). }
    destruct (kept_first_series h rp now files res Hnow Hwf
                (concat_member_nodup _ _ Hcat Hmem) Hres) as [_ Hkeep].
    exact (Hkeep g i x l Hg Hslot Hp).
Qed.

Lemma first_of_slot_survives_witness :
  max_days <= TD_TIMESTAMP
  /\ forallb (fun r => built (heap_of weekly_pair r)) (refs_of weekly_pair) = true
  /\ NoDup (refs_of weekly_pair)
  /\ value (split_into_buckets (refs_of weekly_pair) (heap_of weekly_pair))
     = Ok [(s "a", [0%nat; 1%nat])]
  /\ value (list_files_to_prune (refs_of weekly_pair) TD_RETENTION TD_TIMESTAMP
              (heap_of weekly_pair)) = Ok [0%nat]
  /\ exists res,
       create_time_buckets [0%nat; 1%nat] TD_RETENTION TD_TIMESTAMP (heap_of weekly_pair)
       = Ok res
       /\ forall g i x l, In (i, x :: l) (gen_slots g (buckets_of res)) ->
            (forall y, In y l -> In y [0%nat])
            /\ (g <> Obsolete -> ~ In x [0%nat]).
Proof.
  assert (max_days <= TD_TIMESTAMP) as H1 by (vm_compute; discriminate).
  assert (forallb (fun r => built (heap_of weekly_pair r)) (refs_of weekly_pair) = true)
    as H2 by reflexivity.
  assert (NoDup (refs_of weekly_pair)) as H3 by (apply seq_NoDup).
  assert (value (split_into_buckets (refs_of weekly_pair) (heap_of weekly_pair))
          = Ok [(s "a", [0%nat; 1%nat])]) as H4 by (vm_compute; reflexivity).
  assert (value (list_files_to_prune (refs_of weekly_pair) TD_RETENTION TD_TIMESTAMP
                   (heap_of weekly_pair)) = Ok [0%nat]) as H5
      by (vm_compute; reflexivity).
  repeat (split; [assumption|]).
  exact (first_of_slot_survives (refs_of weekly_pair) TD_RETENTION TD_TIMESTAMP
           (heap_of weekly_pair) _ _ H1 H2 H3 H4 H5 (s "a") [0%nat; 1%nat]
           (or_introl eq_refl)).
Defined.

(** ** Entry lists from file names *)

Lemma ends_with_spec (e t : str) : ends_with e t = true <-> exists p, t = p ++ e.
Proof.
  unfold ends_with. rewrite starts_with_app. split.
  - intros (post & H). exists (rev post).
    rewrite <- (rev_involutive t), H, rev_app_distr. now rewrite rev_involutive.
  - intros (p & ->). exists (rev p). apply rev_app_distr.
Qed.

Lemma starts_with_cut (e a b : str) (c : ascii) :
  ~ In c e -> starts_with e (a ++ c :: b) = starts_with e a.
Proof.
  revert a. induction e as [|x e IH]; intros a Hc; [now destruct a|].
  destruct a as [|y a]; cbn [app starts_with].
  - destruct (ch_eqb x c) eqn:E; [|reflexivity].
    apply ch_eqb_eq in E. subst x. destruct Hc. now left.
  - rewrite IH; [reflexivity|]. intros H. apply Hc. now right.
Qed.

Lemma ends_with_after_slash (e q n : str) :
  ~ In "/"%char e -> ends_with e (q ++ "/"%char :: n) = ends_with e n.
Proof.
  intros He. unfold ends_with.
  rewrite rev_app_distr. cbn [rev]. rewrite <- app_assoc. cbn [app].
  apply starts_with_cut. now rewrite <- in_rev.
Qed.

Lemma no_slash_existsb (n : str) :
  ~ In "/"%char n -> existsb (ch_eqb "/"%char) n = false.
Proof.
  intros Hn. destruct (existsb (ch_eqb "/"%char) n) eqn:E; [|reflexivity].
  apply existsb_exists in E as (c & Hc & E). apply ch_eqb_eq in E. now subst c.
Qed.

Lemma no_slash_inb (n : str) :
  existsb (ch_eqb "/"%char) n = false -> ~ In "/"%char n.
Proof.
  intros E Hin.
  assert (existsb (ch_eqb "/"%char) n = true) as E'
      by (apply existsb_exists; exists "/"%char; split;
          [exact Hin|now apply ch_eqb_eq]).
  congruence.
Qed.

Lemma basename_no_slash (n : str) : ~ In "/"%char n -> basename n = n.
Proof.
  intros Hn. destruct n as [|c n]; [reflexivity|]. cbn [basename].
  rewrite no_slash_existsb by (intros H; apply Hn; now right).
  destruct (ch_eqb c "/"%char) eqn:E; [|reflexivity].
  apply ch_eqb_eq in E. subst c. destruct Hn. now left.
Qed.

Lemma basename_after_slash (q n : str) :
  ~ In "/"%char n -> basename (q ++ "/"%char :: n) = n.
Proof.
  intros Hn. induction q as [|c q IH]; cbn [app basename].
  - now rewrite no_slash_existsb.
  - rewrite IH.
    assert (existsb (ch_eqb "/"%char) (q ++ "/"%char :: n) = true) as ->;
      [|reflexivity].
    apply existsb_exists. exists "/"%char. split; [|now apply ch_eqb_eq].
    apply in_app_iff. right. now left.
Qed.

(** Joining a directory with names that have no slash puts one prefix,
    empty or ending in a slash, before each name. *)
Lemma path_join_prefix (d : str) :
  exists p, (p = [] \/ exists q, p = q ++ ["/"%char])
            /\ forall n, ~ In "/"%char n -> path_join d n = p ++ n.
Proof.
  assert (forall n, ~ In "/"%char n -> starts_with ["/"%char] n = false) as Hst.
  { intros [|c n] Hn; [reflexivity|]. cbn [starts_with].
    destruct (ch_eqb "/"%char c) eqn:E; [|reflexivity].
    apply ch_eqb_eq in E. subst c. destruct Hn. now left. }
  unfold path_join. destruct d as [|c d].
  - exists []. split; [now left|]. intros n Hn. now rewrite (Hst n Hn).
  - cbn [orb]. destruct (ends_with ["/"%char] (c :: d)) eqn:E.
    + exists (c :: d). split.
      * right. apply ends_with_spec in E as (q & E). now exists q.
      * intros n Hn. now rewrite (Hst n Hn).
    + exists ((c :: d) ++ ["/"%char]). split; [right; now exists (c :: d)|].
      intros n Hn. rewrite (Hst n Hn), <- app_assoc. reflexivity.
Qed.

Lemma str_leb_total (a b : str) : str_leb a b = true \/ str_leb b a = true.
Proof.
  revert b. induction a as [|x a IH]; intros [|y b]; cbn [str_leb]; auto.
  destruct (Nat.ltb_spec (nat_of_ascii x) (nat_of_ascii y)); [now left|].
  destruct (Nat.ltb_spec (nat_of_ascii y) (nat_of_ascii x)); [now right|].
  assert (nat_of_ascii x = nat_of_ascii y) as E by lia.
  rewrite E, Nat.eqb_refl. cbn [orb andb]. apply IH.
Qed.

Lemma str_leb_trans (a b c : str) :
  str_leb a b = true -> str_leb b c = true -> str_leb a c = true.
Proof.
  revert b c. induction a as [|x a IH]; intros [|y b] [|z c]; cbn [str_leb];
    try reflexivity; try discriminate.
  rewrite !orb_true_iff, !andb_true_iff, !Nat.ltb_lt, !Nat.eqb_eq.
  intros [H1|[H1 H1']] [H2|[H2 H2']].
  - left. lia.
  - left. lia.
  - left. lia.
  - right. split; [lia|]. exact (IH _ _ H1' H2').
Qed.

Lemma str_leb_prefix (p a b : str) : str_leb (p ++ a) (p ++ b) = str_leb a b.
Proof.
  induction p as [|x p IH]; cbn [app str_leb]; [reflexivity|].
  now rewrite Nat.ltb_irrefl, Nat.eqb_refl, IH.
Qed.

Lemma insert_sorted_perm (x : str) (l : list str) :
  Permutation (insert_sorted x l) (x :: l).
Proof.
  induction l as [|y l IH]; cbn [insert_sorted]; [reflexivity|].
  destruct (str_leb x y); [reflexivity|].
  rewrite IH. apply perm_swap.
Qed.

Lemma py_sorted_perm (l : list str) : Permutation (py_sorted l) l.
Proof.
  induction l as [|x l IH]; cbn [py_sorted fold_right]; [reflexivity|].
  fold (py_sorted l). rewrite insert_sorted_perm. now apply perm_skip.
Qed.

Lemma insert_sorted_ordered (x : str) (l : list str) :
  StronglySorted str_le l -> StronglySorted str_le (insert_sorted x l).
Proof.
  induction l as [|y l IH]; intros Hl; cbn [insert_sorted].
  - repeat constructor.
  - apply StronglySorted_inv in Hl as [Hl Hy].
    destruct (str_leb x y) eqn:E.
    + constructor; [now constructor|]. constructor; [exact E|].
      revert Hy. apply Forall_impl. intros z Hz. exact (str_leb_trans _ _ _ E Hz).
    + constructor; [now apply IH|].
      apply (Permutation_Forall (Permutation_sym (insert_sorted_perm x l))).
      constructor; [|exact Hy].
      destruct (str_leb_total x y) as [H|H]; [congruence|exact H].
Qed.

Lemma py_sorted_ordered (l : list str) : StronglySorted str_le (py_sorted l).
Proof.
  induction l as [|x l IH]; cbn [py_sorted fold_right]; [constructor|].
  now apply insert_sorted_ordered.
Qed.

Lemma filter_ordered (f : str -> bool) (l : list str) :
  StronglySorted str_le l -> StronglySorted str_le (filter f l).
Proof.
  induction l as [|x l IH]; intros Hl; cbn [filter]; [constructor|].
  apply StronglySorted_inv in Hl as [Hl Hx].
  destruct (f x); [|now apply IH].
  constructor; [now apply IH|].
  apply Forall_forall. intros y Hy. apply filter_In in Hy as [Hy _].
  rewrite Forall_forall in Hx. now apply Hx.
Qed.

Lemma insert_sorted_prefix (p x : str) (l : list str) :
  insert_sorted (p ++ x) (map (app p) l) = map (app p) (insert_sorted x l).
Proof.
  induction l as [|y l IH]; cbn [map insert_sorted]; [reflexivity|].
  rewrite str_leb_prefix. destruct (str_leb x y); cbn [map]; [reflexivity|].
  now rewrite IH.
Qed.

Lemma py_sorted_prefix (p : str) (l : list str) :
  py_sorted (map (app p) l) = map (app p) (py_sorted l).
Proof.
  induction l as [|x l IH]; cbn [map py_sorted fold_right]; [reflexivity|].
  fold (py_sorted (map (app p) l)) (py_sorted l).
  now rewrite IH, insert_sorted_prefix.
Qed.

Lemma init_original (fn : str) (msize : Z) :
  original_filename (File_init fn msize) = fn.
Proof. unfold File_init. now destruct (search (basename fn)). Qed.

Lemma init_base (fn : str) (msize : Z) :
  base_filename (File_init fn msize) = basename fn.
Proof. unfold File_init. now destruct (search (basename fn)). Qed.

Lemma map_init_original (l : list str) :
  map original_filename (map (fun fn => File_init fn 0) l) = l.
Proof.
  rewrite map_map. rewrite <- (map_id l) at 2. apply map_ext. intros fn.
  apply init_original.
Qed.

Lemma filter_map_pointwise {A B} (f : B -> bool) (f' : A -> bool) (g : A -> B)
  (l : list A) :
  (forall x, In x l -> f (g x) = f' x) ->
  filter f (map g l) = map g (filter f' l).
Proof.
  induction l as [|x l IH]; intros H; cbn [map filter]; [reflexivity|].
  rewrite (H x (or_introl eq_refl)), IH by (intros y Hy; apply H; now right).
  now destruct (f' x).
Qed.

Lemma filter_perm {A} (f : A -> bool) (l l' : list A) :
  Permutation l l' -> Permutation (filter f l) (filter f l').
Proof.
  induction 1 as [|x l l' _ IH|x y l|l l' l'' _ IH1 _ IH2]; cbn [filter].
  - constructor.
  - destruct (f x); [now apply perm_skip|exact IH].
  - destruct (f x), (f y); try reflexivity. apply perm_swap.
  - now transitivity (filter f l').
Qed.

(** Extra X15.  Given names that are not one directory, the entry list
    holds one entry per given name that ends with the extension, as many
    times as the name was given, in ascending order of the paths; every
    entry is as the constructor builds it. *)
Theorem file_list_of_names (fs : FileSystem) (filenames : list str) (extension : str) :
  filenames <> [] ->
  (forall d, filenames = [d] -> isdir fs d = false) ->
  exists l,
    create_file_list_from_filenames fs filenames extension = Some l
    /\ Permutation (map original_filename l) (filter (ends_with extension) filenames)
    /\ StronglySorted str_le (map original_filename l)
    /\ forallb built l = true.
Proof.
  intros Hne Hdir.
  exists (map (fun fn => File_init fn 0)
              (filter (ends_with extension) (py_sorted filenames))).
  split; [|split; [|split]].
  - unfold create_file_list_from_filenames.
    destruct filenames as [|d [|d' rest]]; [congruence| |reflexivity].
    now rewrite (Hdir d eq_refl).
  - rewrite map_init_original.
    apply filter_perm, py_sorted_perm.
  - rewrite map_init_original. apply filter_ordered, py_sorted_ordered.
  - apply forallb_forall. intros f Hf. apply in_map_iff in Hf as (fn & <- & _).
    apply built_init.
Qed.

Lemma file_list_of_names_witness :
  map s (rev weekly_pair) <> []
  /\ (forall d, map s (rev weekly_pair) = [d] -> isdir backups_fs d = false)
  /\ exists l,
       create_file_list_from_filenames backups_fs (map s (rev weekly_pair)) (s "gz.gpg")
       = Some l
       /\ Permutation (map original_filename l)
                      (filter (ends_with (s "gz.gpg")) (map s (rev weekly_pair)))
       /\ StronglySorted str_le (map original_filename l)
       /\ forallb built l = true.
Proof.
  assert (map s (rev weekly_pair) <> []) as H1 by discriminate.
  assert (forall d, map s (rev weekly_pair) = [d] -> isdir backups_fs d = false)
    as H2 by discriminate.
  repeat (split; [assumption|]).
  exact (file_list_of_names backups_fs (map s (rev weekly_pair)) (s "gz.gpg") H1 H2).
Defined.

(** Extra X16.  Given one directory whose listing holds names without a
    slash, and an extension without a slash: the base names of the entries
    are the listed names that end with the extension, in ascending order,
    and the path of each entry is the directory joined with its base
    name. *)
Theorem file_list_of_directory (fs : FileSystem) (d : str) (names : list str)
  (extension : str) :
  isdir fs d = true ->
  listdir fs d = Some names ->
  (forall n, In n names -> ~ In "/"%char n) ->
  ~ In "/"%char extension ->
  exists l,
    create_file_list_from_filenames fs [d] extension = Some l
    /\ map base_filename l = filter (ends_with extension) (py_sorted names)
    /\ forall f, In f l -> original_filename f = path_join d (base_filename f).
Proof.
  intros Hdir Hlist Hnames Hext.
  unfold create_file_list_from_filenames. rewrite Hdir, Hlist. cbn [option_map].
  eexists. split; [reflexivity|].
  destruct (path_join_prefix d) as (p & Hp & Hjoin).
  assert (forall n, In n (py_sorted names) -> ~ In "/"%char n) as Hsorted.
  { intros n Hn. apply Hnames.
    exact (Permutation_in _ (py_sorted_perm names) Hn). }
  assert (forall n, ~ In "/"%char n ->
            basename (p ++ n) = n /\ ends_with extension (p ++ n) = ends_with extension n)
    as Hpn.
  { intros n Hn. destruct Hp as [->|(q & ->)].
    - split; [now apply basename_no_slash|reflexivity].
    - rewrite <- app_assoc. cbn [app].
      split; [now apply basename_after_slash|now apply ends_with_after_slash]. }
  assert (map (path_join d) names = map (app p) names) as ->.
  { apply map_ext_in. intros n Hn. apply Hjoin, Hnames, Hn. }
  rewrite py_sorted_prefix.
  rewrite (filter_map_pointwise _ (ends_with extension))
    by (intros n Hn; apply Hpn, Hsorted, Hn).
  split.
  - rewrite !map_map. rewrite <- (map_id (filter _ _)) at 2.
    apply map_ext_in. intros n Hn. apply filter_In in Hn as [Hn _].
    rewrite init_base. apply Hpn, Hsorted, Hn.
  - intros f Hf. apply in_map_iff in Hf as (fn & <- & Hfn).
    apply in_map_iff in Hfn as (n & <- & Hn). apply filter_In in Hn as [Hn _].
    rewrite init_original, init_base.
    destruct (Hpn n (Hsorted n Hn)) as [-> _]. symmetry. apply Hjoin, Hsorted, Hn.
Qed.

Lemma file_list_of_directory_witness :
  isdir backups_fs (s "backups") = true
  /\ listdir backups_fs (s "backups")
     = Some (map s (rev weekly_pair ++ ["notes.txt"%string]))
  /\ (forall n, In n (map s (rev weekly_pair ++ ["notes.txt"%string])) ->
        ~ In "/"%char n)
  /\ ~ In "/"%char (s "gz.gpg")
  /\ exists l,
       create_file_list_from_filenames backups_fs [s "backups"] (s "gz.gpg") = Some l
       /\ map base_filename l
          = filter (ends_with (s "gz.gpg"))
                   (py_sorted (map s (rev weekly_pair ++ ["notes.txt"%string])))
       /\ forall f, In f l ->
            original_filename f = path_join (s "backups") (base_filename f).
Proof.
  assert (isdir backups_fs (s "backups") = true) as H1 by reflexivity.
  assert (listdir backups_fs (s "backups")
          = Some (map s (rev weekly_pair ++ ["notes.txt"%string]))) as H2
      by reflexivity.
  assert (forall n, In n (map s (rev weekly_pair ++ ["notes.txt"%string])) ->
            ~ In "/"%char n) as H3.
  { intros n Hn. apply no_slash_inb.
    revert n Hn. apply Forall_forall. repeat constructor. }
  assert (~ In "/"%char (s "gz.gpg")) as H4 by (apply no_slash_inb; reflexivity).
  repeat (split; [assumption|]).
  exact (file_list_of_directory backups_fs (s "backups") _ (s "gz.gpg") H1 H2 H3 H4).
Defined.

(** ** When the prune list is returned *)

Lemma span_in_stem_spec (f : File) :
  span_in_stem f = true <->
  ((ds_start f = -1 /\ ds_end f = -1) \/ 0 <= ds_start f < ds_end f)
  /\ (ds_start f <= 1 \/ ds_start f <= len (internal_filename f)).
Proof.
  unfold span_in_stem.
  rewrite !andb_true_iff, !orb_true_iff, !andb_true_iff, !Z.eqb_eq, !Z.leb_le,
    Z.ltb_lt.
  tauto.
Qed.

Lemma upd_span (h : heap) (self : ref) (f : File) :
  span_in_stem f = true ->
  forall r, span_in_stem (h r) = true -> span_in_stem (upd self f h r) = true.
Proof.
  intros Hf r Hr. unfold upd. now destruct (Nat.eqb r self).
Qed.

(** On an entry whose span is in the stem, [get_bucket] returns, and the
    spans of all entries are in their stems afterwards. *)
Lemma get_bucket_safe (self : ref) (h : heap) :
  span_in_stem (h self) = true ->
  exists k h',
    get_bucket self h = Ok (k, h')
    /\ forall r, span_in_stem (h r) = true -> span_in_stem (h' r) = true.
Proof.
  intros Hs. pose proof Hs as Hs'. apply span_in_stem_spec in Hs' as [Hspan Hidx].
  unfold get_bucket.
  destruct ((ds_start (h self) =? ds_end (h self)) && (ds_end (h self) =? -1)) eqn:E0;
    [eauto|].
  assert (0 <= ds_start (h self) < ds_end (h self)) as Hint.
  { destruct Hspan as [[H1 H2]|H]; [|exact H].
    rewrite H1, H2 in E0. discriminate. }
  destruct (Z.ltb_spec (len (internal_filename (h self)) - ds_end (h self))
              (ds_start (h self))) as [Hp|Hp].
  - destruct (Z.ltb_spec 1 (ds_start (h self))) as [H1|H1]; [|eauto].
    destruct (py_index_inside (internal_filename (h self)) (ds_start (h self) - 1))
      as (c & ->); [lia|].
    destruct (ch_eqb c "-"); [|eauto].
    do 2 eexists. split; [reflexivity|].
    apply upd_span. apply span_in_stem_spec. cbn. lia.
  - destruct (Z.ltb_spec (ds_end (h self)) (len (internal_filename (h self)))) as [He|He].
    + destruct (py_index_inside (internal_filename (h self)) (ds_end (h self)))
        as (c & ->); [lia|].
      destruct (ch_eqb c "-").
      * match goal with
        | |- context [match py_slice_from ?t ?e with _ => _ end] =>
            destruct (py_slice_from t e)
        end;
          (do 2 eexists; split; [reflexivity|];
           apply upd_span; apply span_in_stem_spec; cbn; lia).
      * match goal with
        | |- context [match py_slice_from ?t ?e with _ => _ end] =>
            destruct (py_slice_from t e)
        end; eauto.
    + match goal with
      | |- context [match py_slice_from ?t ?e with _ => _ end] =>
          destruct (py_slice_from t e)
      end; eauto.
Qed.

Lemma split_loop_safe (rest : list ref) :
  forall (buckets : series) (h : heap),
    (forall r, In r rest -> span_in_stem (h r) = true) ->
    exists d h',
      split_loop rest buckets h = Ok (d, h')
      /\ forall r, span_in_stem (h r) = true -> span_in_stem (h' r) = true.
Proof.
  induction rest as [|f rest IH]; intros buckets h Hs; cbn [split_loop].
  - exists buckets, h. split; [reflexivity|auto].
  - unfold mbind.
    destruct (get_bucket_safe f h (Hs f (or_introl eq_refl))) as (k & h1 & -> & P1).
    destruct (dict_mem k buckets).
    + destruct (IH (dict_append k f buckets) h1) as (d & h' & -> & P);
        [intros r Hr; apply P1, Hs; now right|].
      exists d, h'. split; [reflexivity|auto].
    + destruct (get_bucket_safe f h1 (P1 f (Hs f (or_introl eq_refl))))
        as (k2 & h2 & -> & P2).
      destruct (IH (dict_set k2 [f] buckets) h2) as (d & h' & -> & P);
        [intros r Hr; apply P2, P1, Hs; now right|].
      exists d, h'. split; [reflexivity|auto].
Qed.

Lemma built_same_names (f f' : File) : same_names f f' -> built f' = built f.
Proof.
  intros (H1 & H2 & H3 & H4 & _). unfold built. now rewrite H1, H2, H3, H4.
Qed.

Lemma prune_series_total (h : heap) (rp : RetentionPolicy) (now : Z) (d : series) :
  max_days <= now ->
  (forall k files, In (k, files) d -> stems_by_path h files /\ NoDup files) ->
  forall acc, exists out, prune_series h rp now d acc = Ok out.
Proof.
  intros Hnow. induction d as [|[name files] d IH]; intros Hd acc; cbn [prune_series].
  - now exists acc.
  - destruct (Hd name files (or_introl eq_refl)) as [Hwf Hnd].
    destruct (create_time_buckets_spec h rp now files Hnow Hwf) as (res & Hres & _).
    rewrite Hres.
    destruct (kept_first_series h rp now files res Hnow Hwf Hnd Hres) as [Hfull _].
    rewrite (select_generations_full _ acc Hfull).
    apply IH. intros k fs Hin. apply (Hd k fs). now right.
Qed.

(** Extra X17.  [list_files_to_prune] returns a list, and raises nothing,
    when it is given a reference date that leaves 40 years to scan and a
    non-empty list of distinct entries built by the constructor whose date
    spans are in their stems; the entries are still so afterwards, so that
    a further call returns as well. *)
Theorem list_files_to_prune_returns (file_list : list ref) (rp : RetentionPolicy)
  (now : Z) (h : heap) :
  file_list <> [] ->
  max_days <= now ->
  NoDup file_list ->
  forallb (fun r => built (h r) && span_in_stem (h r)) file_list = true ->
  exists del h',
    list_files_to_prune file_list rp now h = Ok (del, h')
    /\ forallb (fun r => built (h' r) && span_in_stem (h' r)) file_list = true.
Proof.
  intros Hne Hnow Hnd Hall. rewrite forallb_forall in Hall.
  assert (forall r, In r file_list -> built (h r) = true /\ span_in_stem (h r) = true)
    as Hall' by (intros r Hr; apply andb_true_iff, Hall, Hr).
  unfold list_files_to_prune. destruct file_list as [|f0 rest]; [congruence|].
  unfold mbind, lift, split_into_buckets.
  destruct (split_loop_safe (f0 :: rest) [] h) as (d & h1 & Hsplit & Hkeep);
    [intros r Hr; apply Hall', Hr|].
  rewrite Hsplit.
  pose proof (split_loop_frame _ _ _ _ _ Hsplit) as Hframe.
  assert (NoDup (List.concat (map snd d))) as Hcat
      by (apply (split_loop_nodup (f0 :: rest) [] d h h1); [exact Hnd|exact Hsplit]).
  destruct (prune_series_total h1 rp now d Hnow) with (acc := @nil ref) as [out ->].
  { intros k files Hin. split.
    - apply built_stems_by_path. apply forallb_forall. intros r Hr.
      rewrite (built_same_names _ _ (Hframe r)). apply Hall'.
      destruct (split_loop_order (f0 :: rest) [] [] d h h1) as [Hsub _];
        [intros ? ? []|constructor|exact Hsplit|].
      destruct (Hsub k files Hin) as [_ Hs]. exact (Subseq_In _ _ _ Hs Hr).
    - apply (concat_member_nodup _ _ Hcat). apply in_map_iff. now exists (k, files). }
  exists out, h1. split; [reflexivity|].
  apply forallb_forall. intros r Hr. apply andb_true_iff. split.
  - rewrite (built_same_names _ _ (Hframe r)). apply Hall', Hr.
  - apply Hkeep, Hall', Hr.
Qed.

Lemma list_files_to_prune_returns_witness :
  refs_of weekly_pair <> []
  /\ max_days <= TD_TIMESTAMP
  /\ NoDup (refs_of weekly_pair)
  /\ forallb (fun r => built (heap_of weekly_pair r) && span_in_stem (heap_of weekly_pair r))
       (refs_of weekly_pair) = true
  /\ exists del h',
       list_files_to_prune (refs_of weekly_pair) TD_RETENTION TD_TIMESTAMP
         (heap_of weekly_pair) = Ok (del, h')
       /\ forallb (fun r => built (h' r) && span_in_stem (h' r)) (refs_of weekly_pair)
          = true.
Proof.
  assert (refs_of weekly_pair <> []) as H0 by discriminate.
  assert (max_days <= TD_TIMESTAMP) as H1 by (vm_compute; discriminate).
  assert (NoDup (refs_of weekly_pair)) as H2 by (apply seq_NoDup).
  assert (forallb (fun r => built (heap_of weekly_pair r)
                            && span_in_stem (heap_of weekly_pair r))
            (refs_of weekly_pair) = true) as H3 by reflexivity.
  repeat (split; [assumption|]).
  exact (list_files_to_prune_returns (refs_of weekly_pair) TD_RETENTION TD_TIMESTAMP
           (heap_of weekly_pair) H0 H1 H2 H3).
Defined.

(** Extra X18.  The date span of an entry as the constructor builds it is
    in its stem exactly when no dot comes before a date that starts past
    offset 1 of the base name. *)
Theorem new_entry_span_in_stem (fn : str) (msize : Z) :
  span_in_stem (File_init fn msize) = true <->
  ~ (1 < ds_start (File_init fn msize)
     /\ In "."%char (firstn (Z.to_nat (ds_start (File_init fn msize)))
                       (base_filename (File_init fn msize)))).
Proof.
  rewrite span_in_stem_spec.
  destruct (File_init_cases fn msize)
    as [(_ & Hs & He)|(y & m & d & _ & _ & _ & _ & H0 & H14 & _ & Hlen)].
  - rewrite Hs, He. split; [lia|]. intros _. split; [now left|left; lia].
  - assert (len (internal_filename (File_init fn msize)) < ds_start (File_init fn msize)
            <-> In "."%char (firstn (Z.to_nat (ds_start (File_init fn msize)))
                               (base_filename (File_init fn msize)))) as Hdot.
    { rewrite File_init_stem. unfold len, replace_char. rewrite length_map.
      rewrite <- (before_first_short "." (base_filename (File_init fn msize))
                    (Z.to_nat (ds_start (File_init fn msize))))
        by (unfold len in Hlen; lia).
      lia. }
    rewrite <- Hdot. split.
    + intros [_ Hidx]. lia.
    + intros Hno. split; [right; lia|lia].
Qed.
